(** * Object-detection pipeline of [1_explore.ipynb]

    A shallow embedding of the notebook's three code cells:
    - [transform] / [letterbox_image]  (letterbox resize),
    - [postprocess]                    (decoding of the raw output tensors),
    - [draw_boxes] / [_draw_bounding_box_on_image] (annotation renderer),
    followed by the theorems that settle the specification's claims.

    Conventions.
    - Python exceptions are values of [exn]; a call that may raise returns a
      [result].
    - Python [float] and numpy [float64] are IEEE binary64, numpy [float32]
      is IEEE binary32.  Both are [spec_float] values, with the operations of
      [SpecFloat] at the matching precision, so every rounding of the source
      is computed, not idealised.  A float32 scalar combined with a Python
      number gives a float64, as in the numpy 1.x of the notebook's
      Python 3.9 kernel.
    - numpy arrays are nested lists; a rectangular array is a nested list whose
      rows have equal lengths. *)

From Stdlib Require Import ZArith.
From Stdlib Require Import Strings.Byte.
From Stdlib Require Import Floats.SpecFloat.
From stdpp Require Import gmap strings list pretty.

Open Scope Z_scope.

(** ** Python results *)

Inductive exn : Type :=
  | IndexError
  | ZeroDivisionError
  | ValueError
  | OverflowError
  | FileNotFoundError
  | SystemError
  | DecompressionBombError.

Inductive result (A : Type) : Type :=
  | Ok (a : A)
  | Err (e : exn).
Arguments Ok {A} a.
Arguments Err {A} e.

#[global] Instance result_ret : MRet result := fun _ a => Ok a.
#[global] Instance result_bind : MBind result := fun _ _ f m =>
  match m with
  | Ok a => f a
  | Err e => Err e
  end.
#[global] Instance result_fmap : FMap result := fun _ _ f m =>
  match m with
  | Ok a => Ok (f a)
  | Err e => Err e
  end.

(** ** Python sequence indexing

    [l[i]] for a list, a tuple or one axis of a numpy array: an index in
    [[0, n)] is used as it is, an index in [[-n, 0)] counts from the end, and
    anything else raises [IndexError]. *)

Definition normalize_index (n : nat) (i : Z) : result nat :=
  if bool_decide (0 ≤ i < Z.of_nat n) then Ok (Z.to_nat i)
  else if bool_decide (- Z.of_nat n ≤ i < 0) then Ok (Z.to_nat (Z.of_nat n + i))
  else Err IndexError.

Definition getitem {A} (l : list A) (i : Z) : result A :=
  k ← normalize_index (length l) i;
  match l !! k with
  | Some x => Ok x
  | None => Err IndexError
  end.

(** [a[(i, j)]] and [a[(i, j, k)]] on a numpy array: one bounds-checked index
    per axis. *)
Definition getitem2 {A} (a : list (list A)) (ij : Z * Z) : result A :=
  row ← getitem a ij.1;
  getitem row ij.2.

Definition getitem3 {A} (a : list (list (list A))) (ijk : Z * Z * Z) : result A :=
  plane ← getitem a ijk.1.1;
  row ← getitem plane ijk.1.2;
  getitem row ijk.2.

(** ** Detection decoder: [postprocess] *)

(** One row of the model's selected-indices output:
    [(batch index, class index, candidate index)]. *)
Definition triple : Type := Z * Z * Z.

Section Decoder.
(** The label table [classes] imported from the module [classes]. *)
Variable classes : list string.
(** Element type of the [raw_scores] and [raw_boxes] arrays ([float32] in
    the notebook); the decoder only moves elements around. *)
Context {F : Type}.

(** The body of the [for] loop: the three lookups, in the source's order. *)
Definition decode_step (raw_boxes : list (list (list F)))
    (raw_scores : list (list (list F))) (raw_indices : triple)
    : result (list F * F * string) :=
  cls ← getitem classes raw_indices.1.2;
  s ← getitem3 raw_scores raw_indices;
  let indices := (raw_indices.1.1, raw_indices.2) in
  b ← getitem2 raw_boxes indices;
  Ok (b, s, cls).

(** The loop, with the three accumulators the source appends to. *)
Fixpoint postprocess_loop (raw_boxes : list (list (list F)))
    (raw_scores : list (list (list F))) (rows : list triple)
    (boxes : list (list F)) (scores : list F) (detected_classes : list string)
    : result (list (list F) * list F * list string) :=
  match rows with
  | [] => Ok (boxes, scores, detected_classes)
  | raw_indices :: rows' =>
      '(b, s, cls) ← decode_step raw_boxes raw_scores raw_indices;
      postprocess_loop raw_boxes raw_scores rows'
        (boxes ++ [b]) (scores ++ [s]) (detected_classes ++ [cls])
  end.

Definition postprocess (raw_boxes : list (list (list F)))
    (raw_scores : list (list (list F)))
    (raw_class_indices : list (list triple))
    : result (list (list F) * list F * list string) :=
  rows ← getitem raw_class_indices 0;
  postprocess_loop raw_boxes raw_scores rows [] [] [].
End Decoder.

(** The decoded unit the specification calls a Detection.  [draw_boxes] reads
    the three lists returned by [postprocess] position by position
    ([boxes[index]], [scores[index]], [class_]); [detections] is that
    reading. *)
Record Detection (F : Type) : Type := mkDetection {
  classLabel : string;
  score : F;
  box : list F;
}.
Arguments mkDetection {F} _ _ _.
Arguments classLabel {F} _.
Arguments score {F} _.
Arguments box {F} _.

Fixpoint detections {F} (boxes : list (list F)) (scores : list F)
    (detected_classes : list string) : list (Detection F) :=
  match boxes, scores, detected_classes with
  | b :: boxes', s :: scores', c :: classes' =>
      mkDetection c s b :: detections boxes' scores' classes'
  | _, _, _ => []
  end.

Definition decode {F} (classes : list string) (raw_boxes : list (list (list F)))
    (raw_scores : list (list (list F))) (raw_class_indices : list (list triple))
    : result (list (Detection F)) :=
  '(boxes, scores, detected_classes) ←
    postprocess classes raw_boxes raw_scores raw_class_indices;
  Ok (detections boxes scores detected_classes).

(** ** Floating point

    [SpecFloat]'s operations are the IEEE 754 ones, rounding to nearest even,
    at precision [prec] and exponent bound [emax]. *)

Definition float : Type := spec_float.

(** An integer as the same number in floating-point form, not yet rounded. *)
Definition SF_of_int (z : Z) : float :=
  match z with
  | Z0 => S754_zero false
  | Zpos p => S754_finite false p 0
  | Zneg p => S754_finite true p 0
  end.

Module F64.
Definition prec : Z := 53.
Definition emax : Z := 1024.
Definition of_Z (z : Z) : float := binary_normalize prec emax z 0 false.
Definition mul : float → float → float := SFmul prec emax.
Definition div : float → float → float := SFdiv prec emax.
Definition add : float → float → float := SFadd prec emax.
Definition sub : float → float → float := SFsub prec emax.
(** A binary32 or binary64 value as a binary64: exact. *)
Definition of_float (f : float) : float :=
  match f with
  | S754_finite s m e => binary_normalize prec emax (cond_Zopp s (Zpos m)) e s
  | _ => f
  end.
End F64.

Module F32.
Definition prec : Z := 24.
Definition emax : Z := 128.
Definition of_Z (z : Z) : float := binary_normalize prec emax z 0 false.
Definition div : float → float → float := SFdiv prec emax.
End F32.

(** Python's [a / b] on two [int]s: the exact quotient, rounded once. *)
Definition truediv (a b : Z) : result float :=
  if bool_decide (b = 0) then Err ZeroDivisionError
  else match SFdiv F64.prec F64.emax (SF_of_int a) (SF_of_int b) with
       | S754_infinity _ => Err OverflowError
       | q => Ok q
       end.

(** Python's [float(n)] for an [int], as in [n * x] with [x] a [float]. *)
Definition float_of_int (n : Z) : result float :=
  match F64.of_Z n with
  | S754_infinity _ => Err OverflowError
  | f => Ok f
  end.

(** The integer part of a float, rounding toward zero. *)
Definition trunc (f : float) : Z :=
  match f with
  | S754_finite s m e =>
      cond_Zopp s (match e with
                   | Zneg p => Zpos m `quot` 2 ^ Zpos p
                   | _ => Zpos m * 2 ^ e
                   end)
  | _ => 0
  end.

(** Python's [int(x)] on a [float]. *)
Definition py_int (f : float) : result Z :=
  match f with
  | S754_nan => Err ValueError
  | S754_infinity _ => Err OverflowError
  | _ => Ok (trunc f)
  end.

(** Python's [min(a, b)]: the second argument only if it is smaller. *)
Definition py_min (a b : float) : float := if SFltb b a then b else a.

(** ** Letterbox transform: [letterbox_image] and [transform] *)

Definition rgb : Type := byte * byte * byte.

(** A PIL image in mode RGB: its [size] and its pixels ([getpixel((x, y))]).
    Only the pixels inside the size are content. *)
Record Image : Type := mkImage {
  im_size : Z * Z;
  im_getpixel : Z → Z → rgb;
}.

(** [Image.new('RGB', size, color)]. *)
Definition Image_new (size : Z * Z) (color : rgb) : result Image :=
  if bool_decide (size.1 < 0 ∨ size.2 < 0) then Err ValueError
  else Ok {| im_size := size; im_getpixel := fun _ _ => color |}.

(** [dst.paste(src, box)] with [box] the upper left corner: the pixels of
    [src] replace those of [dst] under it; what falls outside [dst] is
    clipped.  The source mutates [dst]; here the new value is returned. *)
Definition paste (dst src : Image) (box : Z * Z) : Image :=
  {| im_size := im_size dst;
     im_getpixel := fun x y =>
       if bool_decide (box.1 ≤ x < box.1 + (im_size src).1 ∧
                       box.2 ≤ y < box.2 + (im_size src).2)
       then im_getpixel src (x - box.1) (y - box.2)
       else im_getpixel dst x y |}.

Definition gray : rgb := ("128"%byte, "128"%byte, "128"%byte).

Section Letterbox.
(** Pillow's bicubic resampling filter: the pixel at [(x, y)] of [image]
    resized to [(nw, nh)].  Its arithmetic is Pillow's own and stays a
    parameter. *)
Variable bicubic : Image → Z * Z → Z → Z → rgb.

(** [image.resize(size, Image.Resampling.BICUBIC)]: a copy when the size
    does not change, [ValueError] ("height and width must be > 0") when a
    side of the new size is below 1, the resampled image otherwise. *)
Definition resize (image : Image) (size : Z * Z) : result Image :=
  if bool_decide (im_size image = size) then Ok image
  else if bool_decide (size.1 < 1 ∨ size.2 < 1) then Err ValueError
  else Ok {| im_size := size; im_getpixel := bicubic image size |}.

(** Lines 89-93 of [letterbox_image]: [scale], then [nw] and [nh]. *)
Definition scaled_size (isize size : Z * Z) : result (Z * Z) :=
  let '(iw, ih) := isize in
  let '(w, h) := size in
  sw ← truediv w iw;
  sh ← truediv h ih;
  let scale := py_min sw sh in
  fw ← float_of_int iw;
  nw ← py_int (F64.mul fw scale);
  fh ← float_of_int ih;
  nh ← py_int (F64.mul fh scale);
  Ok (nw, nh).

Definition letterbox_image (image : Image) (size : Z * Z) : result Image :=
  let '(w, h) := size in
  '(nw, nh) ← scaled_size (im_size image) size;
  image' ← resize image (nw, nh);
  new_image ← Image_new size gray;
  Ok (paste new_image image' ((w - nw) `div` 2, (h - nh) `div` 2)).

(** [np.array(image, dtype='float32')]: shape (height, width, 3). *)
Definition range (n : Z) : list Z := map Z.of_nat (seq 0 (Z.to_nat n)).

Definition float32_of_byte (b : byte) : float :=
  F32.of_Z (Z.of_N (Byte.to_N b)).

Definition np_array_float32 (image : Image) : list (list (list float)) :=
  map (fun y =>
         map (fun x => let '(r, g, b) := im_getpixel image x y in
                       [float32_of_byte r; float32_of_byte g; float32_of_byte b])
             (range (im_size image).1))
      (range (im_size image).2).

(** [np.transpose(a, [2, 0, 1])] on an array of shape (h, w, c):
    [result[k][i][j] = a[i][j][k]]. *)
Definition transpose_2_0_1 (a : list (list (list float)))
    : list (list (list float)) :=
  let channels := length (hd [] (hd [] a)) in
  map (fun k : nat => map (map (fun px : list float => default S754_nan (px !! k))) a)
      (seq 0 channels).

Definition transform (image : Image) : result (list (list (list (list float)))) :=
  let model_image_size := (416, 416) in
  boxed_image ← letterbox_image image (model_image_size.2, model_image_size.1);
  let image_data := np_array_float32 boxed_image in
  let image_data :=
    map (map (map (fun v => F32.div v (F32.of_Z 255)))) image_data in
  let image_data := transpose_2_0_1 image_data in
  let image_data := [image_data] in
  Ok image_data.
End Letterbox.

(** ** Box renderer: [draw_boxes] and [_draw_bounding_box_on_image] *)

(** A PIL colour: a name or a hex string. *)
Definition Color : Type := string.

(** What the renderer needs of an image object: its [size] and the three
    [ImageDraw] calls.  Pillow's rasteriser stays abstract; [fill] is
    optional as in Pillow.  The calls themselves are total: the conversion
    [draw.text] makes of its origin, which can raise, is [text_origin]
    below. *)
Class Surface (I : Type) : Type := {
  surface_size : I → Z * Z;
  draw_line : I → list (float * float) → Z → option Color → I;
  draw_rectangle : I → (float * float) * (float * float) → option Color → I;
  draw_text : I → float * float → string → Color → I;
}.

(** The image files on disk, by path, and the live image objects.
    [Image.open] makes a new object from a file; [ImageDraw] changes an object
    in place; nothing in the notebook writes a file. *)
Record World (I : Type) : Type := mkWorld {
  files : gmap string I;
  objects : gmap nat I;
}.
Arguments mkWorld {I} _ _.
Arguments files {I} _.
Arguments objects {I} _.

Definition M (I A : Type) : Type := World I → result A * World I.

Definition M_ret {I A} (a : A) : M I A := fun w => (Ok a, w).
Definition M_bind {I A B} (m : M I A) (f : A → M I B) : M I B := fun w =>
  match m w with
  | (Ok a, w') => f a w'
  | (Err e, w') => (Err e, w')
  end.
Definition lift {I A} (r : result A) : M I A := fun w => (r, w).

Notation "x <~ m ; k" := (M_bind m (fun x => k))
  (at level 20, m at level 100, k at level 200, only parsing).
Notation "' x <~ m ; k" := (M_bind m (fun x => k))
  (at level 20, x pattern, m at level 100, k at level 200, only parsing).

(** Pillow's limit on the pixels of an opened image: twice
    [Image.MAX_IMAGE_PIXELS], whose default is [1024 * 1024 * 1024 // 4 // 3]. *)
Definition bomb_limit : Z := 2 * (((1024 * 1024 * 1024) `div` 4) `div` 3).

(** The pixel count Pillow checks, [max(1, width) * max(1, height)]. *)
Definition pixels (size : Z * Z) : Z := Z.max 1 size.1 * Z.max 1 size.2.

(** [Image.open(path)]: a missing file raises [FileNotFoundError], and an
    image of more than [bomb_limit] pixels is refused with
    [DecompressionBombError]. *)
Definition Image_open {I} `{Surface I} (path : string) : M I nat := fun w =>
  match files w !! path with
  | None => (Err FileNotFoundError, w)
  | Some img =>
      if bool_decide (bomb_limit < pixels (surface_size img))
      then (Err DecompressionBombError, w)
      else
        let r := fresh (dom (objects w)) in
        (Ok r, mkWorld (files w) (<[r := img]> (objects w)))
  end.

(** Reading and updating the object behind a reference.  A reference with no
    live object is reported as Pillow reports a closed image. *)
Definition read {I A} (r : nat) (f : I → A) : M I A := fun w =>
  match objects w !! r with
  | Some img => (Ok (f img), w)
  | None => (Err ValueError, w)
  end.

Definition modify {I} (r : nat) (f : I → I) : M I unit := fun w =>
  match objects w !! r with
  | Some img => (Ok tt, mkWorld (files w) (<[r := f img]> (objects w)))
  | None => (Err ValueError, w)
  end.

(** [np.ceil] on a float64. *)
Definition np_ceil (f : float) : float :=
  match f with
  | S754_finite s m (Zneg p) =>
      let d := 2 ^ Zpos p in
      let q := Zpos m `div` d in
      let n := if s then - q else if bool_decide (Zpos m `mod` d = 0) then q else q + 1 in
      if bool_decide (n = 0) then S754_zero s else F64.of_Z n
  | _ => f
  end.

(** The literal [0.05]. *)
Definition lit_0_05 : float := F64.div (F64.of_Z 5) (F64.of_Z 100).

(** [f'{class_}: {int(100 * score)}%'], [score] a numpy float32: the product
    is a float64. *)
Definition display_string (class_ : string) (score : float) : result string :=
  n ← py_int (F64.mul (F64.of_Z 100) (F64.of_float score));
  Ok (class_ +:+ ": " +:+ pretty n +:+ "%").

(** The origin [draw.text] is given: Pillow converts both coordinates with
    [int], so a NaN raises [ValueError] and an infinity [OverflowError], and
    hands the integers to its C core, which refuses a value outside the range
    of a C int ([SystemError]). *)
Definition text_origin (xy : float * float) : result (Z * Z) :=
  x ← py_int xy.1;
  y ← py_int xy.2;
  if bool_decide (- 2 ^ 31 ≤ x < 2 ^ 31 ∧ - 2 ^ 31 ≤ y < 2 ^ 31)
  then Ok (x, y)
  else Err SystemError.

Section Renderer.
Context {I : Type} `{Surface I}.
(** [font.getbbox] of the default font, Python's [hash] on strings and
    [list(ImageColor.colormap.values())]. *)
Variable getbbox : string → Z * Z * Z * Z.
Variable hash : string → Z.
Variable colors : list Color.

(** The tuple assignment of [(left, right, top, bottom)]: float32 box
    coordinates times Python floats, so binary64 products. *)
Definition scaled_box (width_scaling_factor height_scaling_factor : float)
    (ymin xmin ymax xmax : float) : float * float * float * float :=
  (F64.mul (F64.of_float xmin) width_scaling_factor,
   F64.mul (F64.of_float xmax) width_scaling_factor,
   F64.mul (F64.of_float ymin) height_scaling_factor,
   F64.mul (F64.of_float ymax) height_scaling_factor).

(** The points handed to [draw.line]. *)
Definition outline (left right top bottom : float) : list (float * float) :=
  [(left, top); (left, bottom); (right, bottom); (right, top); (left, top)].

(** The second loop of the helper, over [display_str_list[::-1]]. *)
Fixpoint draw_labels (image : nat) (left : float) (color : option Color)
    (strs : list string) (text_bottom : float) : M I unit :=
  match strs with
  | [] => M_ret tt
  | display_str :: strs' =>
      let '(_, _, text_width, text_height) := getbbox display_str in
      th <~ lift (float_of_int text_height) ;
      tw <~ lift (float_of_int text_width) ;
      let margin := np_ceil (F64.mul lit_0_05 th) in
      let two_margin := F64.mul (F64.of_Z 2) margin in
      'tt <~ modify image (fun img =>
        draw_rectangle img
          ((left, F64.sub (F64.sub text_bottom th) two_margin),
           (F64.add left tw, text_bottom)) color) ;
      let origin :=
        (F64.add left margin, F64.sub (F64.sub text_bottom th) margin) in
      _ <~ lift (text_origin origin) ;
      'tt <~ modify image (fun img => draw_text img origin display_str "black") ;
      draw_labels image left color strs'
        (F64.sub text_bottom (F64.sub th two_margin))
  end.

Definition _draw_bounding_box_on_image (image : nat)
    (ymin xmin ymax xmax : float) (color : option Color)
    (thickness : Z) (display_str_list : list string) : M I unit :=
  '(im_width, im_height) <~ read image surface_size ;
  width_scaling_factor <~ lift (truediv im_width 416) ;
  height_scaling_factor <~ lift (truediv im_height 416) ;
  let lrtb :=
    scaled_box width_scaling_factor height_scaling_factor ymin xmin ymax xmax in
  let left := lrtb.1.1.1 in
  let right := lrtb.1.1.2 in
  let top := lrtb.1.2 in
  let bottom := lrtb.2 in
  'tt <~ modify image (fun img =>
    draw_line img (outline left right top bottom) thickness color) ;
  let display_str_heights := map (fun ds => (getbbox ds).2) display_str_list in
  total <~ lift (float_of_int (foldr Z.add 0 display_str_heights)) ;
  let total_display_str_height :=
    F64.mul (F64.add (F64.of_Z 1) (F64.mul (F64.of_Z 2) lit_0_05)) total in
  let text_bottom :=
    if SFltb total_display_str_height top
    then top
    else F64.add top total_display_str_height in
  draw_labels image left color (reverse display_str_list) text_bottom.

(** The body of the loop of [draw_boxes]; [class_colors] is the dictionary
    the loop fills. *)
Definition draw_one (image_pil : nat) (boxes : list (list float))
    (scores : list float) (index : Z) (class_ : string)
    (class_colors : gmap string Color) : M I (gmap string Color) :=
  box <~ lift (getitem boxes index) ;
  s <~ lift (getitem scores index) ;
  display_str <~ lift (display_string class_ s) ;
  class_colors <~ lift
    (match class_colors !! class_ with
     | Some _ => Ok class_colors
     | None =>
         if bool_decide (length colors = 0%nat) then Err ZeroDivisionError
         else c ← getitem colors ((hash class_ * 8) `mod` Z.of_nat (length colors));
              Ok (<[class_ := c]> class_colors)
     end) ;
  let color := class_colors !! class_ in
  b0 <~ lift (getitem box 0) ;
  b1 <~ lift (getitem box 1) ;
  b2 <~ lift (getitem box 2) ;
  b3 <~ lift (getitem box 3) ;
  'tt <~ _draw_bounding_box_on_image image_pil b0 b1 b2 b3 color 4 [display_str] ;
  M_ret class_colors.

Fixpoint draw_boxes_loop (image_pil : nat) (boxes : list (list float))
    (scores : list float) (index : Z) (classes : list string)
    (class_colors : gmap string Color) : M I unit :=
  match classes with
  | [] => M_ret tt
  | class_ :: classes' =>
      class_colors <~ draw_one image_pil boxes scores index class_ class_colors ;
      draw_boxes_loop image_pil boxes scores (index + 1) classes' class_colors
  end.

Definition draw_boxes (image : string) (boxes : list (list float))
    (scores : list float) (classes : list string) : M I nat :=
  image_pil <~ Image_open image ;
  'tt <~ draw_boxes_loop image_pil boxes scores 0 classes ∅ ;
  M_ret image_pil.
End Renderer.

(** ** Reference definitions used in the statements *)

(** The specification's bounds-checked accessor: positions counted from 0. *)
Definition at_index {A} (l : list A) (i : Z) : option A :=
  if bool_decide (0 ≤ i) then l !! Z.to_nat i else None.

(** The Detection the specification assigns to a triple:
    [classLabels[classIdx]], [scores[batchIdx, classIdx, candidateIdx]] and
    [boxes[batchIdx, candidateIdx]]. *)
Definition gathered {F} (classes : list string) (raw_boxes : list (list (list F)))
    (raw_scores : list (list (list F))) (t : triple) : option (Detection F) :=
  label ← at_index classes t.1.2;
  plane ← at_index raw_scores t.1.1;
  row ← at_index plane t.1.2;
  s ← at_index row t.2;
  brow ← at_index raw_boxes t.1.1;
  bx ← at_index brow t.2;
  Some (mkDetection label s bx).

(** Every row decoded on its own by the loop body, in order. *)
Fixpoint decode_rows {F} (classes : list string)
    (raw_boxes raw_scores : list (list (list F))) (rows : list triple)
    : result (list (list F * F * string)) :=
  match rows with
  | [] => Ok []
  | t :: rows' =>
      d ← decode_step classes raw_boxes raw_scores t;
      ds ← decode_rows classes raw_boxes raw_scores rows';
      Ok (d :: ds)
  end.

(** Python's reading of an index: [[-n, 0)] counts from the end. *)
Definition wrap_index (n : nat) (i : Z) : Z :=
  if bool_decide (i < 0) then Z.of_nat n + i else i.

Definition py_at {A} (l : list A) (i : Z) : option A :=
  if bool_decide (- Z.of_nat (length l) ≤ i < Z.of_nat (length l))
  then l !! Z.to_nat (wrap_index (length l) i)
  else None.

(** [gathered] with Python's reading of every index. *)
Definition py_gathered {F} (classes : list string) (raw_boxes : list (list (list F)))
    (raw_scores : list (list (list F))) (t : triple) : option (Detection F) :=
  label ← py_at classes t.1.2;
  plane ← py_at raw_scores t.1.1;
  row ← py_at plane t.1.2;
  s ← py_at row t.2;
  brow ← py_at raw_boxes t.1.1;
  bx ← py_at brow t.2;
  Some (mkDetection label s bx).

(** A float that is a zero or a finite number, of sign [s], whose magnitude
    exponent (number of binary digits of the mantissa plus the exponent) is at
    most [k]: its absolute value is below [2 ^ k]. *)
Definition finite_below (s : bool) (k : Z) (f : float) : Prop :=
  match f with
  | S754_zero s' => s' = s
  | S754_finite s' m e => s' = s ∧ Zdigits2 (Zpos m) + e ≤ k
  | _ => False
  end.

(** The floor of a float, the [floor] of the specification's letterbox. *)
Definition sf_floor (f : float) : Z :=
  match f with
  | S754_finite s m e =>
      match e with
      | Zneg p => cond_Zopp s (Zpos m) `div` 2 ^ Zpos p
      | _ => cond_Zopp s (Zpos m) * 2 ^ e
      end
  | _ => 0
  end.

(** Python's [round(x)], the nearest integer with ties to even: the rounding
    the specification's display string names. *)
Definition py_round (f : float) : Z :=
  match f with
  | S754_finite s m e =>
      cond_Zopp s
        (match e with
         | Zneg p =>
             let d := 2 ^ Zpos p in
             let q := Zpos m `div` d in
             match (2 * (Zpos m `mod` d)) ?= d with
             | Lt => q
             | Gt => q + 1
             | Eq => if Z.even q then q else q + 1
             end
         | _ => Zpos m * 2 ^ e
         end)
  | _ => 0
  end.

(** Shape [(n, c, h, w)] of a four-axis array, and the range [[0, 1]]. *)
Definition has_shape4 (n c h w : nat) (t : list (list (list (list float)))) : Prop :=
  length t = n ∧
  Forall (fun a => length a = c ∧
    Forall (fun b => length b = h ∧ Forall (fun r => length r = w) b) a) t.

Definition in_unit_interval (v : float) : bool :=
  SFleb (S754_zero false) v && SFleb v (F32.of_Z 1).

Definition all_in_unit_interval (t : list (list (list (list float)))) : Prop :=
  Forall (Forall (Forall (Forall (fun v => in_unit_interval v = true)))) t.

Definition channel (p : rgb) (c : nat) : byte :=
  match c with
  | O => p.1.1
  | S O => p.1.2
  | _ => p.2
  end.

(** Channel [k] of an image as a plane of floats in [[0, 1]]: row [y], column
    [x] holds the byte of the pixel [(x, y)] divided by 255 in binary32. *)
Definition normalized_plane (image : Image) (k : nat) : list (list float) :=
  map (fun y => map (fun x =>
         F32.div (float32_of_byte (channel (im_getpixel image x y) k)) (F32.of_Z 255))
       (range (im_size image).1))
    (range (im_size image).2).

(** [t[n][c][y][x]]. *)
Definition entry4 (t : list (list (list (list float)))) (n c y x : nat) : option float :=
  a ← t !! n; b ← a !! c; r ← b !! y; r !! x.

(** A surface that keeps the list of the [ImageDraw] calls made on it. *)
Inductive DrawCmd : Type :=
  | Line (xy : list (float * float)) (width : Z) (fill : option Color)
  | Rectangle (xy : (float * float) * (float * float)) (fill : option Color)
  | Text (xy : float * float) (text : string) (fill : Color).

Record Canvas : Type := mkCanvas {
  base : Image;
  drawn : list DrawCmd;
}.

#[global] Instance Canvas_surface : Surface Canvas := {|
  surface_size c := im_size (base c);
  draw_line c xy width fill := mkCanvas (base c) (drawn c ++ [Line xy width fill]);
  draw_rectangle c xy fill := mkCanvas (base c) (drawn c ++ [Rectangle xy fill]);
  draw_text c xy text fill := mkCanvas (base c) (drawn c ++ [Text xy text fill]);
|}.

(** The second half of [_draw_bounding_box_on_image], from
    [display_str_heights] on: the label chips for a box whose outline has
    been drawn with the given [left] and [top]. *)
Definition label_stage {I} `{Surface I} (getbbox : string → Z * Z * Z * Z)
    (image : nat) (left top : float) (color : option Color)
    (display_str_list : list string) : M I unit :=
  let display_str_heights := map (fun ds => (getbbox ds).2) display_str_list in
  total <~ lift (float_of_int (foldr Z.add 0 display_str_heights));
  let total_display_str_height :=
    F64.mul (F64.add (F64.of_Z 1) (F64.mul (F64.of_Z 2) lit_0_05)) total in
  let text_bottom :=
    if SFltb total_display_str_height top
    then top
    else F64.add top total_display_str_height in
  draw_labels getbbox image left color (reverse display_str_list) text_bottom.

(** The frame a call leaves around the object [r]: no file changes and no
    other object changes. *)
Definition frame {I} (r : nat) (w w' : World I) : Prop :=
  files w' = files w ∧ ∀ r', r' ≠ r → objects w' !! r' = objects w !! r'.

(** ** Sample inputs *)

(** The specification's decoder example: [classLabels[3] = "cat"],
    [scores[(0,3,5)] = 0.87], [boxes[(0,5)] = (10,20,110,120)]. *)
Definition f32_0_87 : float := F32.div (F32.of_Z 87) (F32.of_Z 100).
Definition zero32 : float := S754_zero false.
Definition sample_box : list float :=
  [F32.of_Z 10; F32.of_Z 20; F32.of_Z 110; F32.of_Z 120].
Definition sample_classes : list string := ["person"; "bicycle"; "car"; "cat"].
Definition sample_boxes : list (list (list float)) :=
  [replicate 5 (replicate 4 zero32) ++ [sample_box]].
Definition sample_scores : list (list (list float)) :=
  [replicate 3 (replicate 6 zero32) ++ [replicate 5 zero32 ++ [f32_0_87]]].

(** An 80-entry label table, one batch of 80 classes and 6 candidates. *)
Definition labels80 : list string := map (fun i => pretty (Z.of_nat i)) (seq 0 80).
Definition boxes80 : list (list (list float)) := [replicate 6 sample_box].
Definition scores80 : list (list (list float)) := [replicate 80 (replicate 6 f32_0_87)].

(** Images: a plain colour of a given size; nearest-neighbour resampling in
    the place of Pillow's filter. *)
Definition plain (size : Z * Z) (color : rgb) : Image :=
  {| im_size := size; im_getpixel := fun _ _ => color |}.
Definition red : rgb := ("255"%byte, "000"%byte, "000"%byte).
Definition nearest (image : Image) (size : Z * Z) (x y : Z) : rgb :=
  im_getpixel image (x * (im_size image).1 `div` size.1)
                    (y * (im_size image).2 `div` size.2).

(** A score of 0.9375, exact in binary32. *)
Definition f32_0_9375 : float := F32.div (F32.of_Z 15) (F32.of_Z 16).

(** A font whose text boxes are 6 wide per character and 11 high, a constant
    hash and a two-colour palette; one 832 x 832 photo on disk. *)
Definition sample_getbbox (ds : string) : Z * Z * Z * Z :=
  (0, 0, 6 * Z.of_nat (String.length ds), 11).
Definition sample_hash (_ : string) : Z := 7.
Definition sample_colors : list Color := ["#f0f8ff"; "#faebd7"].
Definition sample_photo : Canvas := mkCanvas (plain (832, 832) red) [].
Definition sample_world : World Canvas :=
  mkWorld {["sample-images/cat.jpg" := sample_photo]} ∅.

(** The world after [Image.open('sample-images/cat.jpg')]. *)
Definition opened_world : World Canvas :=
  mkWorld (files sample_world) {[0%nat := sample_photo]}.

(** ** Definitions for the further properties *)

(** The palette position [hash(class_) * 8 % len(colors)] and the colour
    found there. *)
Definition palette_index (hash : string → Z) (colors : list Color)
    (class_ : string) : Z :=
  (hash class_ * 8) `mod` Z.of_nat (length colors).

Definition palette_color (hash : string → Z) (colors : list Color)
    (class_ : string) : option Color :=
  colors !! Z.to_nat (palette_index hash colors class_).

(** The percentage and the text of a label. *)
Definition percent (score : float) : Z :=
  trunc (F64.mul (F64.of_Z 100) (F64.of_float score)).

Definition label_text (class_ : string) (score : float) : string :=
  class_ +:+ ": " +:+ pretty (percent score) +:+ "%".

(** An [ImageDraw] call without its coordinates, and the images reached from
    an image by a given sequence of calls, at some coordinates. *)
Inductive Call : Type :=
  | CLine (width : Z) (fill : option Color)
  | CRectangle (fill : option Color)
  | CText (text : string) (fill : Color).

Inductive drawn_by {I : Type} `{Surface I} : list Call → I → I → Prop :=
  | drawn_nil (img : I) : drawn_by [] img img
  | drawn_line (img img' : I) (xy : list (float * float)) (width : Z)
      (fill : option Color) (calls : list Call) :
      drawn_by calls (draw_line img xy width fill) img' →
      drawn_by (CLine width fill :: calls) img img'
  | drawn_rectangle (img img' : I) (xy : (float * float) * (float * float))
      (fill : option Color) (calls : list Call) :
      drawn_by calls (draw_rectangle img xy fill) img' →
      drawn_by (CRectangle fill :: calls) img img'
  | drawn_text (img img' : I) (xy : float * float) (text : string)
      (fill : Color) (calls : list Call) :
      drawn_by calls (draw_text img xy text fill) img' →
      drawn_by (CText text fill :: calls) img img'.

(** The calls [draw_boxes] makes for one detection, and the calls the helper
    makes for its display strings. *)
Definition label_calls (color : option Color) (strs : list string) : list Call :=
  flat_map (fun ds => [CRectangle color; CText ds "black"]) strs.

Definition detection_calls (hash : string → Z) (colors : list Color)
    (detection : string * float) : list Call :=
  let color := palette_color hash colors detection.1 in
  CLine 4 color :: label_calls color [label_text detection.1 detection.2].

(** A dictionary of colours that holds, for each of its classes, the colour
    at the palette position of the class. *)
Definition palette_dict (hash : string → Z) (colors : list Color)
    (class_colors : gmap string Color) : Prop :=
  ∀ key c, class_colors !! key = Some c → palette_color hash colors key = Some c.

(** A world with the object behind [r] replaced. *)
Definition with_object {I} (r : nat) (img : I) (w : World I) : World I :=
  mkWorld (files w) (<[r := img]> (objects w)).

(** A font whose text boxes are all 48 wide and 11 high. *)
Definition fixed_getbbox (_ : string) : Z * Z * Z * Z := (0, 0, 48, 11).

(** [sf_at_most f n d]: the float [f] is a zero or a positive finite number
    [m * 2 ^ e], and its value is at most the fraction [n / d]. *)
Definition sf_at_most (f : float) (n d : Z) : Prop :=
  match f with
  | S754_zero _ => True
  | S754_finite false m e => Zpos m * 2 ^ Z.max e 0 * d ≤ n * 2 ^ Z.max (- e) 0
  | _ => False
  end.

(** [sf_at_least f n d]: the float [f] is a positive finite number, and its
    value is at least the fraction [n / d]. *)
Definition sf_at_least (f : float) (n d : Z) : Prop :=
  match f with
  | S754_finite false m e => n * 2 ^ Z.max (- e) 0 ≤ Zpos m * 2 ^ Z.max e 0 * d
  | _ => False
  end.

(** A positive binary64 number in normal form, its exponent between [lo] and
    [hi]. *)
Definition normal_in (lo hi : Z) (f : float) : Prop :=
  match f with
  | S754_finite false m e => 2 ^ 52 ≤ Zpos m < 2 ^ 53 ∧ lo ≤ e ≤ hi
  | _ => False
  end.

(** * Properties *)

(** ** Indexing *)

Lemma normalize_index_spec (n : nat) (i : Z) :
  normalize_index n i =
    if bool_decide (- Z.of_nat n ≤ i < Z.of_nat n)
    then Ok (Z.to_nat (i `mod` Z.of_nat n))
    else Err IndexError.
Proof.
  unfold normalize_index.
  repeat case_bool_decide; try lia; try reflexivity.
  - rewrite Z.mod_small by lia. reflexivity.
  - f_equal. f_equal.
    rewrite <- (Z.mod_small (Z.of_nat n + i) (Z.of_nat n)) by lia.
    rewrite <- (Z_mod_plus_full i 1 (Z.of_nat n)). f_equal. lia.
Qed.

Lemma getitem_nonneg {A} (l : list A) (i : Z) (x : A) :
  0 ≤ i → l !! Z.to_nat i = Some x → getitem l i = Ok x.
Proof.
  intros Hi Hx. unfold getitem, normalize_index.
  pose proof (lookup_lt_Some _ _ _ Hx) as Hlt.
  rewrite bool_decide_eq_true_2 by lia. simpl. rewrite Hx. reflexivity.
Qed.

Lemma getitem_negative {A} (l : list A) (i : Z) :
  - Z.of_nat (length l) ≤ i < 0 →
  ∃ x, l !! Z.to_nat (Z.of_nat (length l) + i) = Some x ∧ getitem l i = Ok x.
Proof.
  intros Hi. unfold getitem, normalize_index.
  rewrite bool_decide_eq_false_2 by lia.
  rewrite bool_decide_eq_true_2 by lia. simpl.
  destruct (lookup_lt_is_Some_2 l (Z.to_nat (Z.of_nat (length l) + i))) as [x Hx];
    [lia|].
  exists x. rewrite Hx. split; reflexivity.
Qed.

Lemma getitem_out_of_range {A} (l : list A) (i : Z) :
  i < - Z.of_nat (length l) ∨ Z.of_nat (length l) ≤ i →
  getitem l i = Err IndexError.
Proof.
  intros Hi. unfold getitem, normalize_index.
  do 2 rewrite bool_decide_eq_false_2 by lia. reflexivity.
Qed.

Lemma getitem_Err {A} (l : list A) (i : Z) (e : exn) :
  getitem l i = Err e → e = IndexError.
Proof.
  unfold getitem, normalize_index.
  repeat case_bool_decide; simpl;
    try (destruct (l !! _)); intros Heq; inversion Heq; reflexivity.
Qed.

Lemma getitem_Ok_inv {A} (l : list A) (i : Z) (x : A) :
  getitem l i = Ok x →
  (0 ≤ i < Z.of_nat (length l) ∧ l !! Z.to_nat i = Some x) ∨
  (- Z.of_nat (length l) ≤ i < 0 ∧
   l !! Z.to_nat (Z.of_nat (length l) + i) = Some x).
Proof.
  unfold getitem, normalize_index.
  repeat case_bool_decide; simpl; try discriminate;
    destruct (l !! _) eqn:Hl; intros Heq; inversion Heq; subst; auto.
Qed.

(** ** Decoder *)

Section DecoderFacts.
Variable classes : list string.
Context {F : Type}.
Variables raw_boxes raw_scores : list (list (list F)).

Lemma postprocess_loop_rows rows : ∀ bs ss cs,
  postprocess_loop classes raw_boxes raw_scores rows bs ss cs =
    ds ← decode_rows classes raw_boxes raw_scores rows;
    Ok (bs ++ map (fun d => d.1.1) ds, ss ++ map (fun d => d.1.2) ds,
        cs ++ map (fun d => d.2) ds).
Proof.
  induction rows as [|t rows IH]; intros bs ss cs; simpl.
  - rewrite !app_nil_r. reflexivity.
  - destruct (decode_step classes raw_boxes raw_scores t) as [[[b s] c]|e]; simpl; [|reflexivity].
    rewrite IH. destruct (decode_rows classes raw_boxes raw_scores rows) as [ds|e]; simpl; [|reflexivity].
    rewrite <- !app_assoc. reflexivity.
Qed.

Lemma decode_step_Err t e : decode_step classes raw_boxes raw_scores t = Err e → e = IndexError.
Proof.
  unfold decode_step, getitem3, getitem2. intros Heq.
  repeat match type of Heq with
  | context [getitem ?l ?i] =>
      let Hg := fresh "Hg" in
      destruct (getitem l i) eqn:Hg; simpl in Heq;
      [| apply getitem_Err in Hg; inversion Heq; subst; reflexivity]
  end.
  discriminate.
Qed.

Lemma decode_rows_Err rows e : decode_rows classes raw_boxes raw_scores rows = Err e → e = IndexError.
Proof.
  induction rows as [|t rows IH]; simpl; [discriminate|].
  destruct (decode_step classes raw_boxes raw_scores t) as [d|e'] eqn:Hd; simpl.
  - destruct (decode_rows classes raw_boxes raw_scores rows) as [ds|e'']; simpl; [discriminate|].
    intros Heq; inversion Heq; subst. apply IH. reflexivity.
  - intros Heq; inversion Heq; subst. eapply decode_step_Err, Hd.
Qed.

Lemma decode_rows_Ok_Forall2 rows ds :
  decode_rows classes raw_boxes raw_scores rows = Ok ds → Forall2 (fun t d => decode_step classes raw_boxes raw_scores t = Ok d) rows ds.
Proof.
  revert ds. induction rows as [|t rows IH]; intros ds; simpl.
  - intros Heq; inversion Heq. constructor.
  - destruct (decode_step classes raw_boxes raw_scores t) as [d|e] eqn:Hd; simpl; [|discriminate].
    destruct (decode_rows classes raw_boxes raw_scores rows) as [ds'|e]; simpl; [|discriminate].
    intros Heq; inversion Heq; subst. constructor; auto.
Qed.

Lemma Forall2_decode_rows rows ds :
  Forall2 (fun t d => decode_step classes raw_boxes raw_scores t = Ok d) rows ds → decode_rows classes raw_boxes raw_scores rows = Ok ds.
Proof.
  induction 1 as [|t d rows ds Hd _ IH]; simpl; [reflexivity|].
  rewrite Hd. simpl. rewrite IH. reflexivity.
Qed.

Lemma detections_map (ds : list (list F * F * string)) :
  detections (map (fun d => d.1.1) ds) (map (fun d => d.1.2) ds)
             (map (fun d => d.2) ds)
  = map (fun d => mkDetection d.2 d.1.2 d.1.1) ds.
Proof. induction ds as [|d ds IH]; simpl; [|rewrite IH]; reflexivity. Qed.

(** A triple the specification can gather is decoded to that Detection. *)
Lemma decode_step_gathered t d :
  gathered classes raw_boxes raw_scores t = Some d →
  decode_step classes raw_boxes raw_scores t = Ok (box d, score d, classLabel d).
Proof.
  destruct t as [[b c] k]. unfold gathered, at_index, decode_step, getitem3, getitem2.
  simpl. intros Hg.
  repeat match type of Hg with
  | context [bool_decide ?P] => destruct (bool_decide_reflect P); simpl in Hg; [|discriminate]
  | context [?l !! ?i] =>
      let Hl := fresh "Hl" in
      destruct (l !! i) eqn:Hl; simpl in Hg; [|discriminate];
      apply getitem_nonneg in Hl; [|assumption]
  end.
  inversion Hg; subst; simpl.
  repeat match goal with
  | Hl : getitem _ _ = Ok _ |- _ => rewrite Hl; clear Hl; simpl
  end.
  reflexivity.
Qed.

Lemma postprocess_cons rows rest :
  postprocess classes raw_boxes raw_scores (rows :: rest) =
    ds ← decode_rows classes raw_boxes raw_scores rows;
    Ok (map (fun d => d.1.1) ds, map (fun d => d.1.2) ds, map (fun d => d.2) ds).
Proof.
  unfold postprocess, getitem. simpl. rewrite postprocess_loop_rows. reflexivity.
Qed.
End DecoderFacts.

Lemma at_index_Some {A} (l : list A) (i : Z) (x : A) :
  at_index l i = Some x ↔ 0 ≤ i ∧ l !! Z.to_nat i = Some x.
Proof.
  unfold at_index. case_bool_decide; split; intros; try tauto; try discriminate.
Qed.

Lemma gathered_Some {F} classes (raw_boxes raw_scores : list (list (list F)))
    (b c k : Z) (d : Detection F) :
  gathered classes raw_boxes raw_scores (b, c, k) = Some d ↔
  0 ≤ b ∧ 0 ≤ c ∧ 0 ≤ k ∧
  classes !! Z.to_nat c = Some (classLabel d) ∧
  (∃ plane row, raw_scores !! Z.to_nat b = Some plane ∧
                plane !! Z.to_nat c = Some row ∧
                row !! Z.to_nat k = Some (score d)) ∧
  (∃ brow, raw_boxes !! Z.to_nat b = Some brow ∧
           brow !! Z.to_nat k = Some (box d)).
Proof.
  unfold gathered. simpl. split.
  - intros Hg.
    destruct (at_index classes c) as [label|] eqn:H1; simpl in Hg; [|discriminate].
    destruct (at_index raw_scores b) as [plane|] eqn:H2; simpl in Hg; [|discriminate].
    destruct (at_index plane c) as [row|] eqn:H3; simpl in Hg; [|discriminate].
    destruct (at_index row k) as [s|] eqn:H4; simpl in Hg; [|discriminate].
    destruct (at_index raw_boxes b) as [brow|] eqn:H5; simpl in Hg; [|discriminate].
    destruct (at_index brow k) as [bx|] eqn:H6; simpl in Hg; [|discriminate].
    inversion Hg; subst; simpl.
    apply at_index_Some in H1, H2, H3, H4, H5, H6.
    intuition eauto.
  - intros (Hb & Hc & Hk & H1 & (plane & row & H2 & H3 & H4) & (brow & H5 & H6)).
    rewrite (proj2 (at_index_Some classes c _) (conj Hc H1)). simpl.
    rewrite (proj2 (at_index_Some raw_scores b _) (conj Hb H2)). simpl.
    rewrite (proj2 (at_index_Some plane c _) (conj Hc H3)). simpl.
    rewrite (proj2 (at_index_Some row k _) (conj Hk H4)). simpl.
    rewrite (proj2 (at_index_Some raw_boxes b _) (conj Hb H5)). simpl.
    rewrite (proj2 (at_index_Some brow k _) (conj Hk H6)). simpl.
    destruct d; reflexivity.
Qed.

Lemma Forall_gathered_Forall2 {F} classes (raw_boxes raw_scores : list (list (list F)))
    (rows : list triple) :
  Forall (fun t => is_Some (gathered classes raw_boxes raw_scores t)) rows →
  ∃ gs, Forall2 (fun t d => gathered classes raw_boxes raw_scores t = Some d) rows gs.
Proof.
  induction 1 as [|t rows [d Hd] _ [gs IH]].
  - exists []. constructor.
  - exists (d :: gs). constructor; assumption.
Qed.

Lemma postprocess_valid {F} classes (raw_boxes raw_scores : list (list (list F)))
    (rows : list triple) (rest : list (list triple)) (gs : list (Detection F)) :
  Forall2 (fun t d => gathered classes raw_boxes raw_scores t = Some d) rows gs →
  postprocess classes raw_boxes raw_scores (rows :: rest) =
    Ok (map box gs, map score gs, map classLabel gs).
Proof.
  intros Hgs. rewrite postprocess_cons.
  rewrite (Forall2_decode_rows classes raw_boxes raw_scores rows
             (map (fun d => (box d, score d, classLabel d)) gs)).
  - simpl. rewrite !map_map. reflexivity.
  - apply Forall2_fmap_r. eapply Forall2_impl; [exact Hgs|].
    intros t d Hd. simpl. apply decode_step_gathered, Hd.
Qed.

Lemma detections_fields {F} (gs : list (Detection F)) :
  detections (map box gs) (map score gs) (map classLabel gs) = gs.
Proof.
  induction gs as [|[c s b] gs IH]; simpl; [|rewrite IH]; reflexivity.
Qed.

Lemma decode_valid {F} classes (raw_boxes raw_scores : list (list (list F)))
    (rows : list triple) (rest : list (list triple)) (gs : list (Detection F)) :
  Forall2 (fun t d => gathered classes raw_boxes raw_scores t = Some d) rows gs →
  decode classes raw_boxes raw_scores (rows :: rest) = Ok gs.
Proof.
  intros Hgs. unfold decode. rewrite (postprocess_valid _ _ _ _ _ _ Hgs). simpl.
  rewrite detections_fields. reflexivity.
Qed.

(** C1 — Decoder gather correctness.  When every selected triple lies inside
    the label table and the two tensors, the decoder succeeds and the
    Detection at the position of a triple [(batchIdx, classIdx, candidateIdx)]
    has the label [classes[classIdx]], the score
    [raw_scores[batchIdx, classIdx, candidateIdx]] and the box
    [raw_boxes[batchIdx, candidateIdx]].  In particular a single triple
    [(0, 3, 5)] with [classes[3] = "cat"], score [s] and box [bx] at those
    places decodes to exactly [[Detection "cat" s bx]]. *)
Theorem decode_gathers {F} (classes : list string)
    (raw_boxes raw_scores : list (list (list F))) (rest : list (list triple)) :
  (∀ rows : list triple,
     Forall (fun t => is_Some (gathered classes raw_boxes raw_scores t)) rows →
     ∃ ds, decode classes raw_boxes raw_scores (rows :: rest) = Ok ds ∧
       ∀ (i : nat) (batchIdx classIdx candidateIdx : Z),
         rows !! i = Some (batchIdx, classIdx, candidateIdx) →
         ∃ d plane row brow,
           ds !! i = Some d ∧
           classes !! Z.to_nat classIdx = Some (classLabel d) ∧
           raw_scores !! Z.to_nat batchIdx = Some plane ∧
           plane !! Z.to_nat classIdx = Some row ∧
           row !! Z.to_nat candidateIdx = Some (score d) ∧
           raw_boxes !! Z.to_nat batchIdx = Some brow ∧
           brow !! Z.to_nat candidateIdx = Some (box d)) ∧
  (∀ (s : F) (bx : list F),
     gathered classes raw_boxes raw_scores (0, 3, 5) = Some (mkDetection "cat" s bx) →
     decode classes raw_boxes raw_scores ([(0, 3, 5)] :: rest)
       = Ok [mkDetection "cat" s bx]).
Proof.
  split.
  - intros rows Hvalid.
    destruct (Forall_gathered_Forall2 _ _ _ _ Hvalid) as [gs Hgs].
    exists gs. split; [apply decode_valid, Hgs|].
    intros i b c k Hi.
    destruct (Forall2_lookup_l _ _ _ _ _ Hgs Hi) as (d & Hd & Hg).
    apply gathered_Some in Hg.
    destruct Hg as (_ & _ & _ & Hc & (plane & row & H2 & H3 & H4) & (brow & H5 & H6)).
    exists d, plane, row, brow. auto 10.
  - intros s bx Hg. apply decode_valid. repeat constructor. exact Hg.
Qed.

Lemma decode_gathers_witness :
  Forall (fun t => is_Some (gathered sample_classes sample_boxes sample_scores t))
         [(0, 3, 5)] ∧
  gathered sample_classes sample_boxes sample_scores (0, 3, 5)
    = Some (mkDetection "cat" f32_0_87 sample_box) ∧
  (∃ ds, decode sample_classes sample_boxes sample_scores [[(0, 3, 5)]] = Ok ds ∧
     ∀ (i : nat) (batchIdx classIdx candidateIdx : Z),
       [(0, 3, 5)] !! i = Some (batchIdx, classIdx, candidateIdx) →
       ∃ d plane row brow,
         ds !! i = Some d ∧
         sample_classes !! Z.to_nat classIdx = Some (classLabel d) ∧
         sample_scores !! Z.to_nat batchIdx = Some plane ∧
         plane !! Z.to_nat classIdx = Some row ∧
         row !! Z.to_nat candidateIdx = Some (score d) ∧
         sample_boxes !! Z.to_nat batchIdx = Some brow ∧
         brow !! Z.to_nat candidateIdx = Some (box d)) ∧
  decode sample_classes sample_boxes sample_scores [[(0, 3, 5)]]
    = Ok [mkDetection "cat" f32_0_87 sample_box].
Proof.
  assert (Hg : gathered sample_classes sample_boxes sample_scores (0, 3, 5)
               = Some (mkDetection "cat" f32_0_87 sample_box)) by reflexivity.
  assert (Hv : Forall (fun t => is_Some (gathered sample_classes sample_boxes
                                           sample_scores t)) [(0, 3, 5)]).
  { repeat constructor. rewrite Hg. eexists. reflexivity. }
  pose proof (decode_gathers sample_classes sample_boxes sample_scores []) as [H1 H2].
  split; [exact Hv|]. split; [exact Hg|]. split.
  - exact (H1 [(0, 3, 5)] Hv).
  - exact (H2 f32_0_87 sample_box Hg).
Defined.

(** C2 — Decoder length and order preservation.  On a valid input the three
    lists returned by [postprocess] have the length of the selected-indices
    slice, and the Detections they hold stand in one-to-one, order-preserving
    correspondence with the triples: the i-th Detection is the one gathered
    for the i-th triple, nothing dropped, repeated or moved. *)
Theorem decode_length_order {F} (classes : list string)
    (raw_boxes raw_scores : list (list (list F)))
    (rows : list triple) (rest : list (list triple)) :
  Forall (fun t => is_Some (gathered classes raw_boxes raw_scores t)) rows →
  ∃ boxes scores detected_classes,
    postprocess classes raw_boxes raw_scores (rows :: rest)
      = Ok (boxes, scores, detected_classes) ∧
    length boxes = length rows ∧
    length scores = length rows ∧
    length detected_classes = length rows ∧
    decode classes raw_boxes raw_scores (rows :: rest)
      = Ok (detections boxes scores detected_classes) ∧
    length (detections boxes scores detected_classes) = length rows ∧
    Forall2 (fun t d => gathered classes raw_boxes raw_scores t = Some d)
            rows (detections boxes scores detected_classes).
Proof.
  intros Hvalid.
  destruct (Forall_gathered_Forall2 _ _ _ _ Hvalid) as [gs Hgs].
  pose proof (Forall2_length _ _ _ Hgs) as Hlen.
  exists (map box gs), (map score gs), (map classLabel gs).
  rewrite !length_map, detections_fields.
  split; [apply postprocess_valid, Hgs|].
  repeat split; auto.
  apply decode_valid, Hgs.
Qed.

Lemma decode_length_order_witness :
  let rows := [(0, 3, 5); (0, 0, 1); (0, 3, 5)] in
  Forall (fun t => is_Some (gathered sample_classes sample_boxes sample_scores t)) rows ∧
  ∃ boxes scores detected_classes,
    postprocess sample_classes sample_boxes sample_scores [rows]
      = Ok (boxes, scores, detected_classes) ∧
    length boxes = length rows ∧
    length scores = length rows ∧
    length detected_classes = length rows ∧
    decode sample_classes sample_boxes sample_scores [rows]
      = Ok (detections boxes scores detected_classes) ∧
    length (detections boxes scores detected_classes) = length rows ∧
    Forall2 (fun t d => gathered sample_classes sample_boxes sample_scores t = Some d)
            rows (detections boxes scores detected_classes).
Proof.
  intros rows.
  assert (Hv : Forall (fun t => is_Some (gathered sample_classes sample_boxes
                                           sample_scores t)) rows).
  { repeat constructor; eexists; reflexivity. }
  split; [exact Hv|].
  exact (decode_length_order sample_classes sample_boxes sample_scores rows [] Hv).
Defined.

Lemma getitem_py_at {A} (l : list A) (i : Z) :
  getitem l i = match py_at l i with
                | Some x => Ok x
                | None => Err IndexError
                end.
Proof.
  unfold getitem, normalize_index, py_at, wrap_index.
  repeat case_bool_decide; try lia; simpl; try reflexivity;
    destruct (l !! _); reflexivity.
Qed.

Lemma decode_step_py_gathered {F} classes (raw_boxes raw_scores : list (list (list F)))
    (t : triple) :
  decode_step classes raw_boxes raw_scores t =
    match py_gathered classes raw_boxes raw_scores t with
    | Some d => Ok (box d, score d, classLabel d)
    | None => Err IndexError
    end.
Proof.
  unfold decode_step, getitem3, getitem2, py_gathered. simpl.
  rewrite (getitem_py_at classes).
  destruct (py_at classes t.1.2) as [label|]; simpl; [|reflexivity].
  rewrite (getitem_py_at raw_scores).
  destruct (py_at raw_scores t.1.1) as [plane|]; simpl; [|reflexivity].
  rewrite (getitem_py_at plane).
  destruct (py_at plane t.1.2) as [row|]; simpl; [|reflexivity].
  rewrite (getitem_py_at row).
  destruct (py_at row t.2) as [s|]; simpl; [|reflexivity].
  rewrite (getitem_py_at raw_boxes).
  destruct (py_at raw_boxes t.1.1) as [brow|]; simpl; [|reflexivity].
  rewrite (getitem_py_at brow).
  destruct (py_at brow t.2) as [bx|]; simpl; reflexivity.
Qed.

Lemma py_at_Some {A} (l : list A) (i : Z) (x : A) :
  py_at l i = Some x ↔
  - Z.of_nat (length l) ≤ i < Z.of_nat (length l) ∧
  l !! Z.to_nat (wrap_index (length l) i) = Some x.
Proof.
  unfold py_at. case_bool_decide; split; intros; try tauto; try discriminate.
Qed.

Lemma decode_py_valid {F} classes (raw_boxes raw_scores : list (list (list F)))
    (rows : list triple) (rest : list (list triple)) (gs : list (Detection F)) :
  Forall2 (fun t d => py_gathered classes raw_boxes raw_scores t = Some d) rows gs →
  decode classes raw_boxes raw_scores (rows :: rest) = Ok gs.
Proof.
  intros Hgs. unfold decode. rewrite postprocess_cons.
  rewrite (Forall2_decode_rows classes raw_boxes raw_scores rows
             (map (fun d => (box d, score d, classLabel d)) gs)).
  - simpl. rewrite !map_map. simpl. rewrite detections_fields. reflexivity.
  - apply Forall2_fmap_r. eapply Forall2_impl; [exact Hgs|].
    intros t d Hd. simpl. rewrite decode_step_py_gathered, Hd. reflexivity.
Qed.

(** C3, as amended — a class index beyond the label table on either side
    ([classIdx ≥ len(classes)] or [classIdx < -len(classes)]) makes the
    decoder fail with [IndexError], whatever the other triples are, and an
    error carries no lists: nothing decoded before the bad triple is
    returned. *)
Theorem class_index_out_of_range {F} (classes : list string)
    (raw_boxes raw_scores : list (list (list F)))
    (rows : list triple) (rest : list (list triple)) (t : triple) :
  t ∈ rows →
  t.1.2 < - Z.of_nat (length classes) ∨ Z.of_nat (length classes) ≤ t.1.2 →
  postprocess classes raw_boxes raw_scores (rows :: rest) = Err IndexError ∧
  decode classes raw_boxes raw_scores (rows :: rest) = Err IndexError.
Proof.
  intros Hin Hbad.
  assert (Hp : postprocess classes raw_boxes raw_scores (rows :: rest) = Err IndexError).
  { rewrite postprocess_cons.
    destruct (decode_rows classes raw_boxes raw_scores rows) as [ds|e] eqn:Hrows; simpl.
    - exfalso. apply decode_rows_Ok_Forall2 in Hrows.
      apply list_elem_of_lookup in Hin as [i Hi].
      destruct (Forall2_lookup_l _ _ _ _ _ Hrows Hi) as (d & _ & Hd).
      unfold decode_step in Hd.
      rewrite (getitem_out_of_range classes t.1.2 Hbad) in Hd. discriminate.
    - f_equal. eapply decode_rows_Err, Hrows. }
  split; [exact Hp|]. unfold decode. rewrite Hp. reflexivity.
Qed.

Lemma class_index_out_of_range_witness :
  (0, 999, 0) ∈ [(0, 0, 0); (0, 999, 0)] ∧
  (999 < - Z.of_nat (length labels80) ∨ Z.of_nat (length labels80) ≤ 999) ∧
  postprocess labels80 boxes80 scores80 [[(0, 0, 0); (0, 999, 0)]] = Err IndexError ∧
  decode labels80 boxes80 scores80 [[(0, 0, 0); (0, 999, 0)]] = Err IndexError.
Proof.
  assert (Hin : (0, 999, 0) ∈ [(0, 0, 0); (0, 999, 0)]) by (right; left).
  assert (Hbad : 999 < - Z.of_nat (length labels80) ∨ Z.of_nat (length labels80) ≤ 999)
    by (right; vm_compute; discriminate).
  split; [exact Hin|]. split; [exact Hbad|].
  exact (class_index_out_of_range labels80 boxes80 scores80
           [(0, 0, 0); (0, 999, 0)] [] (0, 999, 0) Hin Hbad).
Defined.

(** C3, as stated, fails: the class index [-1] lies outside
    [[0, len(classes))] for the 80-entry table, and the decoder returns the
    last label instead of failing. *)
Lemma class_index_minus_one_decodes :
  ¬ (0 ≤ -1 < Z.of_nat (length labels80)) ∧
  postprocess labels80 boxes80 scores80 [[(0, 0, 0); (0, -1, 5)]]
    = Ok ([sample_box; sample_box], [f32_0_87; f32_0_87], ["0"; "79"]).
Proof. split; [lia | vm_compute; reflexivity]. Qed.

(** C9 — Negative indices do not fail.  When every index of every triple is
    within Python's range for its axis ([-n ≤ i < n]), the decoder succeeds;
    a negative class index [c] selects [classes[len(classes) + c]], and the
    batch and candidate indices into [raw_scores] and [raw_boxes] wrap around
    the same way. *)
Theorem negative_index_wraps {F} (classes : list string)
    (raw_boxes raw_scores : list (list (list F)))
    (rows : list triple) (rest : list (list triple)) :
  Forall (fun t => is_Some (py_gathered classes raw_boxes raw_scores t)) rows →
  ∃ ds, decode classes raw_boxes raw_scores (rows :: rest) = Ok ds ∧
    length ds = length rows ∧
    ∀ (i : nat) (b c k : Z),
      rows !! i = Some (b, c, k) →
      ∃ d plane row brow,
        ds !! i = Some d ∧
        (c < 0 →
         classes !! Z.to_nat (Z.of_nat (length classes) + c) = Some (classLabel d)) ∧
        classes !! Z.to_nat (wrap_index (length classes) c) = Some (classLabel d) ∧
        raw_scores !! Z.to_nat (wrap_index (length raw_scores) b) = Some plane ∧
        plane !! Z.to_nat (wrap_index (length plane) c) = Some row ∧
        row !! Z.to_nat (wrap_index (length row) k) = Some (score d) ∧
        raw_boxes !! Z.to_nat (wrap_index (length raw_boxes) b) = Some brow ∧
        brow !! Z.to_nat (wrap_index (length brow) k) = Some (box d).
Proof.
  intros Hvalid.
  assert (∃ gs, Forall2 (fun t d => py_gathered classes raw_boxes raw_scores t = Some d)
                        rows gs) as [gs Hgs].
  { induction Hvalid as [|t rows [d Hd] _ [gs IH]].
    - exists []. constructor.
    - exists (d :: gs). constructor; assumption. }
  exists gs. split; [apply decode_py_valid, Hgs|].
  split; [symmetry; eapply Forall2_length, Hgs|].
  intros i b c k Hi.
  destruct (Forall2_lookup_l _ _ _ _ _ Hgs Hi) as (d & Hd & Hg).
  unfold py_gathered in Hg. simpl in Hg.
  destruct (py_at classes c) as [label|] eqn:H1; simpl in Hg; [|discriminate].
  destruct (py_at raw_scores b) as [plane|] eqn:H2; simpl in Hg; [|discriminate].
  destruct (py_at plane c) as [row|] eqn:H3; simpl in Hg; [|discriminate].
  destruct (py_at row k) as [s|] eqn:H4; simpl in Hg; [|discriminate].
  destruct (py_at raw_boxes b) as [brow|] eqn:H5; simpl in Hg; [|discriminate].
  destruct (py_at brow k) as [bx|] eqn:H6; simpl in Hg; [|discriminate].
  inversion Hg; subst; simpl.
  apply py_at_Some in H1, H2, H3, H4, H5, H6.
  exists (mkDetection label s bx), plane, row, brow. simpl.
  repeat split; try tauto.
  intros Hneg. destruct H1 as [_ H1]. unfold wrap_index in H1.
  rewrite bool_decide_eq_true_2 in H1 by exact Hneg. exact H1.
Qed.

Lemma negative_index_wraps_witness :
  let rows := [(0, -1, 5); (-1, 3, -6)] in
  Forall (fun t => is_Some (py_gathered labels80 boxes80 scores80 t)) rows ∧
  decode labels80 boxes80 scores80 [rows]
    = Ok [mkDetection "79" f32_0_87 sample_box; mkDetection "3" f32_0_87 sample_box] ∧
  ∃ ds, decode labels80 boxes80 scores80 [rows] = Ok ds ∧
    length ds = length rows ∧
    ∀ (i : nat) (b c k : Z),
      rows !! i = Some (b, c, k) →
      ∃ d plane row brow,
        ds !! i = Some d ∧
        (c < 0 →
         labels80 !! Z.to_nat (Z.of_nat (length labels80) + c) = Some (classLabel d)) ∧
        labels80 !! Z.to_nat (wrap_index (length labels80) c) = Some (classLabel d) ∧
        scores80 !! Z.to_nat (wrap_index (length scores80) b) = Some plane ∧
        plane !! Z.to_nat (wrap_index (length plane) c) = Some row ∧
        row !! Z.to_nat (wrap_index (length row) k) = Some (score d) ∧
        boxes80 !! Z.to_nat (wrap_index (length boxes80) b) = Some brow ∧
        brow !! Z.to_nat (wrap_index (length brow) k) = Some (box d).
Proof.
  intros rows.
  assert (Hv : Forall (fun t => is_Some (py_gathered labels80 boxes80 scores80 t)) rows).
  { repeat constructor; eexists; vm_compute; reflexivity. }
  split; [exact Hv|]. split; [vm_compute; reflexivity|].
  exact (negative_index_wraps labels80 boxes80 scores80 rows [] Hv).
Defined.

(** C10 — Only the first slice of the selected-indices tensor is decoded.
    [postprocess] reads [raw_class_indices[0]] and nothing else: the slices
    after the first do not change the result, and the lists returned have the
    length of the first slice alone. *)
Theorem only_first_slice_decoded {F} (classes : list string)
    (raw_boxes raw_scores : list (list (list F)))
    (raw_class_indices : list (list triple)) :
  postprocess classes raw_boxes raw_scores raw_class_indices
    = postprocess classes raw_boxes raw_scores (take 1 raw_class_indices) ∧
  match raw_class_indices,
        postprocess classes raw_boxes raw_scores raw_class_indices with
  | rows :: _, Ok (boxes, scores, detected_classes) =>
      length boxes = length rows ∧ length scores = length rows ∧
      length detected_classes = length rows
  | rows :: _, Err e => e = IndexError
  | [], r => r = Err IndexError
  end.
Proof.
  destruct raw_class_indices as [|rows rest]; [split; reflexivity|].
  split.
  - simpl. rewrite !postprocess_cons. reflexivity.
  - rewrite postprocess_cons.
    destruct (decode_rows classes raw_boxes raw_scores rows) as [ds|e] eqn:Hrows; simpl.
    + apply decode_rows_Ok_Forall2, Forall2_length in Hrows.
      rewrite !length_map. auto.
    + eapply decode_rows_Err, Hrows.
Qed.

(** ** Floating point: finiteness *)

Lemma digits2_pos_size (p : positive) : digits2_pos p = Pos.size p.
Proof. induction p as [p IH|p IH|]; simpl; [rewrite IH..|]; reflexivity. Qed.

Lemma Zdigits2_log2 (m : Z) : 0 < m → Zdigits2 m = Z.log2 m + 1.
Proof.
  destruct m as [|p|p]; try lia. intros _. simpl. rewrite digits2_pos_size.
  destruct p; simpl; lia.
Qed.

Lemma Zdigits2_nonneg (m : Z) : 0 ≤ Zdigits2 m.
Proof. destruct m; simpl; lia. Qed.

Lemma Zdigits2_le (a b : Z) : 0 ≤ a ≤ b → Zdigits2 a ≤ Zdigits2 b.
Proof.
  intros [Ha Hab].
  destruct (decide (a = 0)) as [->|Hne]; [apply Zdigits2_nonneg|].
  rewrite !Zdigits2_log2 by lia.
  pose proof (Z.log2_le_mono a b Hab). lia.
Qed.

Lemma Zdigits2_succ (m : Z) : 0 ≤ m → Zdigits2 (m + 1) ≤ Zdigits2 m + 1.
Proof.
  intros Hm. destruct (decide (m = 0)) as [->|Hne]; [simpl; lia|].
  rewrite !Zdigits2_log2 by lia.
  pose proof (Z.log2_succ_le m). unfold Z.succ in *. lia.
Qed.

Lemma Zdigits2_shiftl (m s : Z) : 0 < m → 0 ≤ s → Zdigits2 (Z.shiftl m s) = Zdigits2 m + s.
Proof.
  intros Hm Hs.
  assert (0 < Z.shiftl m s) by (rewrite Z.shiftl_mul_pow2 by lia; nia).
  rewrite !Zdigits2_log2 by lia. rewrite Z.log2_shiftl by lia. lia.
Qed.

Lemma Zdigits2_lt_pow2 (m k : Z) : 0 ≤ k → 0 ≤ m < 2 ^ k → Zdigits2 m ≤ k.
Proof.
  intros Hk [Hm Hlt]. destruct (decide (m = 0)) as [->|Hne]; [simpl; lia|].
  rewrite Zdigits2_log2 by lia.
  pose proof (proj1 (Z.log2_lt_pow2 m k ltac:(lia)) Hlt). lia.
Qed.

Lemma shr_1_digits (mrs : shr_record) :
  0 ≤ shr_m mrs →
  0 ≤ shr_m (shr_1 mrs) ∧
  Zdigits2 (shr_m (shr_1 mrs)) ≤ Z.max 0 (Zdigits2 (shr_m mrs) - 1).
Proof.
  destruct mrs as [m r s]. simpl. intros Hm.
  destruct m as [|[p|p|]|p]; simpl; lia.
Qed.

Lemma iter_pos_shr_1_digits (p : positive) : ∀ mrs : shr_record,
  0 ≤ shr_m mrs →
  0 ≤ shr_m (SpecFloat.iter_pos shr_1 p mrs) ∧
  Zdigits2 (shr_m (SpecFloat.iter_pos shr_1 p mrs)) ≤ Z.max 0 (Zdigits2 (shr_m mrs) - Zpos p).
Proof.
  induction p as [p IH|p IH|]; intros mrs Hm; simpl.
  - destruct (shr_1_digits mrs Hm) as [H0 H1].
    destruct (IH _ H0) as [H2 H3]. destruct (IH _ H2) as [H4 H5].
    split; [assumption|]. lia.
  - destruct (IH _ Hm) as [H2 H3]. destruct (IH _ H2) as [H4 H5].
    split; [assumption|]. lia.
  - apply shr_1_digits, Hm.
Qed.

Lemma shr_fexp_bounds (m e : Z) (l : location) :
  0 ≤ m →
  0 ≤ shr_m (shr_fexp 53 1024 m e l).1 ∧
  Zdigits2 (shr_m (shr_fexp 53 1024 m e l).1) + (shr_fexp 53 1024 m e l).2
    ≤ Z.max (Zdigits2 m + e) (fexp 53 1024 (Zdigits2 m + e)) ∧
  (shr_fexp 53 1024 m e l).2 = Z.max e (fexp 53 1024 (Zdigits2 m + e)).
Proof.
  intros Hm. unfold shr_fexp, shr.
  assert (Hrec : 0 ≤ shr_m (shr_record_of_loc m l) ∧
                 shr_m (shr_record_of_loc m l) = m).
  { destruct l as [|[]]; simpl; auto. }
  destruct Hrec as [Hrec0 Hrec].
  destruct (fexp 53 1024 (Zdigits2 m + e) - e) as [|p|p] eqn:Hn; simpl.
  - rewrite Hrec. repeat split; try lia.
  - destruct (iter_pos_shr_1_digits p _ Hrec0) as [H0 H1]. rewrite Hrec in H1.
    repeat split; try lia.
  - rewrite Hrec. repeat split; try lia.
Qed.

Lemma round_nearest_even_bounds (m : Z) (l : location) :
  0 ≤ m →
  0 ≤ round_nearest_even m l ∧
  Zdigits2 (round_nearest_even m l) ≤ Zdigits2 m + 1.
Proof.
  intros Hm. pose proof (Zdigits2_succ m Hm).
  destruct l as [|[]]; simpl; try destruct (Z.even m); split; lia.
Qed.

Lemma binary_round_aux_finite (s : bool) (m e : Z) (l : location) (k : Z) :
  0 ≤ m → Zdigits2 m + e ≤ k → e ≤ 971 → -1074 ≤ k ≤ 1022 →
  finite_below s (k + 1) (binary_round_aux 53 1024 s m e l).
Proof.
  intros Hm Hmag He Hk. unfold binary_round_aux.
  pose proof (shr_fexp_bounds m e l Hm) as (H0 & H1 & H2).
  destruct (shr_fexp 53 1024 m e l) as [mrs' e'] eqn:Hs1. simpl in H0, H1, H2.
  pose proof (round_nearest_even_bounds (shr_m mrs') (loc_of_shr_record mrs') H0)
    as [H3 H4].
  set (m1 := round_nearest_even (shr_m mrs') (loc_of_shr_record mrs')) in *.
  pose proof (shr_fexp_bounds m1 e' loc_Exact H3) as (H5 & H6 & H7).
  destruct (shr_fexp 53 1024 m1 e' loc_Exact) as [mrs'' e''] eqn:Hs2.
  simpl in H5, H6, H7.
  unfold fexp, emin in *.
  destruct (shr_m mrs'') as [|p|p] eqn:Hm2; simpl; try lia; try reflexivity.
  assert (e'' ≤ 971) by lia.
  destruct (Z.leb_spec e'' (1024 - 53)); [|lia].
  simpl. split; [reflexivity|]. simpl in H6. lia.
Qed.

Lemma finite_below_le (s : bool) (k k' : Z) (f : float) :
  k ≤ k' → finite_below s k f → finite_below s k' f.
Proof. intros Hk. destruct f; simpl; try tauto. intros [-> ?]. split; [reflexivity|lia]. Qed.

Lemma Zdigits2_mul (a b : Z) : 0 < a → 0 < b → Zdigits2 (a * b) ≤ Zdigits2 a + Zdigits2 b.
Proof.
  intros Ha Hb. rewrite !Zdigits2_log2 by nia.
  pose proof (Z.log2_mul_above a b ltac:(lia) ltac:(lia)). lia.
Qed.

Lemma SFmul_finite (sx sy : bool) (kx ky : Z) (x y : float) :
  finite_below sx kx x → finite_below sy ky y →
  kx ≤ 480 → ky ≤ 480 →
  finite_below (xorb sx sy) (Z.max (kx + ky) (-1074) + 1) (F64.mul x y).
Proof.
  intros Hx Hy Hkx Hky. unfold F64.mul.
  destruct x as [sx'|sx'| |sx' mx ex], y as [sy'|sy'| |sy' my ey];
    simpl in Hx, Hy; try tauto; destruct_and?; subst; simpl; try reflexivity.
  pose proof (Zdigits2_mul (Zpos mx) (Zpos my) ltac:(lia) ltac:(lia)) as Hd.
  assert (0 < Zdigits2 (Zpos mx)) by (simpl; lia).
  assert (0 < Zdigits2 (Zpos my)) by (simpl; lia).
  apply binary_round_aux_finite; try lia.
  all: change (Zpos (mx * my)) with (Zpos mx * Zpos my).
  all: simpl in *.
  all: lia.
Qed.

Lemma digits2_pos_iter_xO (m d : positive) :
  Zpos (digits2_pos (Pos.iter xO m d)) = Zpos (digits2_pos m) + Zpos d.
Proof.
  induction d as [|d IH] using Pos.peano_ind.
  - simpl. lia.
  - rewrite Pos.iter_succ. simpl. lia.
Qed.

Lemma float_of_int_finite (n : Z) :
  0 ≤ n < 2 ^ 1000 →
  ∃ f, float_of_int n = Ok f ∧ finite_below false (Zdigits2 n + 1) f.
Proof.
  intros [Hn Hlt]. unfold float_of_int, F64.of_Z, binary_normalize.
  destruct n as [|m|m]; [| |lia].
  { eexists. split; reflexivity. }
  pose proof (Zdigits2_lt_pow2 (Zpos m) 1000 ltac:(lia) ltac:(lia)) as Hd.
  assert (Hf : finite_below false (Zdigits2 (Zpos m) + 1)
                 (binary_round F64.prec F64.emax false m 0)).
  { unfold binary_round, shl_align.
    assert (0 < Zdigits2 (Zpos m)) by (simpl; lia).
    destruct (fexp F64.prec F64.emax (Zpos (digits2_pos m) + 0) - 0) as [|d|d] eqn:Hf.
    - apply binary_round_aux_finite; simpl in *; lia.
    - apply binary_round_aux_finite; simpl in *; lia.
    - apply binary_round_aux_finite; try lia.
      all: unfold fexp, emin, F64.prec, F64.emax in *.
      all: simpl Zdigits2 in *; try rewrite digits2_pos_iter_xO.
      all: lia. }
  destruct (binary_round F64.prec F64.emax false m 0) as [s|s| |s m' e'] eqn:Hb;
    simpl in Hf; try tauto; eexists; (split; [reflexivity|]); simpl; auto.
Qed.

Lemma truediv_finite (a b : Z) :
  0 ≤ a < 2 ^ 1000 → 0 < b →
  ∃ q, truediv a b = Ok q ∧ finite_below false (Zdigits2 a + 1) q.
Proof.
  intros [Ha Hlt] Hb. unfold truediv.
  rewrite bool_decide_eq_false_2 by lia.
  destruct b as [|mb|mb]; try lia.
  destruct a as [|ma|ma]; [| |lia].
  { simpl. eexists. split; reflexivity. }
  pose proof (Zdigits2_lt_pow2 (Zpos ma) 1000 ltac:(lia) ltac:(lia)) as Hd.
  assert (0 < Zdigits2 (Zpos ma)) by (simpl; lia).
  assert (Hf : finite_below false (Zdigits2 (Zpos ma) + 1)
                 (SFdiv F64.prec F64.emax (SF_of_int (Zpos ma)) (SF_of_int (Zpos mb)))).
  { unfold SF_of_int, SFdiv, SFdiv_core_binary.
    set (e' := Z.min (fexp F64.prec F64.emax
                       (Zdigits2 (Zpos ma) + 0 - (Zdigits2 (Zpos mb) + 0))) (0 - 0)).
    assert (He' : e' ≤ 0) by (unfold e'; lia).
    set (m' := match 0 - 0 - e' with
               | Zpos _ => Z.shiftl (Zpos ma) (0 - 0 - e')
               | 0 => Zpos ma
               | Zneg _ => 0
               end).
    assert (Hm' : 0 < m' ∧ Zdigits2 m' + e' = Zdigits2 (Zpos ma)).
    { unfold m'. destruct (0 - 0 - e') as [|s|s] eqn:Hs; try lia.
      rewrite Zdigits2_shiftl by lia. split; [|lia].
      rewrite Z.shiftl_mul_pow2 by lia.
      pose proof (Z.pow_pos_nonneg 2 (Zpos s) ltac:(lia) ltac:(lia)). nia. }
    destruct Hm' as [Hm'0 Hm'1].
    pose proof (Z_div_mod m' (Zpos mb) ltac:(lia)) as Hdm.
    destruct (Z.div_eucl m' (Zpos mb)) as [q r]. destruct Hdm as [Hq Hr].
    assert (0 ≤ q ≤ m') by nia.
    pose proof (Zdigits2_le q m' ltac:(lia)).
    apply binary_round_aux_finite; try lia. }
  destruct (SFdiv F64.prec F64.emax (SF_of_int (Zpos ma)) (SF_of_int (Zpos mb)))
    as [s|s| |s m'' e''] eqn:Hq; simpl in Hf; try tauto;
    eexists; (split; [reflexivity|]); simpl; auto.
Qed.

Lemma py_min_finite (s : bool) (k : Z) (a b : float) :
  finite_below s k a → finite_below s k b → finite_below s k (py_min a b).
Proof. intros Ha Hb. unfold py_min. destruct (SFltb b a); assumption. Qed.

Lemma py_int_finite (k : Z) (f : float) :
  finite_below false k f → py_int f = Ok (trunc f) ∧ 0 ≤ trunc f.
Proof.
  destruct f as [s|s| |s m e]; simpl; try tauto.
  - intros _. split; [reflexivity|lia].
  - intros [-> _]. split; [reflexivity|]. simpl.
    destruct e; try lia. apply Z.quot_pos; lia.
Qed.

Lemma trunc_floor_nonneg (k : Z) (f : float) :
  finite_below false k f → trunc f = sf_floor f.
Proof.
  destruct f as [s|s| |s m e]; simpl; try tauto. intros [-> _]. simpl.
  destruct e; try reflexivity. apply Z.quot_div_nonneg; lia.
Qed.


(** ** Letterbox *)

Lemma scaled_size_total (iw ih w h : Z) :
  0 < iw < 2 ^ 31 → 0 < ih < 2 ^ 31 → 0 ≤ w < 2 ^ 31 → 0 ≤ h < 2 ^ 31 →
  ∃ sw sh fw fh,
    truediv w iw = Ok sw ∧ truediv h ih = Ok sh ∧
    float_of_int iw = Ok fw ∧ float_of_int ih = Ok fh ∧
    scaled_size (iw, ih) (w, h)
      = Ok (sf_floor (F64.mul fw (py_min sw sh)),
            sf_floor (F64.mul fh (py_min sw sh))) ∧
    0 ≤ sf_floor (F64.mul fw (py_min sw sh)) ∧
    0 ≤ sf_floor (F64.mul fh (py_min sw sh)).
Proof.
  intros Hiw Hih Hw Hh.
  assert (Hd : ∀ n, 0 ≤ n < 2 ^ 31 → Zdigits2 n + 1 ≤ 32).
  { intros n Hn. pose proof (Zdigits2_lt_pow2 n 31 ltac:(lia) Hn). lia. }
  destruct (truediv_finite w iw) as (sw & Hsw & Fsw); [lia..|].
  destruct (truediv_finite h ih) as (sh & Hsh & Fsh); [lia..|].
  destruct (float_of_int_finite iw) as (fw & Hfw & Ffw); [lia|].
  destruct (float_of_int_finite ih) as (fh & Hfh & Ffh); [lia|].
  apply (finite_below_le _ _ 32) in Fsw, Fsh, Ffw, Ffh; try (apply Hd; lia).
  pose proof (py_min_finite _ _ _ _ Fsw Fsh) as Fscale.
  pose proof (SFmul_finite _ _ _ _ _ _ Ffw Fscale ltac:(lia) ltac:(lia)) as Fnw.
  pose proof (SFmul_finite _ _ _ _ _ _ Ffh Fscale ltac:(lia) ltac:(lia)) as Fnh.
  simpl xorb in Fnw, Fnh.
  destruct (py_int_finite _ _ Fnw) as [Inw Pnw].
  destruct (py_int_finite _ _ Fnh) as [Inh Pnh].
  rewrite (trunc_floor_nonneg _ _ Fnw) in Inw, Pnw.
  rewrite (trunc_floor_nonneg _ _ Fnh) in Inh, Pnh.
  exists sw, sh, fw, fh. repeat split; try assumption.
  unfold scaled_size. rewrite Hsw. simpl. rewrite Hsh. simpl.
  rewrite Hfw. simpl. rewrite Inw. simpl. rewrite Hfh. simpl. rewrite Inh.
  reflexivity.
Qed.

Lemma range_length (n : Z) : length (range n) = Z.to_nat n.
Proof. unfold range. rewrite length_map, length_seq. reflexivity. Qed.

Lemma range_lookup (n : Z) (i : nat) :
  (i < Z.to_nat n)%nat → range n !! i = Some (Z.of_nat i).
Proof.
  intros Hi. unfold range.
  rewrite (list_lookup_fmap Z.of_nat), lookup_seq_lt by exact Hi. reflexivity.
Qed.

Lemma byte_in_unit_interval (b : byte) :
  in_unit_interval (F32.div (float32_of_byte b) (F32.of_Z 255)) = true.
Proof. destruct b; vm_compute; reflexivity. Qed.

(** The value [transform] stores at channel [c], row [y], column [x]. *)
Lemma normalized_pixel (image : Image) (k : nat) (x y : Z) :
  (k < 3)%nat →
  default S754_nan
    (map (fun v => F32.div v (F32.of_Z 255))
         (let '(r, g, b) := im_getpixel image x y in
          [float32_of_byte r; float32_of_byte g; float32_of_byte b]) !! k)
  = F32.div (float32_of_byte (channel (im_getpixel image x y) k)) (F32.of_Z 255).
Proof.
  intros Hk. destruct (im_getpixel image x y) as [[r g] b].
  destruct k as [|[|[|k]]]; try lia; reflexivity.
Qed.

Lemma transposed_plane (image : Image) (k : nat) :
  (k < 3)%nat →
  map (map (fun px : list float => default S754_nan (px !! k)))
      (map (map (map (fun v => F32.div v (F32.of_Z 255)))) (np_array_float32 image))
  = normalized_plane image k.
Proof.
  intros Hk. unfold np_array_float32, normalized_plane. rewrite !map_map.
  apply map_ext. intros y. rewrite !map_map. apply map_ext. intros x.
  apply normalized_pixel, Hk.
Qed.

Lemma range_cons (n : Z) : 0 < n → ∃ tl, range n = 0 :: tl.
Proof.
  intros Hn. unfold range.
  destruct (Z.to_nat n) as [|k] eqn:Hk; [lia|].
  simpl. eexists. reflexivity.
Qed.

Lemma channels_of_array (image : Image) :
  0 < (im_size image).1 → 0 < (im_size image).2 →
  length (hd [] (hd [] (map (map (map (fun v => F32.div v (F32.of_Z 255))))
                            (np_array_float32 image)))) = 3%nat.
Proof.
  intros Hw Hh. unfold np_array_float32.
  destruct (range_cons _ Hw) as [tw ->]. destruct (range_cons _ Hh) as [th ->].
  simpl. destruct (im_getpixel image 0 0) as [[r g] b]. reflexivity.
Qed.

Lemma transform_of_boxed bicubic (image boxed : Image) :
  letterbox_image bicubic image (416, 416) = Ok boxed →
  im_size boxed = (416, 416) →
  transform bicubic image
    = Ok [[normalized_plane boxed 0; normalized_plane boxed 1; normalized_plane boxed 2]].
Proof.
  intros Hbox Hsize. unfold transform. cbn [fst snd]. rewrite Hbox.
  cbn [mbind result_bind]. unfold transpose_2_0_1.
  rewrite channels_of_array by (rewrite Hsize; simpl; lia).
  simpl. rewrite !transposed_plane by lia. reflexivity.
Qed.

Lemma normalized_plane_shape (image : Image) (k : nat) :
  length (normalized_plane image k) = Z.to_nat (im_size image).2 ∧
  Forall (fun r => length r = Z.to_nat (im_size image).1) (normalized_plane image k).
Proof.
  unfold normalized_plane. split.
  - rewrite length_map. apply range_length.
  - apply Forall_forall. intros r Hr. apply list_elem_of_In, in_map_iff in Hr.
    destruct Hr as (y & <- & _). rewrite length_map. apply range_length.
Qed.

Lemma normalized_plane_unit (image : Image) (k : nat) :
  Forall (Forall (fun v => in_unit_interval v = true)) (normalized_plane image k).
Proof.
  unfold normalized_plane.
  apply Forall_forall. intros r Hr. apply list_elem_of_In, in_map_iff in Hr.
  destruct Hr as (y & <- & _).
  apply Forall_forall. intros v Hv. apply list_elem_of_In, in_map_iff in Hv.
  destruct Hv as (x & <- & _). apply byte_in_unit_interval.
Qed.

Lemma normalized_plane_lookup (image : Image) (k x y : nat) :
  (y < Z.to_nat (im_size image).2)%nat → (x < Z.to_nat (im_size image).1)%nat →
  (r ← normalized_plane image k !! y; r !! x)
  = Some (F32.div (float32_of_byte
            (channel (im_getpixel image (Z.of_nat x) (Z.of_nat y)) k)) (F32.of_Z 255)).
Proof.
  intros Hy Hx. unfold normalized_plane.
  rewrite list_lookup_fmap, (range_lookup _ _ Hy). simpl.
  rewrite list_lookup_fmap, (range_lookup _ _ Hx). reflexivity.
Qed.

Lemma resize_result bicubic (image : Image) (nw nh : Z) :
  0 < (im_size image).1 → 0 < (im_size image).2 →
  (nw < 1 ∨ nh < 1 → resize bicubic image (nw, nh) = Err ValueError) ∧
  (1 ≤ nw → 1 ≤ nh →
   ∃ resized, resize bicubic image (nw, nh) = Ok resized ∧
              im_size resized = (nw, nh)).
Proof.
  intros Hw Hh. unfold resize. split.
  - intros Hsmall. rewrite bool_decide_eq_false_2.
    + rewrite bool_decide_eq_true_2 by exact Hsmall. reflexivity.
    + intros Heq. rewrite Heq in Hw, Hh. simpl in Hw, Hh. lia.
  - intros Hnw Hnh. case_bool_decide as Heq.
    + exists image. split; [reflexivity|exact Heq].
    + rewrite bool_decide_eq_false_2 by (simpl; lia).
      eexists. split; reflexivity.
Qed.

(** C4, as amended — Letterbox output.  For an image of width [iw] and
    height [ih], both positive (and below [2 ^ 31], as every Pillow size is),
    [transform] computes [scale = min(416/iw, 416/ih)], [nw = floor(iw*scale)]
    and [nh = floor(ih*scale)] in binary64.  When [nw ≥ 1] and [nh ≥ 1] it
    returns a tensor of shape (1, 3, 416, 416) with every value in [[0, 1]]:
    entry [[0][c][y][x]] is channel [c] of pixel [(x, y)] of the letterboxed
    image, divided by 255, and the letterboxed image is the gray
    (128, 128, 128) canvas with the resized image pasted at
    [((416 - nw) // 2, (416 - nh) // 2)].  When [nw] or [nh] is 0 (an aspect
    ratio of about 416 to 1 or more) Pillow's [resize] raises and [transform] fails
    with [ValueError].  [transform] is a function of the image value and
    returns new values only, so it is deterministic and leaves its argument
    as it was. *)
Theorem transform_letterbox (bicubic : Image → Z * Z → Z → Z → rgb)
    (image : Image) (iw ih : Z) :
  im_size image = (iw, ih) → 0 < iw < 2 ^ 31 → 0 < ih < 2 ^ 31 →
  ∃ sw sh fw fh nw nh,
    truediv 416 iw = Ok sw ∧ truediv 416 ih = Ok sh ∧
    float_of_int iw = Ok fw ∧ float_of_int ih = Ok fh ∧
    nw = sf_floor (F64.mul fw (py_min sw sh)) ∧
    nh = sf_floor (F64.mul fh (py_min sw sh)) ∧
    0 ≤ nw ∧ 0 ≤ nh ∧
    (nw < 1 ∨ nh < 1 → transform bicubic image = Err ValueError) ∧
    (1 ≤ nw → 1 ≤ nh →
     ∃ resized boxed t,
       resize bicubic image (nw, nh) = Ok resized ∧
       im_size resized = (nw, nh) ∧
       boxed = paste (plain (416, 416) gray) resized
                     ((416 - nw) `div` 2, (416 - nh) `div` 2) ∧
       letterbox_image bicubic image (416, 416) = Ok boxed ∧
       transform bicubic image = Ok t ∧
       has_shape4 1 3 416 416 t ∧
       all_in_unit_interval t ∧
       ∀ c y x : nat, (c < 3)%nat → (y < 416)%nat → (x < 416)%nat →
         entry4 t 0 c y x
         = Some (F32.div (float32_of_byte
                   (channel (im_getpixel boxed (Z.of_nat x) (Z.of_nat y)) c))
                   (F32.of_Z 255))).
Proof.
  intros Hsize Hiw Hih.
  destruct (scaled_size_total iw ih 416 416 Hiw Hih ltac:(lia) ltac:(lia))
    as (sw & sh & fw & fh & Hsw & Hsh & Hfw & Hfh & Hss & Hnw & Hnh).
  set (nw := sf_floor (F64.mul fw (py_min sw sh))) in *.
  set (nh := sf_floor (F64.mul fh (py_min sw sh))) in *.
  exists sw, sh, fw, fh, nw, nh.
  destruct (resize_result bicubic image nw nh) as [Hbad Hgood];
    [rewrite Hsize; simpl; lia..|].
  split; [exact Hsw|]. split; [exact Hsh|]. split; [exact Hfw|]. split; [exact Hfh|].
  split; [reflexivity|]. split; [reflexivity|].
  split; [exact Hnw|]. split; [exact Hnh|].
  split.
  - intros Hsmall. unfold transform, letterbox_image. cbn [fst snd].
    rewrite Hsize, Hss. cbn [mbind result_bind]. rewrite (Hbad Hsmall). reflexivity.
  - intros H1w H1h. destruct (Hgood H1w H1h) as (resized & Hres & Hrsize).
    set (boxed := paste (plain (416, 416) gray) resized
                        ((416 - nw) `div` 2, (416 - nh) `div` 2)).
    assert (Hbox : letterbox_image bicubic image (416, 416) = Ok boxed).
    { unfold letterbox_image. rewrite Hsize, Hss. cbn [mbind result_bind].
      rewrite Hres. reflexivity. }
    exists resized, boxed,
      [[normalized_plane boxed 0; normalized_plane boxed 1; normalized_plane boxed 2]].
    assert (Hbsize : im_size boxed = (416, 416)) by reflexivity.
    split; [exact Hres|]. split; [exact Hrsize|]. split; [reflexivity|].
    split; [exact Hbox|].
    split; [apply transform_of_boxed; assumption|].
    split; [|split].
    + split; [reflexivity|].
      constructor; [|constructor].
      split; [reflexivity|].
      constructor; [|constructor; [|constructor; [|constructor]]];
        (split; [apply (proj1 (normalized_plane_shape boxed _))
                |apply (proj2 (normalized_plane_shape boxed _))]).
    + constructor; [|constructor].
      constructor; [|constructor; [|constructor; [|constructor]]];
        apply normalized_plane_unit.
    + intros c y x Hc Hy Hx.
      destruct c as [|[|[|c]]]; try lia; unfold entry4; simpl;
        apply normalized_plane_lookup; rewrite Hbsize; simpl; lia.
Qed.

Lemma transform_letterbox_witness :
  let image := plain (832, 416) red in
  im_size image = (832, 416) ∧ 0 < 832 < 2 ^ 31 ∧ 0 < 416 < 2 ^ 31 ∧
  scaled_size (832, 416) (416, 416) = Ok (416, 208) ∧
  ∃ sw sh fw fh nw nh,
    truediv 416 832 = Ok sw ∧ truediv 416 416 = Ok sh ∧
    float_of_int 832 = Ok fw ∧ float_of_int 416 = Ok fh ∧
    nw = sf_floor (F64.mul fw (py_min sw sh)) ∧
    nh = sf_floor (F64.mul fh (py_min sw sh)) ∧
    0 ≤ nw ∧ 0 ≤ nh ∧
    (nw < 1 ∨ nh < 1 → transform nearest image = Err ValueError) ∧
    (1 ≤ nw → 1 ≤ nh →
     ∃ resized boxed t,
       resize nearest image (nw, nh) = Ok resized ∧
       im_size resized = (nw, nh) ∧
       boxed = paste (plain (416, 416) gray) resized
                     ((416 - nw) `div` 2, (416 - nh) `div` 2) ∧
       letterbox_image nearest image (416, 416) = Ok boxed ∧
       transform nearest image = Ok t ∧
       has_shape4 1 3 416 416 t ∧
       all_in_unit_interval t ∧
       ∀ c y x : nat, (c < 3)%nat → (y < 416)%nat → (x < 416)%nat →
         entry4 t 0 c y x
         = Some (F32.div (float32_of_byte
                   (channel (im_getpixel boxed (Z.of_nat x) (Z.of_nat y)) c))
                   (F32.of_Z 255))).
Proof.
  intros image.
  split; [reflexivity|]. split; [lia|]. split; [lia|].
  split; [vm_compute; reflexivity|].
  exact (transform_letterbox nearest image 832 416 eq_refl
           ltac:(lia) ltac:(lia)).
Defined.

(** C4, as stated, fails: an 832 x 1 image has positive width and height,
    but [nh = int(1 * 0.5) = 0] and [transform] raises [ValueError] instead
    of returning a tensor. *)
Lemma transform_thin_image_fails :
  im_size (plain (832, 1) red) = (832, 1) ∧
  scaled_size (832, 1) (416, 416) = Ok (416, 0) ∧
  transform nearest (plain (832, 1) red) = Err ValueError.
Proof. repeat split; vm_compute; reflexivity. Qed.

(** C5, as amended — Zero-size image.  For an image whose width or height is
    0, [letterbox_image] (and so [transform]) fails with Python's
    [ZeroDivisionError], raised by the division [w/iw] or [h/ih] itself. *)
Theorem letterbox_zero_size (bicubic : Image → Z * Z → Z → Z → rgb)
    (image : Image) (w h : Z) :
  0 ≤ (im_size image).1 < 2 ^ 31 → 0 ≤ (im_size image).2 < 2 ^ 31 →
  0 ≤ w < 2 ^ 31 →
  (im_size image).1 = 0 ∨ (im_size image).2 = 0 →
  letterbox_image bicubic image (w, h) = Err ZeroDivisionError ∧
  (w = 416 → h = 416 → transform bicubic image = Err ZeroDivisionError).
Proof.
  intros Hiw Hih Hw Hzero.
  assert (Hss : scaled_size (im_size image) (w, h) = Err ZeroDivisionError).
  { destruct (im_size image) as [iw ih]. simpl in *. unfold scaled_size.
    destruct (decide (iw = 0)) as [->|Hne]; [reflexivity|].
    destruct Hzero as [?| ->]; [lia|].
    destruct (truediv_finite w iw) as (sw & -> & _); [lia..|]. reflexivity. }
  assert (Hlb : letterbox_image bicubic image (w, h) = Err ZeroDivisionError).
  { unfold letterbox_image. rewrite Hss. reflexivity. }
  split; [exact Hlb|].
  intros -> ->. unfold transform. cbn [fst snd]. rewrite Hlb. reflexivity.
Qed.

Lemma letterbox_zero_size_witness :
  let image := plain (640, 0) red in
  (0 ≤ (im_size image).1 < 2 ^ 31) ∧ (0 ≤ (im_size image).2 < 2 ^ 31) ∧
  (0 ≤ 416 < 2 ^ 31) ∧
  ((im_size image).1 = 0 ∨ (im_size image).2 = 0) ∧
  letterbox_image nearest image (416, 416) = Err ZeroDivisionError ∧
  (416 = 416 → 416 = 416 → transform nearest image = Err ZeroDivisionError).
Proof.
  intros image.
  assert (H1 : 0 ≤ (im_size image).1 < 2 ^ 31) by (simpl; lia).
  assert (H2 : 0 ≤ (im_size image).2 < 2 ^ 31) by (simpl; lia).
  assert (H3 : 0 ≤ 416 < 2 ^ 31) by lia.
  assert (H4 : (im_size image).1 = 0 ∨ (im_size image).2 = 0) by (right; reflexivity).
  split; [exact H1|]. split; [exact H2|]. split; [exact H3|]. split; [exact H4|].
  exact (letterbox_zero_size nearest image 416 416 H1 H2 H3 H4).
Defined.

(** C5, as stated, fails: on a 0 x 5 image the letterbox does divide by
    zero; the error is [ZeroDivisionError], there is no InvalidImage error. *)
Lemma letterbox_zero_width_divides_by_zero :
  letterbox_image nearest (plain (0, 5) red) (416, 416) = Err ZeroDivisionError ∧
  transform nearest (plain (0, 5) red) = Err ZeroDivisionError.
Proof. split; vm_compute; reflexivity. Qed.


(** ** Renderer *)

Lemma binary_round_finite (s : bool) (m : positive) (e k : Z) :
  Zdigits2 (Zpos m) + e ≤ k → -1074 ≤ k ≤ 1022 →
  finite_below s (k + 1) (binary_round F64.prec F64.emax s m e).
Proof.
  intros Hmag Hk. unfold binary_round, shl_align.
  assert (0 < Zdigits2 (Zpos m)) by (simpl; lia).
  destruct (fexp F64.prec F64.emax (Zpos (digits2_pos m) + e) - e) as [|d|d] eqn:Hf;
    apply binary_round_aux_finite; try lia.
  all: unfold fexp, emin, F64.prec, F64.emax in *.
  all: simpl Zdigits2 in *; try rewrite digits2_pos_iter_xO.
  all: lia.
Qed.

Lemma of_float_finite (s : bool) (k : Z) (f : float) :
  finite_below s k f → -1074 ≤ k ≤ 1022 →
  finite_below s (k + 1) (F64.of_float f).
Proof.
  destruct f as [s'|s'| |s' m e]; simpl; try tauto. intros [-> Hmag] Hk.
  destruct s; simpl; apply binary_round_finite; assumption.
Qed.

Lemma py_int_Ok (s : bool) (k : Z) (f : float) :
  finite_below s k f → py_int f = Ok (trunc f).
Proof. destruct f; simpl; tauto || reflexivity. Qed.

(** [trunc] rounds toward zero: for [f = ± m * 2 ^ e], [|trunc f|] is the
    integer part of [m * 2 ^ e] and the sign is that of [f]. *)
Lemma trunc_toward_zero (s : bool) (m : positive) (e : Z) :
  let n := trunc (S754_finite s m e) in
  (e < 0 → Z.abs n * 2 ^ (- e) ≤ Zpos m < (Z.abs n + 1) * 2 ^ (- e)) ∧
  (0 ≤ e → Z.abs n = Zpos m * 2 ^ e) ∧
  (if s then n ≤ 0 else 0 ≤ n).
Proof.
  simpl. destruct e as [|p|p].
  - repeat split; try lia; destruct s; simpl; lia.
  - pose proof (Z.pow_pos_nonneg 2 (Zpos p) ltac:(lia) ltac:(lia)).
    repeat split; try lia; destruct s; simpl; nia.
  - pose proof (Z.pow_pos_nonneg 2 (Zpos p) ltac:(lia) ltac:(lia)) as Hd.
    rewrite Z.quot_div_nonneg by lia.
    pose proof (Z.div_mod (Zpos m) (2 ^ Zpos p) ltac:(lia)) as Hdm.
    pose proof (Z.mod_pos_bound (Zpos m) (2 ^ Zpos p) Hd) as Hr.
    pose proof (Z.div_pos (Zpos m) (2 ^ Zpos p) ltac:(lia) Hd) as Hq.
    change (- Zneg p) with (Zpos p).
    repeat split; try lia; destruct s; simpl; try lia;
      rewrite ?Z.abs_opp, Z.abs_eq by lia; nia.
Qed.

(** C7, as amended — Label text.  For a finite float32 score [s] the display
    string is ["{class_}: {n}%"] with [n = int(100 * s)]: the product,
    computed in binary64, rounded toward zero — not to the nearest integer. *)
Theorem display_string_truncates (class_ : string) (s : float) (sg : bool) :
  finite_below sg 128 s →
  let p := F64.mul (F64.of_Z 100) (F64.of_float s) in
  display_string class_ s = Ok (class_ +:+ ": " +:+ pretty (trunc p) +:+ "%") ∧
  ∀ sp m e, p = S754_finite sp m e →
    (e < 0 → Z.abs (trunc p) * 2 ^ (- e) ≤ Zpos m < (Z.abs (trunc p) + 1) * 2 ^ (- e)) ∧
    (0 ≤ e → Z.abs (trunc p) = Zpos m * 2 ^ e) ∧
    (if sp then trunc p ≤ 0 else 0 ≤ trunc p).
Proof.
  intros Hs p.
  assert (H100 : finite_below false 8 (F64.of_Z 100)) by (vm_compute; split; [reflexivity|discriminate]).
  pose proof (of_float_finite sg 128 s Hs ltac:(lia)) as Hfs.
  pose proof (SFmul_finite _ _ _ _ _ _ H100 Hfs ltac:(lia) ltac:(lia)) as Hp.
  fold p in Hp. split.
  - unfold display_string. fold p. rewrite (py_int_Ok _ _ _ Hp). reflexivity.
  - intros sp m e ->. apply trunc_toward_zero.
Qed.

Lemma display_string_truncates_witness :
  finite_below false 128 f32_0_87 ∧
  display_string "cat" f32_0_87 = Ok "cat: 87%" ∧
  let p := F64.mul (F64.of_Z 100) (F64.of_float f32_0_87) in
  display_string "cat" f32_0_87 = Ok ("cat" +:+ ": " +:+ pretty (trunc p) +:+ "%") ∧
  ∀ sp m e, p = S754_finite sp m e →
    (e < 0 → Z.abs (trunc p) * 2 ^ (- e) ≤ Zpos m < (Z.abs (trunc p) + 1) * 2 ^ (- e)) ∧
    (0 ≤ e → Z.abs (trunc p) = Zpos m * 2 ^ e) ∧
    (if sp then trunc p ≤ 0 else 0 ≤ trunc p).
Proof.
  assert (Hs : finite_below false 128 f32_0_87)
    by (vm_compute; split; [reflexivity|discriminate]).
  split; [exact Hs|]. split; [vm_compute; reflexivity|].
  exact (display_string_truncates "cat" f32_0_87 false Hs).
Defined.

(** C7, as stated, fails: for the score 0.9375 the product is 93.75, the
    nearest integer is 94, and the label reads 93%. *)
Lemma display_string_not_rounded :
  F64.mul (F64.of_Z 100) (F64.of_float f32_0_9375)
    = S754_finite false (375 * 2 ^ 44) (-46) ∧
  py_round (F64.mul (F64.of_Z 100) (F64.of_float f32_0_9375)) = 94 ∧
  display_string "cat" f32_0_9375 = Ok "cat: 93%" ∧
  display_string "cat" f32_0_9375
    ≠ Ok ("cat" +:+ ": "
            +:+ pretty (py_round (F64.mul (F64.of_Z 100) (F64.of_float f32_0_9375)))
            +:+ "%").
Proof. repeat split; try (vm_compute; reflexivity). vm_compute. discriminate. Qed.


Section RendererFacts.
Context {I : Type} `{Surface I}.
Variable getbbox : string → Z * Z * Z * Z.
Variable hash : string → Z.
Variable colors : list Color.

Lemma frame_refl (r : nat) (w : World I) : frame r w w.
Proof. split; [reflexivity|]. intros; reflexivity. Qed.

Lemma frame_trans (r : nat) (w1 w2 w3 : World I) :
  frame r w1 w2 → frame r w2 w3 → frame r w1 w3.
Proof.
  intros [Hf1 Ho1] [Hf2 Ho2]. split; [congruence|].
  intros r' Hr'. rewrite Ho2, Ho1 by exact Hr'. reflexivity.
Qed.

Lemma frame_lift {A} (r : nat) (x : result A) (w : World I) :
  frame r w (lift x w).2.
Proof. apply frame_refl. Qed.

Lemma frame_read {A} (r r0 : nat) (f : I → A) (w : World I) :
  frame r w (read r0 f w).2.
Proof. unfold read. destruct (objects w !! r0); apply frame_refl. Qed.

Lemma frame_modify (r : nat) (f : I → I) (w : World I) :
  frame r w (modify r f w).2.
Proof.
  unfold modify. destruct (objects w !! r); [|apply frame_refl].
  split; [reflexivity|]. intros r' Hr'. simpl. apply lookup_insert_ne. congruence.
Qed.

Lemma frame_bind {A B} (r : nat) (m : M I A) (k : A → M I B) (w : World I) :
  frame r w (m w).2 → (∀ a w', frame r w' (k a w').2) →
  frame r w (M_bind m k w).2.
Proof.
  intros Hm Hk. unfold M_bind. destruct (m w) as [[a|e] w']; simpl in *.
  - eapply frame_trans; [exact Hm|apply Hk].
  - exact Hm.
Qed.

Lemma frame_draw_labels (image : nat) (left : float) (color : option Color)
    (strs : list string) : ∀ (text_bottom : float) (w : World I),
  frame image w (draw_labels getbbox image left color strs text_bottom w).2.
Proof.
  induction strs as [|ds strs IH]; intros text_bottom w; cbn [draw_labels].
  - apply frame_refl.
  - destruct (getbbox ds) as [[[x0 y0] tw] th].
    apply frame_bind; [apply frame_lift|]. intros fh w1.
    apply frame_bind; [apply frame_lift|]. intros fw w2.
    apply frame_bind; [apply frame_modify|]. intros [] w3.
    apply frame_bind; [apply frame_lift|]. intros origin w4.
    apply frame_bind; [apply frame_modify|]. intros [] w5.
    apply IH.
Qed.

Lemma frame_draw_bounding_box (image : nat) (ymin xmin ymax xmax : float)
    (color : option Color) (thickness : Z) (strs : list string) (w : World I) :
  frame image w
    (_draw_bounding_box_on_image getbbox image ymin xmin ymax xmax color
       thickness strs w).2.
Proof.
  unfold _draw_bounding_box_on_image.
  apply frame_bind; [apply frame_read|]. intros [im_width im_height] w1.
  apply frame_bind; [apply frame_lift|]. intros ws w2.
  apply frame_bind; [apply frame_lift|]. intros hs w3.
  apply frame_bind; [apply frame_modify|]. intros [] w4.
  apply frame_bind; [apply frame_lift|]. intros total w5.
  apply frame_draw_labels.
Qed.

Lemma frame_draw_one (image_pil : nat) (boxes : list (list float))
    (scores : list float) (index : Z) (class_ : string)
    (class_colors : gmap string Color) (w : World I) :
  frame image_pil w
    (draw_one getbbox hash colors image_pil boxes scores index class_
       class_colors w).2.
Proof.
  unfold draw_one.
  repeat (apply frame_bind; [apply frame_lift|]; intros ? ?).
  apply frame_bind; [apply frame_draw_bounding_box|]. intros [] wz.
  apply frame_refl.
Qed.

Lemma frame_draw_boxes_loop (image_pil : nat) (boxes : list (list float))
    (scores : list float) (classes : list string) :
  ∀ (index : Z) (class_colors : gmap string Color) (w : World I),
  frame image_pil w
    (draw_boxes_loop getbbox hash colors image_pil boxes scores index classes
       class_colors w).2.
Proof.
  induction classes as [|class_ classes IH]; intros index class_colors w;
    cbn [draw_boxes_loop].
  - apply frame_refl.
  - apply frame_bind; [apply frame_draw_one|]. intros cc w'. apply IH.
Qed.

Lemma Image_open_Some (path : string) (img : I) (w : World I) :
  files w !! path = Some img →
  pixels (surface_size img) ≤ bomb_limit →
  let r := fresh (dom (objects w)) in
  Image_open path w = (Ok r, mkWorld (files w) (<[r := img]> (objects w))) ∧
  objects w !! r = None.
Proof.
  intros Hf Hpx r. unfold Image_open. rewrite Hf.
  rewrite bool_decide_eq_false_2 by lia. split; [reflexivity|].
  apply not_elem_of_dom. apply is_fresh.
Qed.

Lemma Image_open_Ok (path : string) (w w' : World I) (r : nat) :
  Image_open path w = (Ok r, w') →
  ∃ img, files w !! path = Some img ∧
         pixels (surface_size img) ≤ bomb_limit ∧
         objects w !! r = None ∧
         w' = mkWorld (files w) (<[r := img]> (objects w)).
Proof.
  unfold Image_open. destruct (files w !! path) as [img|]; [|discriminate].
  case_bool_decide as Hpx; [discriminate|].
  intros Heq. inversion Heq; subst. exists img.
  split; [reflexivity|]. split; [lia|]. split; [|reflexivity].
  apply not_elem_of_dom. apply is_fresh.
Qed.

(** What the helper does to the object it is given: first the outline, on
    the box scaled by [size / 416], then the labels. *)
Lemma draw_bounding_box_line (w : World I) (image : nat) (img : I)
    (im_width im_height : Z) (ymin xmin ymax xmax : float)
    (color : option Color) (thickness : Z) (display_str_list : list string) :
  objects w !! image = Some img →
  surface_size img = (im_width, im_height) →
  0 ≤ im_width < 2 ^ 31 → 0 ≤ im_height < 2 ^ 31 →
  ∃ width_scaling_factor height_scaling_factor,
    truediv im_width 416 = Ok width_scaling_factor ∧
    truediv im_height 416 = Ok height_scaling_factor ∧
    let left := F64.mul (F64.of_float xmin) width_scaling_factor in
    let right := F64.mul (F64.of_float xmax) width_scaling_factor in
    let top := F64.mul (F64.of_float ymin) height_scaling_factor in
    let bottom := F64.mul (F64.of_float ymax) height_scaling_factor in
    _draw_bounding_box_on_image getbbox image ymin xmin ymax xmax color
      thickness display_str_list w
    = label_stage getbbox image left top color display_str_list
      (mkWorld (files w)
         (<[image := draw_line img
                      [(left, top); (left, bottom); (right, bottom);
                       (right, top); (left, top)] thickness color]>
            (objects w))).
Proof.
  intros Hobj Hsize Hw Hh.
  destruct (truediv_finite im_width 416) as (ws & Hws & _); [lia..|].
  destruct (truediv_finite im_height 416) as (hs & Hhs & _); [lia..|].
  exists ws, hs. split; [exact Hws|]. split; [exact Hhs|].
  unfold _draw_bounding_box_on_image, M_bind at 1, read. rewrite Hobj, Hsize.
  unfold M_bind at 1, lift at 1. rewrite Hws.
  unfold M_bind at 1, lift at 1. rewrite Hhs.
  unfold M_bind at 1, modify. rewrite Hobj. reflexivity.
Qed.
End RendererFacts.

(** C6 — Box rescaling.  On an image of width [W] and height [H] the helper
    draws the outline through [(left, top)], [(left, bottom)],
    [(right, bottom)], [(right, top)], [(left, top)] with
    [left = xmin * (W / 416)], [right = xmax * (W / 416)],
    [top = ymin * (H / 416)] and [bottom = ymax * (H / 416)] (binary64
    products), before any label is drawn.  On an 832 x 832 image the box
    (10, 20, 110, 120) gives left = 40, top = 20, right = 240, bottom = 220. *)
Theorem box_rescaled {I : Type} `{Surface I} (getbbox : string → Z * Z * Z * Z)
    (w : World I) (image : nat) (img : I) (color : option Color)
    (thickness : Z) (display_str_list : list string) :
  objects w !! image = Some img →
  (∀ (im_width im_height : Z) (ymin xmin ymax xmax : float),
     surface_size img = (im_width, im_height) →
     0 ≤ im_width < 2 ^ 31 → 0 ≤ im_height < 2 ^ 31 →
     ∃ width_scaling_factor height_scaling_factor,
       truediv im_width 416 = Ok width_scaling_factor ∧
       truediv im_height 416 = Ok height_scaling_factor ∧
       let left := F64.mul (F64.of_float xmin) width_scaling_factor in
       let right := F64.mul (F64.of_float xmax) width_scaling_factor in
       let top := F64.mul (F64.of_float ymin) height_scaling_factor in
       let bottom := F64.mul (F64.of_float ymax) height_scaling_factor in
       _draw_bounding_box_on_image getbbox image ymin xmin ymax xmax color
         thickness display_str_list w
       = label_stage getbbox image left top color display_str_list
           (mkWorld (files w)
              (<[image := draw_line img
                           [(left, top); (left, bottom); (right, bottom);
                            (right, top); (left, top)] thickness color]>
                 (objects w)))) ∧
  (surface_size img = (832, 832) →
   _draw_bounding_box_on_image getbbox image (F32.of_Z 10) (F32.of_Z 20)
     (F32.of_Z 110) (F32.of_Z 120) color thickness display_str_list w
   = label_stage getbbox image (F64.of_Z 40) (F64.of_Z 20) color display_str_list
       (mkWorld (files w)
          (<[image := draw_line img
                       [(F64.of_Z 40, F64.of_Z 20); (F64.of_Z 40, F64.of_Z 220);
                        (F64.of_Z 240, F64.of_Z 220); (F64.of_Z 240, F64.of_Z 20);
                        (F64.of_Z 40, F64.of_Z 20)] thickness color]>
             (objects w)))).
Proof.
  intros Hobj. split.
  - intros im_width im_height ymin xmin ymax xmax Hsize Hw Hh.
    apply draw_bounding_box_line; assumption.
  - intros Hsize.
    destruct (draw_bounding_box_line getbbox w image img 832 832
                (F32.of_Z 10) (F32.of_Z 20) (F32.of_Z 110) (F32.of_Z 120)
                color thickness display_str_list Hobj Hsize ltac:(lia) ltac:(lia))
      as (ws & hs & Hws & Hhs & Heq).
    assert (Htwo : truediv 832 416 = Ok (F64.of_Z 2)) by (vm_compute; reflexivity).
    assert (Ews : ws = F64.of_Z 2) by congruence.
    assert (Ehs : hs = F64.of_Z 2) by congruence.
    rewrite Ews, Ehs in Heq. clear Hws Hhs Ews Ehs.
    assert (E40 : F64.mul (F64.of_float (F32.of_Z 20)) (F64.of_Z 2) = F64.of_Z 40)
      by (vm_compute; reflexivity).
    assert (E240 : F64.mul (F64.of_float (F32.of_Z 120)) (F64.of_Z 2) = F64.of_Z 240)
      by (vm_compute; reflexivity).
    assert (E20 : F64.mul (F64.of_float (F32.of_Z 10)) (F64.of_Z 2) = F64.of_Z 20)
      by (vm_compute; reflexivity).
    assert (E220 : F64.mul (F64.of_float (F32.of_Z 110)) (F64.of_Z 2) = F64.of_Z 220)
      by (vm_compute; reflexivity).
    cbv zeta in Heq. rewrite E40, E240, E20, E220 in Heq. exact Heq.
Qed.

Lemma box_rescaled_witness :
  objects opened_world !! 0%nat = Some sample_photo ∧
  surface_size sample_photo = (832, 832) ∧
  (_draw_bounding_box_on_image sample_getbbox 0 (F32.of_Z 10) (F32.of_Z 20)
     (F32.of_Z 110) (F32.of_Z 120) (Some "#f0f8ff") 4 [] opened_world).2
    = mkWorld (files sample_world)
        {[0%nat := mkCanvas (plain (832, 832) red)
           [Line [(F64.of_Z 40, F64.of_Z 20); (F64.of_Z 40, F64.of_Z 220);
                  (F64.of_Z 240, F64.of_Z 220); (F64.of_Z 240, F64.of_Z 20);
                  (F64.of_Z 40, F64.of_Z 20)] 4 (Some "#f0f8ff")]]} ∧
  _draw_bounding_box_on_image sample_getbbox 0 (F32.of_Z 10) (F32.of_Z 20)
     (F32.of_Z 110) (F32.of_Z 120) (Some "#f0f8ff") 4 ["cat: 87%"] opened_world
   = label_stage sample_getbbox 0 (F64.of_Z 40) (F64.of_Z 20) (Some "#f0f8ff")
       ["cat: 87%"]
       (mkWorld (files opened_world)
          (<[0%nat := draw_line sample_photo
                       [(F64.of_Z 40, F64.of_Z 20); (F64.of_Z 40, F64.of_Z 220);
                        (F64.of_Z 240, F64.of_Z 220); (F64.of_Z 240, F64.of_Z 20);
                        (F64.of_Z 40, F64.of_Z 20)] 4 (Some "#f0f8ff")]>
             (objects opened_world))).
Proof.
  assert (Hobj : objects opened_world !! 0%nat = Some sample_photo) by reflexivity.
  assert (Hsize : surface_size sample_photo = (832, 832)) by reflexivity.
  split; [exact Hobj|]. split; [exact Hsize|]. split.
  - rewrite (proj2 (box_rescaled sample_getbbox opened_world 0 sample_photo
                      (Some "#f0f8ff") 4 [] Hobj) Hsize).
    vm_compute. reflexivity.
  - exact (proj2 (box_rescaled sample_getbbox opened_world 0 sample_photo
                    (Some "#f0f8ff") 4 ["cat: 87%"] Hobj) Hsize).
Defined.

(** C8 — Empty detections and the source image.  With an empty list of
    classes [draw_boxes] is [Image.open] alone.  Whenever it returns, the
    object it returns is new and holds exactly the content of the file,
    nothing drawn; and it does return for every image file within Pillow's
    pixel limit.  For any detections, no file changes and no image object
    that existed before the call changes: every drawing lands on the object
    made by [Image.open]. *)
Theorem draw_boxes_frame {I : Type} `{Surface I} (getbbox : string → Z * Z * Z * Z)
    (hash : string → Z) (colors : list Color) (image : string)
    (boxes : list (list float)) (scores : list float) (w : World I) :
  draw_boxes getbbox hash colors image boxes scores [] w = Image_open image w ∧
  (∀ r w',
     draw_boxes getbbox hash colors image boxes scores [] w = (Ok r, w') →
     ∃ img, files w !! image = Some img ∧
            objects w !! r = None ∧
            objects w' !! r = Some img ∧
            frame r w w') ∧
  (∀ img, files w !! image = Some img →
     pixels (surface_size img) ≤ bomb_limit →
     ∃ r w', draw_boxes getbbox hash colors image boxes scores [] w = (Ok r, w')) ∧
  (∀ classes : list string,
     let w' := (draw_boxes getbbox hash colors image boxes scores classes w).2 in
     files w' = files w ∧
     ∀ r0 img0, objects w !! r0 = Some img0 → objects w' !! r0 = Some img0).
Proof.
  assert (Hempty : draw_boxes getbbox hash colors image boxes scores [] w
                   = Image_open image w).
  { unfold draw_boxes, M_bind. cbn [draw_boxes_loop]. unfold M_ret.
    destruct (Image_open image w) as [[r|e] w']; reflexivity. }
  split; [exact Hempty|]. split; [|split].
  - intros r w' Hrun. rewrite Hempty in Hrun.
    destruct (Image_open_Ok image w w' r Hrun) as (img & Hfile & _ & Hfresh & ->).
    exists img. split; [exact Hfile|]. split; [exact Hfresh|]. split.
    + simpl. apply lookup_insert_eq.
    + split; [reflexivity|]. intros r' Hr'. simpl. apply lookup_insert_ne. congruence.
  - intros img Hfile Hpx. rewrite Hempty.
    destruct (Image_open_Some image img w Hfile Hpx) as [Hopen _].
    eexists _, _. exact Hopen.
  - intros classes.
    destruct (draw_boxes getbbox hash colors image boxes scores classes w)
      as [res w'] eqn:Hrun.
    cbn [snd]. unfold draw_boxes, M_bind at 1 in Hrun.
    destruct (Image_open image w) as [[r|e] w1] eqn:Hopen.
    + destruct (Image_open_Ok image w w1 r Hopen) as (img & Hfile & _ & Hfresh & ->).
      set (w1 := mkWorld (files w) (<[r := img]> (objects w))) in *.
      pose proof (frame_draw_boxes_loop getbbox hash colors r boxes scores classes
                    0 ∅ w1) as [Hfiles Hobjs].
      unfold M_bind, M_ret in Hrun.
      destruct (draw_boxes_loop getbbox hash colors r boxes scores 0 classes ∅ w1)
        as [[[]|e] w2]; cbn [fst snd] in *; inversion Hrun; subst;
        (split; [exact Hfiles|]); intros r0 img0 Hr0;
        rewrite Hobjs by congruence; simpl;
        rewrite lookup_insert_ne by congruence; exact Hr0.
    + assert (Hw1 : w1 = w).
      { unfold Image_open in Hopen. destruct (files w !! image); [|congruence].
        case_bool_decide; congruence. }
      inversion Hrun; subst. split; [reflexivity|]. auto.
Qed.

Lemma draw_boxes_frame_witness :
  files sample_world !! "sample-images/cat.jpg" = Some sample_photo ∧
  pixels (surface_size sample_photo) ≤ bomb_limit ∧
  draw_boxes sample_getbbox sample_hash sample_colors "sample-images/cat.jpg"
    [] [] [] sample_world
    = (Ok 0%nat, opened_world) ∧
  (∃ img, files sample_world !! "sample-images/cat.jpg" = Some img ∧
          objects sample_world !! 0%nat = None ∧
          objects opened_world !! 0%nat = Some img ∧
          frame 0 sample_world opened_world) ∧
  (∃ r w', draw_boxes sample_getbbox sample_hash sample_colors
             "sample-images/cat.jpg" [] [] [] sample_world = (Ok r, w')) ∧
  (let w' := (draw_boxes sample_getbbox sample_hash sample_colors
                "sample-images/cat.jpg" [sample_box] [f32_0_87] ["cat"]
                opened_world).2 in
   files w' = files opened_world ∧
   ∀ r0 img0, objects opened_world !! r0 = Some img0 → objects w' !! r0 = Some img0).
Proof.
  assert (Hfile : files sample_world !! "sample-images/cat.jpg" = Some sample_photo)
    by reflexivity.
  assert (Hpx : pixels (surface_size sample_photo) ≤ bomb_limit)
    by (vm_compute; discriminate).
  assert (Hrun : draw_boxes sample_getbbox sample_hash sample_colors
                   "sample-images/cat.jpg" [] [] [] sample_world
                 = (Ok 0%nat, opened_world)) by (vm_compute; reflexivity).
  split; [exact Hfile|]. split; [exact Hpx|]. split; [exact Hrun|].
  split; [|split].
  - exact (proj1 (proj2 (draw_boxes_frame sample_getbbox sample_hash sample_colors
                           "sample-images/cat.jpg" [] [] sample_world))
                 0%nat opened_world Hrun).
  - exact (proj1 (proj2 (proj2 (draw_boxes_frame sample_getbbox sample_hash
                                  sample_colors "sample-images/cat.jpg" [] []
                                  sample_world)))
                 sample_photo Hfile Hpx).
  - exact (proj2 (proj2 (proj2 (draw_boxes_frame sample_getbbox sample_hash
                                  sample_colors "sample-images/cat.jpg"
                                  [sample_box] [f32_0_87] opened_world))) ["cat"]).
Defined.


(** * Further properties *)

(** ** Decoder *)

Lemma decode_rows_mapM {F} classes (raw_boxes raw_scores : list (list (list F)))
    (rows : list triple) :
  decode_rows classes raw_boxes raw_scores rows =
    match mapM (py_gathered classes raw_boxes raw_scores) rows with
    | Some ds => Ok (map (fun d => (box d, score d, classLabel d)) ds)
    | None => Err IndexError
    end.
Proof.
  induction rows as [|t rows IH]; [reflexivity|].
  cbn [decode_rows mapM]. rewrite decode_step_py_gathered.
  destruct (py_gathered classes raw_boxes raw_scores t) as [d|]; [|reflexivity].
  cbn. rewrite IH.
  destruct (mapM (py_gathered classes raw_boxes raw_scores) rows); reflexivity.
Qed.

(** X1 — [postprocess] as a whole: it returns exactly when every index of
    every selected triple is within Python's range for its axis, and then its
    three lists are the boxes, scores and labels gathered in order; any index
    out of range on any axis (label table, scores or boxes) makes the call
    raise [IndexError], with nothing returned. *)
Theorem postprocess_exact {F} (classes : list string)
    (raw_boxes raw_scores : list (list (list F)))
    (rows : list triple) (rest : list (list triple)) :
  postprocess classes raw_boxes raw_scores (rows :: rest) =
    match mapM (py_gathered classes raw_boxes raw_scores) rows with
    | Some ds => Ok (map box ds, map score ds, map classLabel ds)
    | None => Err IndexError
    end.
Proof.
  rewrite postprocess_cons, decode_rows_mapM.
  destruct (mapM (py_gathered classes raw_boxes raw_scores) rows) as [ds|];
    [|reflexivity].
  cbn. rewrite !map_map. reflexivity.
Qed.

Lemma decode_rows_app {F} classes (raw_boxes raw_scores : list (list (list F)))
    (rows1 rows2 : list triple) :
  decode_rows classes raw_boxes raw_scores (rows1 ++ rows2) =
    ds1 ← decode_rows classes raw_boxes raw_scores rows1;
    ds2 ← decode_rows classes raw_boxes raw_scores rows2;
    Ok (ds1 ++ ds2).
Proof.
  induction rows1 as [|t rows1 IH]; cbn [app decode_rows].
  - cbn. destruct (decode_rows classes raw_boxes raw_scores rows2); reflexivity.
  - destruct (decode_step classes raw_boxes raw_scores t) as [d|e]; [|reflexivity].
    cbn. rewrite IH.
    destruct (decode_rows classes raw_boxes raw_scores rows1) as [ds1|e]; [|reflexivity].
    cbn. destruct (decode_rows classes raw_boxes raw_scores rows2); reflexivity.
Qed.

(** X2 — Decoding a concatenation.  The result for the triples
    [rows1 ++ rows2] is the result for [rows1] followed, list by list, by the
    result for [rows2]; it fails when either part fails, the first part's
    error first. *)
Theorem postprocess_app {F} (classes : list string)
    (raw_boxes raw_scores : list (list (list F)))
    (rows1 rows2 : list triple) (rest : list (list triple)) :
  postprocess classes raw_boxes raw_scores ((rows1 ++ rows2) :: rest) =
    '(boxes1, scores1, classes1) ← postprocess classes raw_boxes raw_scores [rows1];
    '(boxes2, scores2, classes2) ← postprocess classes raw_boxes raw_scores [rows2];
    Ok (boxes1 ++ boxes2, scores1 ++ scores2, classes1 ++ classes2).
Proof.
  rewrite !postprocess_cons, decode_rows_app.
  destruct (decode_rows classes raw_boxes raw_scores rows1) as [ds1|e]; [|reflexivity].
  cbn. destruct (decode_rows classes raw_boxes raw_scores rows2) as [ds2|e];
    [|reflexivity].
  cbn. rewrite !map_app. reflexivity.
Qed.

Lemma getitem_elem_of {A} (l : list A) (i : Z) (x : A) :
  getitem l i = Ok x → x ∈ l.
Proof.
  intros Hg. apply getitem_Ok_inv in Hg.
  destruct Hg as [[_ Hl]|[_ Hl]]; eapply list_elem_of_lookup_2, Hl.
Qed.

Lemma postprocess_members {F} (classes : list string)
    (raw_boxes raw_scores : list (list (list F)))
    (raw_class_indices : list (list triple))
    (boxes : list (list F)) (scores : list F) (detected_classes : list string) :
  postprocess classes raw_boxes raw_scores raw_class_indices
    = Ok (boxes, scores, detected_classes) →
  length boxes = length detected_classes ∧
  length scores = length detected_classes ∧
  Forall (fun c => c ∈ classes) detected_classes ∧
  Forall (fun s => ∃ plane row, plane ∈ raw_scores ∧ row ∈ plane ∧ s ∈ row) scores ∧
  Forall (fun b => ∃ plane, plane ∈ raw_boxes ∧ b ∈ plane) boxes.
Proof.
  destruct raw_class_indices as [|rows rest]; [discriminate|].
  rewrite postprocess_cons.
  destruct (decode_rows classes raw_boxes raw_scores rows) as [ds|e] eqn:Hrows;
    [|discriminate].
  cbn. intros Heq. inversion Heq; subst; clear Heq.
  rewrite !length_map. split; [reflexivity|]. split; [reflexivity|].
  apply decode_rows_Ok_Forall2 in Hrows.
  assert (Hall : Forall (fun d : list F * F * string =>
            d.2 ∈ classes ∧
            (∃ plane row, plane ∈ raw_scores ∧ row ∈ plane ∧ d.1.2 ∈ row) ∧
            (∃ plane, plane ∈ raw_boxes ∧ d.1.1 ∈ plane)) ds).
  { induction Hrows as [|t d rows ds Hd _ IH]; constructor; [|exact IH].
    unfold decode_step, getitem3, getitem2 in Hd.
    destruct (getitem classes t.1.2) as [cls|] eqn:H1; [|discriminate].
    cbn in Hd.
    destruct (getitem raw_scores t.1.1) as [plane|] eqn:H2; [|discriminate].
    cbn in Hd.
    destruct (getitem plane t.1.2) as [row|] eqn:H3; [|discriminate].
    cbn in Hd.
    destruct (getitem row t.2) as [s|] eqn:H4; [|discriminate].
    cbn in Hd.
    destruct (getitem raw_boxes t.1.1) as [bplane|] eqn:H5; [|discriminate].
    cbn in Hd.
    destruct (getitem bplane t.2) as [bx|] eqn:H6; [|discriminate].
    cbn in Hd. inversion Hd; subst; cbn.
    apply getitem_elem_of in H1, H2, H3, H4, H5, H6. eauto 10. }
  repeat split; apply Forall_fmap; eapply Forall_impl; try exact Hall;
    cbn; intros d (? & ? & ?); assumption.
Qed.

(** X3 — The decoder only gathers.  Every label it returns is an entry of
    [classes], every score an element of [raw_scores] and every box a row of
    [raw_boxes], whatever the indices were (negative ones included): no value
    is computed, changed or made up. *)
Theorem postprocess_gathers_only {F} (classes : list string)
    (raw_boxes raw_scores : list (list (list F)))
    (raw_class_indices : list (list triple))
    (boxes : list (list F)) (scores : list F) (detected_classes : list string) :
  postprocess classes raw_boxes raw_scores raw_class_indices
    = Ok (boxes, scores, detected_classes) →
  Forall (fun c => c ∈ classes) detected_classes ∧
  Forall (fun s => ∃ plane row, plane ∈ raw_scores ∧ row ∈ plane ∧ s ∈ row) scores ∧
  Forall (fun b => ∃ plane, plane ∈ raw_boxes ∧ b ∈ plane) boxes.
Proof.
  intros Hp. apply postprocess_members in Hp. tauto.
Qed.

Lemma postprocess_gathers_only_witness :
  postprocess labels80 boxes80 scores80 [[(0, -1, 5); (-1, 3, -6)]]
    = Ok ([sample_box; sample_box], [f32_0_87; f32_0_87], ["79"; "3"]) ∧
  Forall (fun c => c ∈ labels80) ["79"; "3"] ∧
  Forall (fun s => ∃ plane row, plane ∈ scores80 ∧ row ∈ plane ∧ s ∈ row)
         [f32_0_87; f32_0_87] ∧
  Forall (fun b => ∃ plane, plane ∈ boxes80 ∧ b ∈ plane) [sample_box; sample_box].
Proof.
  assert (Hp : postprocess labels80 boxes80 scores80 [[(0, -1, 5); (-1, 3, -6)]]
               = Ok ([sample_box; sample_box], [f32_0_87; f32_0_87], ["79"; "3"]))
    by (vm_compute; reflexivity).
  split; [exact Hp|].
  exact (postprocess_gathers_only labels80 boxes80 scores80 _ _ _ _ Hp).
Defined.


(** ** Rounding *)

Lemma Zdigits2_bounds (m : Z) : 0 < m → 2 ^ (Zdigits2 m - 1) ≤ m < 2 ^ Zdigits2 m.
Proof.
  intros Hm. rewrite Zdigits2_log2 by lia.
  pose proof (Z.log2_spec m Hm) as Hl.
  replace (Z.log2 m + 1 - 1) with (Z.log2 m) by lia.
  replace (Z.log2 m + 1) with (Z.succ (Z.log2 m)) by lia. exact Hl.
Qed.

Lemma Zdigits2_unique (m d : Z) : 0 < d → 2 ^ (d - 1) ≤ m < 2 ^ d → Zdigits2 m = d.
Proof.
  intros Hd Hm.
  assert (0 < m).
  { pose proof (Z.pow_pos_nonneg 2 (d - 1) ltac:(lia) ltac:(lia)). lia. }
  rewrite Zdigits2_log2 by lia.
  rewrite (Z.log2_unique m (d - 1)); [lia|lia|].
  replace (Z.succ (d - 1)) with d by lia. exact Hm.
Qed.

Lemma shr_1_div (mrs : shr_record) :
  0 ≤ shr_m mrs → shr_m (shr_1 mrs) = shr_m mrs / 2.
Proof.
  destruct mrs as [m r s]. simpl. intros Hm.
  destruct m as [|[p|p|]|p]; simpl; try lia; try reflexivity.
  - apply Z.div_unique with 1; lia.
  - apply Z.div_unique with 0; lia.
Qed.

Lemma iter_pos_shr_1_div (p : positive) : ∀ mrs : shr_record,
  0 ≤ shr_m mrs →
  shr_m (SpecFloat.iter_pos shr_1 p mrs) = shr_m mrs / 2 ^ Zpos p.
Proof.
  induction p as [p IH|p IH|]; intros mrs Hm; simpl SpecFloat.iter_pos.
  - destruct (shr_1_digits mrs Hm) as [H0 _].
    destruct (iter_pos_shr_1_digits p _ H0) as [H1 _].
    rewrite IH, IH, shr_1_div by assumption.
    pose proof (Z.pow_pos_nonneg 2 (Zpos p) ltac:(lia) ltac:(lia)).
    rewrite !Z.div_div by lia. f_equal.
    replace (Zpos p~1) with (1 + Zpos p + Zpos p) by lia.
    rewrite !Z.pow_add_r by lia. change (2 ^ 1) with 2. lia.
  - destruct (iter_pos_shr_1_digits p _ Hm) as [H1 _].
    rewrite IH, IH by assumption.
    pose proof (Z.pow_pos_nonneg 2 (Zpos p) ltac:(lia) ltac:(lia)).
    rewrite !Z.div_div by lia. f_equal.
    replace (Zpos p~0) with (Zpos p + Zpos p) by lia.
    rewrite !Z.pow_add_r by lia. lia.
  - rewrite shr_1_div by assumption. reflexivity.
Qed.

Lemma shr_fexp_value (m e : Z) (l : location) :
  0 ≤ m →
  (shr_fexp 53 1024 m e l).2 = Z.max e (fexp 53 1024 (Zdigits2 m + e)) ∧
  shr_m (shr_fexp 53 1024 m e l).1
    = m / 2 ^ (Z.max e (fexp 53 1024 (Zdigits2 m + e)) - e).
Proof.
  intros Hm. unfold shr_fexp, shr.
  assert (Hrec : shr_m (shr_record_of_loc m l) = m).
  { destruct l as [|[]]; reflexivity. }
  destruct (fexp 53 1024 (Zdigits2 m + e) - e) as [|p|p] eqn:Hn; simpl.
  - rewrite Hrec. replace (Z.max e (fexp 53 1024 (Zdigits2 m + e)) - e) with 0 by lia.
    rewrite Z.div_1_r. split; [lia|reflexivity].
  - rewrite iter_pos_shr_1_div by (rewrite Hrec; exact Hm). rewrite Hrec.
    replace (Z.max e (fexp 53 1024 (Zdigits2 m + e)) - e) with (Zpos p) by lia.
    split; [lia|reflexivity].
  - rewrite Hrec. replace (Z.max e (fexp 53 1024 (Zdigits2 m + e)) - e) with 0 by lia.
    rewrite Z.div_1_r. split; [lia|reflexivity].
Qed.

Lemma round_nearest_even_value (m : Z) (l : location) :
  m ≤ round_nearest_even m l ≤ m + 1.
Proof. destruct l as [|[]]; simpl; try destruct (Z.even m); lia. Qed.

(** Rounding a number of at least 53 digits in the normal range: the result
    is in normal form, and differs from the number's integer part by at most
    one part in [2 ^ 52]. *)
Lemma binary_round_aux_normal (s : bool) (m e : Z) (l : location) :
  2 ^ 52 ≤ m → -1074 ≤ Zdigits2 m + e - 53 → Zdigits2 m + e ≤ 1023 →
  ∃ m3 e3,
    binary_round_aux 53 1024 s m e l = S754_finite s m3 e3 ∧
    2 ^ 52 ≤ Zpos m3 < 2 ^ 53 ∧
    Zdigits2 m + e - 53 ≤ e3 ≤ Zdigits2 m + e - 52 ∧
    e ≤ e3 ∧
    2 ^ 52 * (Zpos m3 * 2 ^ (e3 - e)) ≤ (2 ^ 52 + 1) * m ∧
    (2 ^ 52 - 1) * m ≤ 2 ^ 52 * (Zpos m3 * 2 ^ (e3 - e)).
Proof.
  intros Hm Hlo Hhi.
  assert (Hm0 : 0 < m) by lia.
  pose proof (Zdigits2_bounds m Hm0) as Hd.
  set (d := Zdigits2 m) in *.
  assert (Hd53 : 53 ≤ d).
  { destruct (Z.lt_ge_cases d 53) as [Hlt|]; [|assumption].
    pose proof (Z.pow_le_mono_r 2 d 52 ltac:(lia) ltac:(lia)). lia. }
  unfold binary_round_aux.
  pose proof (shr_fexp_value m e l ltac:(lia)) as [He1 Hm1].
  destruct (shr_fexp 53 1024 m e l) as [mrs' e1] eqn:Hs1. cbn [fst snd] in He1, Hm1.
  fold d in He1, Hm1.
  assert (He1' : e1 = d + e - 53) by (unfold fexp, emin in He1; lia).
  rewrite <- He1 in Hm1. replace (e1 - e) with (d - 53) in Hm1 by lia.
  set (n1 := d - 53) in *.
  assert (Hp : 0 < 2 ^ n1) by (apply Z.pow_pos_nonneg; lia).
  assert (Hsplit : 2 ^ (d - 1) = 2 ^ 52 * 2 ^ n1).
  { rewrite <- Z.pow_add_r by lia. f_equal. lia. }
  assert (Hsplit' : 2 ^ d = 2 ^ 53 * 2 ^ n1).
  { rewrite <- Z.pow_add_r by lia. f_equal. lia. }
  set (m1 := shr_m mrs') in *.
  assert (Hm1b : 2 ^ 52 ≤ m1 < 2 ^ 53).
  { rewrite Hm1. split.
    - apply Z.div_le_lower_bound; lia.
    - apply Z.div_lt_upper_bound; lia. }
  assert (Hm1v : m1 * 2 ^ n1 ≤ m < (m1 + 1) * 2 ^ n1).
  { pose proof (Z.div_mod m (2 ^ n1) ltac:(lia)) as Hdm.
    pose proof (Z.mod_pos_bound m (2 ^ n1) Hp) as Hr.
    rewrite <- Hm1 in Hdm. lia. }
  pose proof (round_nearest_even_value m1 (loc_of_shr_record mrs')) as Hr.
  set (m2 := round_nearest_even m1 (loc_of_shr_record mrs')) in *.
  assert (Hup : 2 ^ 52 * (m2 * 2 ^ n1) ≤ (2 ^ 52 + 1) * m).
  { apply Z.le_trans with (2 ^ 52 * (m + 2 ^ n1)); [|lia].
    apply Z.mul_le_mono_nonneg_l; [lia|]. nia. }
  assert (Hdown : (2 ^ 52 - 1) * m ≤ 2 ^ 52 * (m2 * 2 ^ n1)).
  { apply Z.le_trans with (2 ^ 52 * (m1 * 2 ^ n1)).
    - lia.
    - apply Z.mul_le_mono_nonneg_l; [lia|]. apply Z.mul_le_mono_nonneg_r; lia. }
  pose proof (shr_fexp_value m2 e1 loc_Exact ltac:(lia)) as [He3 Hm3].
  destruct (shr_fexp 53 1024 m2 e1 loc_Exact) as [mrs'' e3] eqn:Hs2.
  cbn [fst snd] in He3, Hm3.
  destruct (Z.eq_dec m2 (2 ^ 53)) as [Heq|Hne].
  - assert (Hd2 : Zdigits2 m2 = 54) by (rewrite Heq; reflexivity).
    rewrite Hd2 in He3, Hm3. unfold fexp, emin in He3, Hm3.
    assert (He3' : e3 = e1 + 1) by lia.
    replace (Z.max e1 (Z.max (54 + e1 - 53) (3 - 1024 - 53)) - e1) with 1 in Hm3 by lia.
    rewrite Heq in Hm3. change (2 ^ 53 / 2 ^ 1) with (2 ^ 52) in Hm3.
    rewrite Hm3. change (2 ^ 52) with (Zpos (2 ^ 52)%positive) at 1.
    cbv iota beta.
    destruct (Z.leb_spec e3 (1024 - 53)); [|lia].
    exists (2 ^ 52)%positive, e3.
    split; [reflexivity|]. split; [split; [reflexivity|reflexivity]|].
    split; [lia|]. split; [lia|].
    assert (HV : Zpos (2 ^ 52) * 2 ^ (e3 - e) = m2 * 2 ^ n1).
    { replace (e3 - e) with (1 + n1) by lia.
      rewrite Z.pow_add_r by lia. rewrite Heq. change (2 ^ 1) with 2.
      change (Zpos (2 ^ 52)) with (2 ^ 52). change (2 ^ 53) with (2 ^ 52 * 2). ring. }
    rewrite HV. split; assumption.
  - assert (Hd2 : Zdigits2 m2 = 53) by (apply Zdigits2_unique; lia).
    rewrite Hd2 in He3, Hm3. unfold fexp, emin in He3, Hm3.
    assert (He3' : e3 = e1) by lia.
    replace (Z.max e1 (Z.max (53 + e1 - 53) (3 - 1024 - 53)) - e1) with 0 in Hm3 by lia.
    rewrite Z.div_1_r in Hm3. rewrite Hm3.
    destruct m2 as [|p2|p2] eqn:Hp2; try lia.
    destruct (Z.leb_spec e3 (1024 - 53)); [|lia].
    exists p2, e3.
    split; [reflexivity|]. split; [lia|].
    split; [lia|]. split; [lia|].
    replace (e3 - e) with n1 by lia. split; assumption.
Qed.

Lemma sf_at_most_scaled (m : positive) (e n d K : Z) :
  0 ≤ K → 0 ≤ e + K →
  sf_at_most (S754_finite false m e) n d
  ↔ Zpos m * 2 ^ (e + K) * d ≤ n * 2 ^ K.
Proof.
  intros HK HeK. cbn [sf_at_most].
  destruct (Z.le_gt_cases 0 e) as [He|He].
  - rewrite Z.max_l, Z.max_r by lia. rewrite Z.pow_add_r by lia.
    pose proof (Z.pow_pos_nonneg 2 K ltac:(lia) HK) as HpK.
    change (2 ^ 0) with 1.
    rewrite (Z.mul_le_mono_pos_r _ _ (2 ^ K) HpK).
    match goal with
    | |- ?a ≤ ?b ↔ ?c ≤ ?d =>
        replace a with c by ring; replace b with d by ring; reflexivity
    end.
  - rewrite Z.max_r, Z.max_l by lia.
    replace (2 ^ K) with (2 ^ (- e) * 2 ^ (e + K))
      by (rewrite <- Z.pow_add_r by lia; f_equal; lia).
    pose proof (Z.pow_pos_nonneg 2 (e + K) ltac:(lia) HeK) as HpK.
    change (2 ^ 0) with 1.
    rewrite (Z.mul_le_mono_pos_r _ _ (2 ^ (e + K)) HpK).
    match goal with
    | |- ?a ≤ ?b ↔ ?c ≤ ?d =>
        replace a with c by ring; replace b with d by ring; reflexivity
    end.
Qed.

Lemma sf_at_most_intro (m : positive) (e n d K : Z) :
  0 ≤ K → 0 ≤ e + K →
  Zpos m * 2 ^ (e + K) * d ≤ n * 2 ^ K →
  sf_at_most (S754_finite false m e) n d.
Proof. intros HK HeK. apply sf_at_most_scaled; assumption. Qed.

Lemma sf_at_most_elim (m : positive) (e n d K : Z) :
  sf_at_most (S754_finite false m e) n d →
  0 ≤ K → 0 ≤ e + K →
  Zpos m * 2 ^ (e + K) * d ≤ n * 2 ^ K.
Proof. intros Hle HK HeK. apply sf_at_most_scaled; assumption. Qed.

Lemma sf_at_least_scaled (m : positive) (e n d K : Z) :
  0 ≤ K → 0 ≤ e + K →
  sf_at_least (S754_finite false m e) n d
  ↔ n * 2 ^ K ≤ Zpos m * 2 ^ (e + K) * d.
Proof.
  intros HK HeK. cbn [sf_at_least].
  destruct (Z.le_gt_cases 0 e) as [He|He].
  - rewrite (Z.max_l e 0), (Z.max_r (- e) 0) by lia. rewrite Z.pow_add_r by lia.
    pose proof (Z.pow_pos_nonneg 2 K ltac:(lia) HK) as HpK.
    change (2 ^ 0) with 1.
    rewrite (Z.mul_le_mono_pos_r _ _ (2 ^ K) HpK).
    match goal with
    | |- ?a ≤ ?b ↔ ?c ≤ ?d =>
        replace a with c by ring; replace b with d by ring; reflexivity
    end.
  - rewrite (Z.max_r e 0), (Z.max_l (- e) 0) by lia.
    replace (2 ^ K) with (2 ^ (- e) * 2 ^ (e + K))
      by (rewrite <- Z.pow_add_r by lia; f_equal; lia).
    pose proof (Z.pow_pos_nonneg 2 (e + K) ltac:(lia) HeK) as HpK.
    change (2 ^ 0) with 1.
    rewrite (Z.mul_le_mono_pos_r _ _ (2 ^ (e + K)) HpK).
    match goal with
    | |- ?a ≤ ?b ↔ ?c ≤ ?d =>
        replace a with c by ring; replace b with d by ring; reflexivity
    end.
Qed.

(** Two numbers in normal form compare as their exponents, then as their
    mantissas. *)
Lemma normal_value_lt (ma mb ea eb K : Z) :
  2 ^ 52 ≤ ma → mb < 2 ^ 53 → eb < ea → 0 ≤ eb + K →
  mb * 2 ^ (eb + K) ≤ ma * 2 ^ (ea + K).
Proof.
  intros Hma Hmb He HK.
  replace (ea + K) with (ea - eb + (eb + K)) by lia.
  rewrite (Z.pow_add_r 2 (ea - eb) (eb + K)) by lia.
  pose proof (Z.pow_pos_nonneg 2 (eb + K) ltac:(lia) HK) as Hp.
  pose proof (Z.pow_le_mono_r 2 1 (ea - eb) ltac:(lia) ltac:(lia)) as Hq.
  change (2 ^ 1) with 2 in Hq.
  set (P := 2 ^ (eb + K)) in *. set (Q := 2 ^ (ea - eb)) in *.
  apply Z.le_trans with (2 ^ 53 * P); [nia|].
  apply Z.le_trans with (2 * 2 ^ 52 * P); [reflexivity|].
  rewrite Z.mul_assoc. apply Z.mul_le_mono_nonneg_r; [lia|].
  apply Z.le_trans with (Q * 2 ^ 52); [nia|]. nia.
Qed.

Lemma py_min_at_most (a b : float) (lo hi na da nb db : Z) :
  normal_in lo hi a → normal_in lo hi b → 0 ≤ da → 0 ≤ db →
  sf_at_most a na da → sf_at_most b nb db →
  normal_in lo hi (py_min a b) ∧
  sf_at_most (py_min a b) na da ∧ sf_at_most (py_min a b) nb db.
Proof.
  destruct a as [| | |[] ma ea]; cbn [normal_in]; try tauto.
  destruct b as [| | |[] mb eb]; cbn [normal_in]; try tauto.
  intros [Hma Hea] [Hmb Heb] Hda Hdb Ha Hb.
  set (K := Z.max 0 (- lo)).
  pose proof (sf_at_most_elim _ _ _ _ K Ha ltac:(lia) ltac:(lia)) as Ha'.
  pose proof (sf_at_most_elim _ _ _ _ K Hb ltac:(lia) ltac:(lia)) as Hb'.
  unfold py_min, SFltb, SFcompare.
  assert (Hlt : eb < ea ∨ (eb = ea ∧ Zpos mb < Zpos ma) →
                Zpos mb * 2 ^ (eb + K) ≤ Zpos ma * 2 ^ (ea + K)).
  { intros [Hc|[-> Hc]].
    - apply normal_value_lt; lia.
    - apply Z.mul_le_mono_nonneg_r; [|lia]. apply Z.pow_nonneg. lia. }
  assert (Hge : ea < eb ∨ (eb = ea ∧ Zpos ma ≤ Zpos mb) →
                Zpos ma * 2 ^ (ea + K) ≤ Zpos mb * 2 ^ (eb + K)).
  { intros [Hc|[-> Hc]].
    - apply normal_value_lt; lia.
    - apply Z.mul_le_mono_nonneg_r; [|lia]. apply Z.pow_nonneg. lia. }
  assert (Hsmall : Zpos mb * 2 ^ (eb + K) ≤ Zpos ma * 2 ^ (ea + K) →
                   sf_at_most (S754_finite false mb eb) na da).
  { intros Hle. apply (sf_at_most_intro _ _ _ _ K); [lia|lia|].
    apply Z.le_trans with (Zpos ma * 2 ^ (ea + K) * da); [|exact Ha'].
    apply Z.mul_le_mono_nonneg_r; assumption. }
  assert (Hlarge : Zpos ma * 2 ^ (ea + K) ≤ Zpos mb * 2 ^ (eb + K) →
                   sf_at_most (S754_finite false ma ea) nb db).
  { intros Hle. apply (sf_at_most_intro _ _ _ _ K); [lia|lia|].
    apply Z.le_trans with (Zpos mb * 2 ^ (eb + K) * db); [|exact Hb'].
    apply Z.mul_le_mono_nonneg_r; assumption. }
  destruct (Z.compare_spec eb ea) as [Heq|Hlt'|Hgt].
  - change (Pos.compare_cont Eq mb ma) with (Pos.compare mb ma).
    destruct (Pos.compare_spec mb ma) as [Hc|Hc|Hc]; cbn [normal_in];
      (split; [split; assumption|]).
    + split; [exact Ha|]. apply Hlarge, Hge. right. split; [assumption|lia].
    + split; [|exact Hb]. apply Hsmall, Hlt. right. split; [assumption|lia].
    + split; [exact Ha|]. apply Hlarge, Hge. right. split; [assumption|lia].
  - cbn [normal_in]. split; [split; assumption|].
    split; [|exact Hb]. apply Hsmall, Hlt. left. exact Hlt'.
  - cbn [normal_in]. split; [split; assumption|].
    split; [exact Ha|]. apply Hlarge, Hge. left. exact Hgt.
Qed.

Lemma Zdigits2_int31 (n : Z) : 0 < n < 2 ^ 31 → 1 ≤ Zdigits2 n ≤ 31.
Proof.
  intros Hn. pose proof (Zdigits2_lt_pow2 n 31 ltac:(lia) ltac:(lia)).
  destruct n; simpl in *; lia.
Qed.

(** [w / iw] on two positive C ints: in normal form, and at most one part in
    [2 ^ 52] above the quotient. *)
Lemma truediv_normal (a b : Z) :
  0 < a < 2 ^ 31 → 0 < b < 2 ^ 31 →
  ∃ q, truediv a b = Ok q ∧ normal_in (-83) (-21) q ∧
       sf_at_most q ((2 ^ 52 + 1) * a) (2 ^ 52 * b) ∧
       sf_at_least q ((2 ^ 52 - 1) * ((2 ^ 52 - 1) * a)) (2 ^ 52 * (2 ^ 52 * b)).
Proof.
  intros Ha Hb. unfold truediv. rewrite bool_decide_eq_false_2 by lia.
  pose proof (Zdigits2_int31 a Ha) as Hda. pose proof (Zdigits2_int31 b Hb) as Hdb.
  pose proof (Zdigits2_bounds a ltac:(lia)) as Hba.
  pose proof (Zdigits2_bounds b ltac:(lia)) as Hbb.
  destruct a as [|ma|ma]; try lia. destruct b as [|mb|mb]; try lia.
  unfold SF_of_int, SFdiv, SFdiv_core_binary.
  set (da := Zdigits2 (Zpos ma)) in *. set (db := Zdigits2 (Zpos mb)) in *.
  replace (Z.min (fexp F64.prec F64.emax (da + 0 - (db + 0))) (0 - 0))
    with (da - db - 53) by (unfold fexp, emin, F64.prec, F64.emax; lia).
  set (e' := da - db - 53).
  assert (Hs : 0 - 0 - e' = 53 + db - da) by (unfold e'; lia).
  set (sh := 53 + db - da) in *.
  assert (Hm' : match 0 - 0 - e' with
                | Zpos _ => Z.shiftl (Zpos ma) (0 - 0 - e')
                | 0 => Zpos ma
                | Zneg _ => 0
                end = Zpos ma * 2 ^ sh).
  { rewrite Hs. destruct sh as [|p|p] eqn:Hsh; try lia.
    rewrite Z.shiftl_mul_pow2 by lia. reflexivity. }
  rewrite Hm'. clear Hm'.
  assert (Hp : 0 < 2 ^ sh) by (apply Z.pow_pos_nonneg; lia).
  pose proof (Z_div_mod (Zpos ma * 2 ^ sh) (Zpos mb) ltac:(lia)) as Hdm.
  destruct (Z.div_eucl (Zpos ma * 2 ^ sh) (Zpos mb)) as [q r]. destruct Hdm as [Hq Hr].
  assert (Hlow : 2 ^ 52 * 2 ^ db ≤ Zpos ma * 2 ^ sh).
  { apply Z.le_trans with (2 ^ (da - 1) * 2 ^ sh).
    - rewrite <- !Z.pow_add_r by lia. apply Z.pow_le_mono_r; lia.
    - apply Z.mul_le_mono_nonneg_r; lia. }
  assert (Hhigh : Zpos ma * 2 ^ sh < 2 ^ 54 * 2 ^ (db - 1)).
  { apply Z.lt_le_trans with (2 ^ da * 2 ^ sh).
    - apply Z.mul_lt_mono_pos_r; lia.
    - rewrite <- !Z.pow_add_r by lia. apply Z.pow_le_mono_r; lia. }
  assert (Hpdb : 0 < 2 ^ (db - 1)) by (apply Z.pow_pos_nonneg; lia).
  assert (Hpdb' : 0 < 2 ^ db) by (apply Z.pow_pos_nonneg; lia).
  assert (Hq52 : 2 ^ 52 ≤ q).
  { destruct (Z.le_gt_cases (2 ^ 52) q) as [|Hlt]; [assumption|].
    assert (q * Zpos mb + r < 2 ^ 52 * Zpos mb) by nia.
    assert (2 ^ 52 * Zpos mb < 2 ^ 52 * 2 ^ db) by (apply Z.mul_lt_mono_pos_l; lia).
    lia. }
  assert (Hq54 : q < 2 ^ 54).
  { destruct (Z.le_gt_cases (2 ^ 54) q) as [Hge|]; [|assumption].
    assert (2 ^ 54 * 2 ^ (db - 1) ≤ q * Zpos mb).
    { apply Z.mul_le_mono_nonneg; lia. }
    lia. }
  assert (Hdq : 53 ≤ Zdigits2 q ≤ 54).
  { split.
    - change 53 with (Zdigits2 (2 ^ 52)). apply Zdigits2_le. lia.
    - apply Zdigits2_lt_pow2; lia. }
  destruct (binary_round_aux_normal (xorb false false) q e'
              (new_location (Zpos mb) r) Hq52 ltac:(unfold e'; lia)
              ltac:(unfold e'; lia))
    as (m3 & e3 & Hround & Hm3 & He3 & Hee & Hval & Hinf).
  change F64.prec with 53. change F64.emax with 1024.
  rewrite Hround. cbn [xorb]. eexists. split; [reflexivity|].
  split; [cbn [normal_in]; unfold e' in *; lia|].
  assert (HV0 : 0 ≤ Zpos m3 * 2 ^ (e3 - e')).
  { pose proof (Z.pow_nonneg 2 (e3 - e') ltac:(lia)). lia. }
  set (V := Zpos m3 * 2 ^ (e3 - e')) in *.
  set (M := Zpos ma * 2 ^ sh) in *.
  split.
  - apply (sf_at_most_intro _ _ _ _ sh); [lia|unfold e' in *; lia|].
    replace (e3 + sh) with (e3 - e') by (unfold e'; lia). fold V.
    apply Z.le_trans with ((2 ^ 52 + 1) * (q * Zpos mb)).
    + replace (V * (2 ^ 52 * Zpos mb)) with (2 ^ 52 * V * Zpos mb) by ring.
      rewrite Z.mul_assoc. apply Z.mul_le_mono_nonneg_r; lia.
    + replace ((2 ^ 52 + 1) * Zpos ma * 2 ^ sh) with ((2 ^ 52 + 1) * M)
        by (unfold M; ring).
      apply Z.mul_le_mono_nonneg_l; lia.
  - apply (sf_at_least_scaled _ _ _ _ sh); [lia|unfold e' in *; lia|].
    replace (e3 + sh) with (e3 - e') by (unfold e'; lia). fold V.
    assert (Hb52 : 2 ^ 52 * Zpos mb ≤ M).
    { apply Z.le_trans with (2 ^ 52 * 2 ^ db); [|exact Hlow].
      apply Z.mul_le_mono_nonneg_l; lia. }
    assert (Hqb : (2 ^ 52 - 1) * M ≤ 2 ^ 52 * (q * Zpos mb)) by lia.
    apply Z.le_trans with ((2 ^ 52 - 1) * (2 ^ 52 * (q * Zpos mb))).
    + replace ((2 ^ 52 - 1) * ((2 ^ 52 - 1) * Zpos ma) * 2 ^ sh)
        with ((2 ^ 52 - 1) * ((2 ^ 52 - 1) * M)) by (unfold M; ring).
      apply Z.mul_le_mono_nonneg_l; lia.
    + replace ((2 ^ 52 - 1) * (2 ^ 52 * (q * Zpos mb)))
        with ((2 ^ 52 - 1) * q * (2 ^ 52 * Zpos mb)) by ring.
      replace (V * (2 ^ 52 * (2 ^ 52 * Zpos mb)))
        with (2 ^ 52 * V * (2 ^ 52 * Zpos mb)) by ring.
      apply Z.mul_le_mono_nonneg_r; lia.
Qed.

Lemma iter_xO_value (m d : positive) : Zpos (Pos.iter xO m d) = Zpos m * 2 ^ Zpos d.
Proof.
  induction d as [|d IH] using Pos.peano_ind.
  - simpl. lia.
  - rewrite Pos.iter_succ, Pos2Z.inj_xO, IH, Pos2Z.inj_succ, Z.pow_succ_r by lia. ring.
Qed.

(** Rounding a number of at most 53 digits in the normal range. *)
Lemma binary_round_normal (m : positive) (e : Z) :
  Zdigits2 (Zpos m) ≤ 53 →
  -1074 ≤ Zdigits2 (Zpos m) + e - 53 → Zdigits2 (Zpos m) + e ≤ 1023 →
  ∃ m3 e3,
    binary_round 53 1024 false m e = S754_finite false m3 e3 ∧
    2 ^ 52 ≤ Zpos m3 < 2 ^ 53 ∧
    Zdigits2 (Zpos m) + e - 53 ≤ e3 ≤ Zdigits2 (Zpos m) + e - 52 ∧
    2 ^ 52 * (Zpos m3 * 2 ^ (e3 - (Zdigits2 (Zpos m) + e - 53)))
      ≤ (2 ^ 52 + 1) * (Zpos m * 2 ^ (53 - Zdigits2 (Zpos m))) ∧
    (2 ^ 52 - 1) * (Zpos m * 2 ^ (53 - Zdigits2 (Zpos m)))
      ≤ 2 ^ 52 * (Zpos m3 * 2 ^ (e3 - (Zdigits2 (Zpos m) + e - 53))).
Proof.
  intros Hd Hlo Hhi.
  pose proof (Zdigits2_bounds (Zpos m) ltac:(lia)) as Hb.
  assert (Hd1 : 1 ≤ Zdigits2 (Zpos m)) by (simpl; lia).
  unfold binary_round, shl_align.
  change (Zpos (digits2_pos m)) with (Zdigits2 (Zpos m)).
  set (d := Zdigits2 (Zpos m)) in *.
  replace (fexp 53 1024 (d + e) - e) with (d - 53) by (unfold fexp, emin; lia).
  destruct (d - 53) as [|p|p] eqn:Hp; try lia.
  - assert (d = 53) by lia.
    destruct (binary_round_aux_normal false (Zpos m) e loc_Exact)
      as (m3 & e3 & Hround & Hm3 & He3 & Hee & Hval & Hinf).
    { replace 52 with (d - 1) by lia. lia. }
    { fold d. lia. }
    { fold d. lia. }
    fold d in He3. exists m3, e3. rewrite Hround.
    split; [reflexivity|]. split; [assumption|]. split; [assumption|].
    replace (e3 - (d + e - 53)) with (e3 - e) by lia.
    replace (53 - d) with 0 by lia. change (2 ^ 0) with 1. lia.
  - assert (HM : Zpos (Pos.iter xO m p) = Zpos m * 2 ^ (53 - d)).
    { rewrite iter_xO_value. f_equal. f_equal. lia. }
    assert (Hpp : 0 < 2 ^ (53 - d)) by (apply Z.pow_pos_nonneg; lia).
    assert (HMb : 2 ^ 52 ≤ Zpos (Pos.iter xO m p) < 2 ^ 53).
    { rewrite HM. split.
      - apply Z.le_trans with (2 ^ (d - 1) * 2 ^ (53 - d)).
        + rewrite <- Z.pow_add_r by lia. apply Z.pow_le_mono_r; lia.
        + apply Z.mul_le_mono_nonneg_r; lia.
      - apply Z.lt_le_trans with (2 ^ d * 2 ^ (53 - d)).
        + apply Z.mul_lt_mono_pos_r; lia.
        + rewrite <- Z.pow_add_r by lia. apply Z.pow_le_mono_r; lia. }
    assert (HdM : Zdigits2 (Zpos (Pos.iter xO m p)) = 53)
      by (apply Zdigits2_unique; [lia|exact HMb]).
    destruct (binary_round_aux_normal false (Zpos (Pos.iter xO m p)) (e + Zneg p) loc_Exact)
      as (m3 & e3 & Hround & Hm3 & He3 & Hee & Hval & Hinf).
    { lia. }
    { rewrite HdM. lia. }
    { rewrite HdM. lia. }
    rewrite HdM in He3.
    replace (fexp 53 1024 (d + e)) with (e + Zneg p) by (unfold fexp, emin; lia).
    exists m3, e3. rewrite Hround.
    split; [reflexivity|]. split; [assumption|]. split; [lia|].
    replace (e3 - (d + e - 53)) with (e3 - (e + Zneg p)) by lia.
    rewrite <- HM. split; assumption.
Qed.

(** [float(n)] for a positive C int. *)
Lemma float_of_int_normal (n : Z) :
  0 < n < 2 ^ 31 →
  ∃ f, float_of_int n = Ok f ∧ normal_in (-52) (-21) f ∧
       sf_at_most f ((2 ^ 52 + 1) * n) (2 ^ 52) ∧
       sf_at_least f ((2 ^ 52 - 1) * n) (2 ^ 52).
Proof.
  intros Hn. pose proof (Zdigits2_int31 n Hn) as Hd.
  destruct n as [|m|m]; try lia.
  unfold float_of_int, F64.of_Z, binary_normalize.
  change F64.prec with 53. change F64.emax with 1024.
  destruct (binary_round_normal m 0 ltac:(lia) ltac:(lia) ltac:(lia))
    as (m3 & e3 & Hround & Hm3 & He3 & Hval & Hinf).
  rewrite Hround. eexists. split; [reflexivity|].
  split; [cbn [normal_in]; lia|].
  set (d := Zdigits2 (Zpos m)) in *.
  split.
  - apply (sf_at_most_intro _ _ _ _ (53 - d)); [lia|lia|].
    replace (e3 + (53 - d)) with (e3 - (d + 0 - 53)) by lia.
    lia.
  - apply (sf_at_least_scaled _ _ _ _ (53 - d)); [lia|lia|].
    replace (e3 + (53 - d)) with (e3 - (d + 0 - 53)) by lia.
    lia.
Qed.

(** The product of two numbers in normal form, in the normal range. *)
Lemma SFmul_normal (x y : float) (lox hix loy hiy nx dx ny dy : Z) :
  normal_in lox hix x → normal_in loy hiy y →
  -1126 ≤ lox + loy → hix + hiy ≤ 917 →
  0 ≤ dx → 0 ≤ dy →
  sf_at_most x nx dx → sf_at_most y ny dy →
  normal_in (lox + loy + 52) (hix + hiy + 54) (F64.mul x y) ∧
  sf_at_most (F64.mul x y) ((2 ^ 52 + 1) * (nx * ny)) (2 ^ 52 * (dx * dy)).
Proof.
  destruct x as [| | |[] mx ex]; cbn [normal_in]; try tauto.
  destruct y as [| | |[] my ey]; cbn [normal_in]; try tauto.
  intros [Hmx Hex] [Hmy Hey] Hlo Hhi Hdx Hdy Hx Hy.
  unfold F64.mul, SFmul. change F64.prec with 53. change F64.emax with 1024.
  rewrite Pos2Z.inj_mul.
  assert (Hprod : 2 ^ 104 ≤ Zpos mx * Zpos my < 2 ^ 106).
  { change (2 ^ 104) with (2 ^ 52 * 2 ^ 52). change (2 ^ 106) with (2 ^ 53 * 2 ^ 53).
    split; [apply Z.mul_le_mono_nonneg; lia|apply Z.mul_lt_mono_nonneg; lia]. }
  assert (Hd : 105 ≤ Zdigits2 (Zpos mx * Zpos my) ≤ 106).
  { split.
    - change 105 with (Zdigits2 (2 ^ 104)). apply Zdigits2_le. lia.
    - apply Zdigits2_lt_pow2; lia. }
  destruct (binary_round_aux_normal (xorb false false) (Zpos mx * Zpos my) (ex + ey)
              loc_Exact ltac:(lia) ltac:(lia) ltac:(lia))
    as (m3 & e3 & Hround & Hm3 & He3 & Hee & Hval & Hinf).
  rewrite Hround. cbn [xorb normal_in]. split; [lia|].
  set (Kx := Z.max 0 (- ex)). set (Ky := Z.max 0 (- ey)).
  pose proof (sf_at_most_elim _ _ _ _ Kx Hx ltac:(lia) ltac:(lia)) as Hx'.
  pose proof (sf_at_most_elim _ _ _ _ Ky Hy ltac:(lia) ltac:(lia)) as Hy'.
  apply (sf_at_most_intro _ _ _ _ (Kx + Ky)); [lia|lia|].
  replace (e3 + (Kx + Ky)) with (e3 - (ex + ey) + ((ex + Kx) + (ey + Ky))) by lia.
  rewrite (Z.pow_add_r 2 (e3 - (ex + ey))), (Z.pow_add_r 2 (ex + Kx)),
    (Z.pow_add_r 2 Kx) by lia.
  pose proof (Z.pow_pos_nonneg 2 (ex + Kx) ltac:(lia) ltac:(lia)) as Hpx.
  pose proof (Z.pow_pos_nonneg 2 (ey + Ky) ltac:(lia) ltac:(lia)) as Hpy.
  pose proof (Z.pow_pos_nonneg 2 (e3 - (ex + ey)) ltac:(lia) ltac:(lia)) as Hp3.
  set (Px := 2 ^ (ex + Kx)) in *. set (Py := 2 ^ (ey + Ky)) in *.
  set (P3 := 2 ^ (e3 - (ex + ey))) in *.
  set (Qx := 2 ^ Kx) in *. set (Qy := 2 ^ Ky) in *.
  set (A := Zpos mx * Px * dx) in *. set (B := Zpos my * Py * dy) in *.
  assert (HA : 0 ≤ A) by (unfold A; apply Z.mul_nonneg_nonneg; lia).
  assert (HB : 0 ≤ B) by (unfold B; apply Z.mul_nonneg_nonneg; lia).
  assert (HAB : A * B ≤ (nx * Qx) * (ny * Qy)) by (apply Z.mul_le_mono_nonneg; lia).
  set (V := Zpos m3 * P3) in *.
  apply Z.le_trans with ((2 ^ 52 + 1) * (A * B)).
  - replace (Zpos m3 * (P3 * (Px * Py)) * (2 ^ 52 * (dx * dy)))
      with (2 ^ 52 * V * (Px * dx * (Py * dy))) by (unfold V; ring).
    replace ((2 ^ 52 + 1) * (A * B))
      with ((2 ^ 52 + 1) * (Zpos mx * Zpos my) * (Px * dx * (Py * dy)))
      by (unfold A, B; ring).
    apply Z.mul_le_mono_nonneg_r; [|exact Hval].
    apply Z.mul_nonneg_nonneg; apply Z.mul_nonneg_nonneg; lia.
  - replace ((2 ^ 52 + 1) * (nx * ny) * (Qx * Qy))
      with ((2 ^ 52 + 1) * (nx * Qx * (ny * Qy))) by ring.
    apply Z.mul_le_mono_nonneg_l; [lia|exact HAB].
Qed.

(** [int] of a float that is at most [n / d] is at most [n / d]. *)
Lemma trunc_at_most (f : float) (n d : Z) :
  0 ≤ n → 0 < d → sf_at_most f n d → trunc f * d ≤ n.
Proof.
  intros Hn Hd. destruct f as [| | |[] m e]; cbn [sf_at_most trunc]; try tauto.
  cbn [cond_Zopp]. destruct e as [|p|p].
  - change (Z.max 0 0) with 0. change (Z.max (- 0) 0) with 0.
    change (2 ^ 0) with 1. lia.
  - rewrite Z.max_l, Z.max_r by lia. change (2 ^ 0) with 1. lia.
  - rewrite Z.max_r, Z.max_l by lia. change (- Zneg p) with (Zpos p).
    change (2 ^ 0) with 1. intros Hle.
    pose proof (Z.pow_pos_nonneg 2 (Zpos p) ltac:(lia) ltac:(lia)) as Hp.
    rewrite Z.quot_div_nonneg by lia.
    pose proof (Z.mul_div_le (Zpos m) (2 ^ Zpos p) Hp) as Hq.
    set (P := 2 ^ Zpos p) in *. set (q := Zpos m / P) in *.
    apply (Z.mul_le_mono_pos_r _ _ P Hp).
    apply Z.le_trans with (Zpos m * d); [|lia].
    replace (q * d * P) with (P * q * d) by ring.
    apply Z.mul_le_mono_nonneg_r; lia.
Qed.

Lemma py_int_normal (lo hi : Z) (f : float) :
  normal_in lo hi f → py_int f = Ok (trunc f) ∧ 0 ≤ trunc f.
Proof.
  destruct f as [| | |[] m e]; cbn [normal_in]; try tauto. intros _.
  split; [reflexivity|]. cbn [trunc cond_Zopp]. destruct e as [|p|p].
  - lia.
  - pose proof (Z.pow_pos_nonneg 2 (Zpos p) ltac:(lia) ltac:(lia)). lia.
  - apply Z.quot_pos; [lia|]. apply Z.pow_pos_nonneg; lia.
Qed.

(** The product of two numbers in normal form, from below. *)
Lemma SFmul_at_least (x y : float) (lox hix loy hiy nx dx ny dy : Z) :
  normal_in lox hix x → normal_in loy hiy y →
  -1126 ≤ lox + loy → hix + hiy ≤ 917 →
  0 ≤ nx → 0 ≤ ny → 0 ≤ dx → 0 ≤ dy →
  sf_at_least x nx dx → sf_at_least y ny dy →
  sf_at_least (F64.mul x y) ((2 ^ 52 - 1) * (nx * ny)) (2 ^ 52 * (dx * dy)).
Proof.
  destruct x as [| | |[] mx ex]; cbn [normal_in]; try tauto.
  destruct y as [| | |[] my ey]; cbn [normal_in]; try tauto.
  intros [Hmx Hex] [Hmy Hey] Hlo Hhi Hnx Hny Hdx Hdy Hx Hy.
  unfold F64.mul, SFmul. change F64.prec with 53. change F64.emax with 1024.
  rewrite Pos2Z.inj_mul.
  assert (Hprod : 2 ^ 104 ≤ Zpos mx * Zpos my < 2 ^ 106).
  { change (2 ^ 104) with (2 ^ 52 * 2 ^ 52). change (2 ^ 106) with (2 ^ 53 * 2 ^ 53).
    split; [apply Z.mul_le_mono_nonneg; lia|apply Z.mul_lt_mono_nonneg; lia]. }
  assert (Hd : 105 ≤ Zdigits2 (Zpos mx * Zpos my) ≤ 106).
  { split.
    - change 105 with (Zdigits2 (2 ^ 104)). apply Zdigits2_le. lia.
    - apply Zdigits2_lt_pow2; lia. }
  destruct (binary_round_aux_normal (xorb false false) (Zpos mx * Zpos my) (ex + ey)
              loc_Exact ltac:(lia) ltac:(lia) ltac:(lia))
    as (m3 & e3 & Hround & Hm3 & He3 & Hee & Hval & Hinf).
  rewrite Hround. cbn [xorb].
  set (Kx := Z.max 0 (- ex)). set (Ky := Z.max 0 (- ey)).
  pose proof (proj1 (sf_at_least_scaled mx ex nx dx Kx ltac:(lia) ltac:(lia)) Hx) as Hx'.
  pose proof (proj1 (sf_at_least_scaled my ey ny dy Ky ltac:(lia) ltac:(lia)) Hy) as Hy'.
  apply (sf_at_least_scaled _ _ _ _ (Kx + Ky)); [lia|lia|].
  replace (e3 + (Kx + Ky)) with (e3 - (ex + ey) + ((ex + Kx) + (ey + Ky))) by lia.
  rewrite (Z.pow_add_r 2 (e3 - (ex + ey))), (Z.pow_add_r 2 (ex + Kx)),
    (Z.pow_add_r 2 Kx) by lia.
  pose proof (Z.pow_pos_nonneg 2 (ex + Kx) ltac:(lia) ltac:(lia)) as Hpx.
  pose proof (Z.pow_pos_nonneg 2 (ey + Ky) ltac:(lia) ltac:(lia)) as Hpy.
  pose proof (Z.pow_pos_nonneg 2 Kx ltac:(lia) ltac:(lia)) as Hqx.
  pose proof (Z.pow_pos_nonneg 2 Ky ltac:(lia) ltac:(lia)) as Hqy.
  set (Px := 2 ^ (ex + Kx)) in *. set (Py := 2 ^ (ey + Ky)) in *.
  set (P3 := 2 ^ (e3 - (ex + ey))) in *.
  set (Qx := 2 ^ Kx) in *. set (Qy := 2 ^ Ky) in *.
  set (A := Zpos mx * Px * dx) in *. set (B := Zpos my * Py * dy) in *.
  assert (HAB : (nx * Qx) * (ny * Qy) ≤ A * B).
  { apply Z.mul_le_mono_nonneg; try assumption; apply Z.mul_nonneg_nonneg; lia. }
  set (V := Zpos m3 * P3) in *.
  apply Z.le_trans with ((2 ^ 52 - 1) * (A * B)).
  - replace ((2 ^ 52 - 1) * (nx * ny) * (Qx * Qy))
      with ((2 ^ 52 - 1) * (nx * Qx * (ny * Qy))) by ring.
    apply Z.mul_le_mono_nonneg_l; [lia|exact HAB].
  - replace (Zpos m3 * (P3 * (Px * Py)) * (2 ^ 52 * (dx * dy)))
      with (2 ^ 52 * V * (Px * dx * (Py * dy))) by (unfold V; ring).
    replace ((2 ^ 52 - 1) * (A * B))
      with ((2 ^ 52 - 1) * (Zpos mx * Zpos my) * (Px * dx * (Py * dy)))
      by (unfold A, B; ring).
    apply Z.mul_le_mono_nonneg_r; [|exact Hinf].
    apply Z.mul_nonneg_nonneg; apply Z.mul_nonneg_nonneg; lia.
Qed.

(** [int] of a float that is at least [n / d ≥ 1] is at least 1. *)
Lemma trunc_at_least (f : float) (n d : Z) :
  0 < d ≤ n → sf_at_least f n d → 1 ≤ trunc f.
Proof.
  intros Hd. destruct f as [| | |[] m e]; cbn [sf_at_least trunc]; try tauto.
  cbn [cond_Zopp]. destruct e as [|p|p].
  - intros _. lia.
  - intros _. pose proof (Z.pow_pos_nonneg 2 (Zpos p) ltac:(lia) ltac:(lia)). nia.
  - rewrite (Z.max_r (Zneg p) 0), (Z.max_l (- Zneg p) 0) by lia.
    change (- Zneg p) with (Zpos p). change (2 ^ 0) with 1. intros Hle.
    pose proof (Z.pow_pos_nonneg 2 (Zpos p) ltac:(lia) ltac:(lia)) as Hp.
    rewrite Z.quot_div_nonneg by lia.
    apply Z.div_le_lower_bound; [exact Hp|].
    set (P := 2 ^ Zpos p) in *.
    assert (Hnp : d * P ≤ n * P) by (apply Z.mul_le_mono_nonneg_r; lia).
    assert (Hdm : d * P ≤ d * Zpos m) by lia.
    apply Z.mul_le_mono_pos_l in Hdm; lia.
Qed.

(** One side of the scaled size: [int(iw * scale)] with [scale] at most
    (the float) [w / iw] is at most [w]. *)
Lemma scaled_side_fits (iw w : Z) (fw scale : float) :
  0 < iw < 2 ^ 31 → 0 < w < 2 ^ 31 →
  normal_in (-52) (-21) fw → sf_at_most fw ((2 ^ 52 + 1) * iw) (2 ^ 52) →
  normal_in (-83) (-21) scale →
  sf_at_most scale ((2 ^ 52 + 1) * w) (2 ^ 52 * iw) →
  py_int (F64.mul fw scale) = Ok (trunc (F64.mul fw scale)) ∧
  0 ≤ trunc (F64.mul fw scale) ≤ w.
Proof.
  intros Hiw Hw Nfw Afw Nsc Asc.
  assert (Hp52 : 0 < 2 ^ 52) by reflexivity.
  destruct (SFmul_normal fw scale (-52) (-21) (-83) (-21)
              ((2 ^ 52 + 1) * iw) (2 ^ 52) ((2 ^ 52 + 1) * w) (2 ^ 52 * iw)
              Nfw Nsc) as [Np Ap]; [lia|lia|lia|lia|exact Afw|exact Asc|].
  destruct (py_int_normal _ _ _ Np) as [Hint Hnn].
  split; [exact Hint|]. split; [exact Hnn|].
  apply trunc_at_most in Ap; [|lia|lia].
  set (t := trunc (F64.mul fw scale)) in *.
  destruct (Z.le_gt_cases t w) as [|Hgt]; [assumption|exfalso].
  assert (Hlow : (w + 1) * (2 ^ 52 * (2 ^ 52 * (2 ^ 52 * iw)))
                 ≤ t * (2 ^ 52 * (2 ^ 52 * (2 ^ 52 * iw)))).
  { apply Z.mul_le_mono_nonneg_r; lia. }
  assert (Hchain : (w + 1) * (2 ^ 52 * (2 ^ 52 * (2 ^ 52 * iw)))
                   ≤ (2 ^ 52 + 1) * ((2 ^ 52 + 1) * iw * ((2 ^ 52 + 1) * w))) by lia.
  replace ((w + 1) * (2 ^ 52 * (2 ^ 52 * (2 ^ 52 * iw))))
    with (iw * ((w + 1) * 2 ^ 156)) in Hchain by (change (2 ^ 156) with (2 ^ 52 * 2 ^ 52 * 2 ^ 52); ring).
  replace ((2 ^ 52 + 1) * ((2 ^ 52 + 1) * iw * ((2 ^ 52 + 1) * w)))
    with (iw * (w * ((2 ^ 52 + 1) * (2 ^ 52 + 1) * (2 ^ 52 + 1)))) in Hchain by ring.
  apply Z.mul_le_mono_pos_l in Hchain; [|lia].
  lia.
Qed.

(** One side of the scaled size: [int(ih * scale)] is at least 1 when
    [scale] is at least (the float) [w / iw] and [2 * iw ≤ w * ih]. *)
Lemma scaled_side_positive (iw ih w : Z) (fh scale : float) :
  0 < iw < 2 ^ 31 → 0 < ih < 2 ^ 31 → 0 < w < 2 ^ 31 →
  2 * iw ≤ w * ih →
  normal_in (-52) (-21) fh → sf_at_least fh ((2 ^ 52 - 1) * ih) (2 ^ 52) →
  normal_in (-83) (-21) scale →
  sf_at_least scale ((2 ^ 52 - 1) * ((2 ^ 52 - 1) * w)) (2 ^ 52 * (2 ^ 52 * iw)) →
  1 ≤ trunc (F64.mul fh scale).
Proof.
  intros Hiw Hih Hw Hasp Nfh Afh Nsc Asc.
  assert (Hp52 : 0 < 2 ^ 52) by reflexivity.
  pose proof (SFmul_at_least fh scale (-52) (-21) (-83) (-21)
                ((2 ^ 52 - 1) * ih) (2 ^ 52)
                ((2 ^ 52 - 1) * ((2 ^ 52 - 1) * w)) (2 ^ 52 * (2 ^ 52 * iw))
                Nfh Nsc ltac:(lia) ltac:(lia)) as Hmul.
  specialize (Hmul ltac:(lia) ltac:(lia) ltac:(lia) ltac:(lia) Afh Asc).
  apply trunc_at_least in Hmul; [exact Hmul|].
  split; [lia|].
  replace (2 ^ 52 * (2 ^ 52 * (2 ^ 52 * (2 ^ 52 * iw)))) with (2 ^ 207 * (2 * iw))
    by (change (2 ^ 207) with (2 ^ 52 * 2 ^ 52 * 2 ^ 52 * 2 ^ 51);
        change (2 ^ 52) with (2 ^ 51 * 2) at 4; ring).
  replace ((2 ^ 52 - 1) * ((2 ^ 52 - 1) * ih * ((2 ^ 52 - 1) * ((2 ^ 52 - 1) * w))))
    with ((2 ^ 52 - 1) * (2 ^ 52 - 1) * (2 ^ 52 - 1) * (2 ^ 52 - 1) * (w * ih)) by ring.
  apply Z.mul_le_mono_nonneg; [lia|vm_compute; discriminate|lia|exact Hasp].
Qed.

(** Lines 89-93 of [letterbox_image]: the scaled size is never larger than
    the target size, and it has no empty side when the aspect ratio of the
    image is at most half the target's side. *)
Lemma scaled_size_fits (iw ih w h : Z) :
  0 < iw < 2 ^ 31 → 0 < ih < 2 ^ 31 → 0 < w < 2 ^ 31 → 0 < h < 2 ^ 31 →
  ∃ nw nh, scaled_size (iw, ih) (w, h) = Ok (nw, nh) ∧ 0 ≤ nw ≤ w ∧ 0 ≤ nh ≤ h ∧
    (2 ≤ w → 2 ≤ h → 2 * iw ≤ w * ih → 2 * ih ≤ h * iw → 1 ≤ nw ∧ 1 ≤ nh).
Proof.
  intros Hiw Hih Hw Hh.
  destruct (truediv_normal w iw Hw Hiw) as (sw & Hsw & Nsw & Asw & Lsw).
  destruct (truediv_normal h ih Hh Hih) as (sh & Hsh & Nsh & Ash & Lsh).
  destruct (float_of_int_normal iw Hiw) as (fw & Hfw & Nfw & Afw & Lfw).
  destruct (float_of_int_normal ih Hih) as (fh & Hfh & Nfh & Afh & Lfh).
  destruct (py_min_at_most sw sh (-83) (-21)
              ((2 ^ 52 + 1) * w) (2 ^ 52 * iw) ((2 ^ 52 + 1) * h) (2 ^ 52 * ih)
              Nsw Nsh) as (Nsc & Ascw & Asch); [lia|lia|exact Asw|exact Ash|].
  destruct (scaled_side_fits iw w fw _ Hiw Hw Nfw Afw Nsc Ascw) as [Inw Bnw].
  destruct (scaled_side_fits ih h fh _ Hih Hh Nfh Afh Nsc Asch) as [Inh Bnh].
  eexists _, _. split; [|split; [exact Bnw|split; [exact Bnh|]]].
  - unfold scaled_size. rewrite Hsw. cbn [mbind result_bind]. rewrite Hsh.
    cbn [mbind result_bind]. rewrite Hfw. cbn [mbind result_bind]. rewrite Inw.
    cbn [mbind result_bind]. rewrite Hfh. cbn [mbind result_bind]. rewrite Inh.
    reflexivity.
  - intros Hw2 Hh2 Haw Hah.
    assert (Hmin : py_min sw sh = sw ∨ py_min sw sh = sh).
    { unfold py_min. destruct (SFltb sh sw); [right|left]; reflexivity. }
    destruct Hmin as [-> | ->]; split.
    + apply (scaled_side_positive iw iw w); try assumption. nia.
    + apply (scaled_side_positive iw ih w); assumption.
    + apply (scaled_side_positive ih iw h); assumption.
    + apply (scaled_side_positive ih ih h); try assumption. nia.
Qed.

(** A float of negative or zero exponent against its own value. *)
Lemma sf_exact (m : positive) (e : Z) :
  e ≤ 0 →
  sf_at_most (S754_finite false m e) (Zpos m) (2 ^ (- e)) ∧
  sf_at_least (S754_finite false m e) (Zpos m) (2 ^ (- e)).
Proof.
  intros He. cbn [sf_at_most sf_at_least].
  rewrite (Z.max_r e 0), (Z.max_l (- e) 0) by lia.
  change (2 ^ 0) with 1. lia.
Qed.

(** [int] of a float that is at least [n / d] is above [n / d - 1]. *)
Lemma trunc_above (f : float) (n d : Z) :
  0 < d → sf_at_least f n d → n < (trunc f + 1) * d.
Proof.
  intros Hd. destruct f as [| | |[] m e]; cbn [sf_at_least trunc]; try tauto.
  cbn [cond_Zopp]. destruct e as [|p|p].
  - change (Z.max 0 0) with 0. change (Z.max (- 0) 0) with 0.
    change (2 ^ 0) with 1. lia.
  - rewrite (Z.max_l (Zpos p) 0), (Z.max_r (- Zpos p) 0) by lia.
    change (2 ^ 0) with 1. lia.
  - rewrite (Z.max_r (Zneg p) 0), (Z.max_l (- Zneg p) 0) by lia.
    change (- Zneg p) with (Zpos p). change (2 ^ 0) with 1. intros Hle.
    pose proof (Z.pow_pos_nonneg 2 (Zpos p) ltac:(lia) ltac:(lia)) as Hp.
    rewrite Z.quot_div_nonneg by lia.
    pose proof (Z.div_mod (Zpos m) (2 ^ Zpos p) ltac:(lia)) as Hdm.
    pose proof (Z.mod_pos_bound (Zpos m) (2 ^ Zpos p) Hp) as Hr.
    set (P := 2 ^ Zpos p) in *. set (q := Zpos m / P) in *.
    assert (Hm : Zpos m < (q + 1) * P) by lia.
    apply (Z.mul_lt_mono_pos_r P); [exact Hp|].
    apply Z.le_lt_trans with (Zpos m * d); [lia|].
    replace ((q + 1) * d * P) with ((q + 1) * P * d) by ring.
    apply Z.mul_lt_mono_pos_r; assumption.
Qed.

(** [int(i * scale)] against the exact product of [i] and the value
    [mS * 2 ^ eS] of [scale]. *)
Lemma scaled_side_value (i : Z) (f : float) (mS : positive) (eS : Z) :
  0 < i < 2 ^ 31 →
  normal_in (-52) (-21) f →
  sf_at_most f ((2 ^ 52 + 1) * i) (2 ^ 52) →
  sf_at_least f ((2 ^ 52 - 1) * i) (2 ^ 52) →
  normal_in (-83) (-21) (S754_finite false mS eS) →
  let t := trunc (F64.mul f (S754_finite false mS eS)) in
  t * (2 ^ 104 * 2 ^ (- eS)) ≤ (2 ^ 52 + 1) * (2 ^ 52 + 1) * (i * Zpos mS) ∧
  (2 ^ 52 - 1) * (2 ^ 52 - 1) * (i * Zpos mS) < (t + 1) * (2 ^ 104 * 2 ^ (- eS)).
Proof.
  intros Hi Nf Af Lf Ns. cbv zeta.
  assert (HeS : eS ≤ 0) by (cbn [normal_in] in Ns; lia).
  destruct (sf_exact mS eS HeS) as [As Ls].
  assert (Hq : 0 < 2 ^ (- eS)) by (apply Z.pow_pos_nonneg; lia).
  set (Q := 2 ^ (- eS)) in *.
  assert (Hp52 : 0 < 2 ^ 52) by reflexivity.
  destruct (SFmul_normal f (S754_finite false mS eS) (-52) (-21) (-83) (-21)
              ((2 ^ 52 + 1) * i) (2 ^ 52) (Zpos mS) Q Nf Ns)
    as [Np Ap]; [lia|lia|lia|lia|exact Af|exact As|].
  pose proof (SFmul_at_least f (S754_finite false mS eS) (-52) (-21) (-83) (-21)
                ((2 ^ 52 - 1) * i) (2 ^ 52) (Zpos mS) Q Nf Ns
                ltac:(lia) ltac:(lia)) as Lp.
  specialize (Lp ltac:(lia) ltac:(lia) ltac:(lia) ltac:(lia) Lf Ls).
  apply trunc_at_most in Ap; [|lia|lia].
  apply trunc_above in Lp; [|lia].
  set (t := trunc (F64.mul f (S754_finite false mS eS))) in *.
  change (2 ^ 104) with (2 ^ 52 * 2 ^ 52).
  split.
  - replace (t * (2 ^ 52 * 2 ^ 52 * Q)) with (t * (2 ^ 52 * (2 ^ 52 * Q))) by ring.
    replace ((2 ^ 52 + 1) * (2 ^ 52 + 1) * (i * Zpos mS))
      with ((2 ^ 52 + 1) * ((2 ^ 52 + 1) * i * Zpos mS)) by ring.
    exact Ap.
  - replace ((t + 1) * (2 ^ 52 * 2 ^ 52 * Q))
      with ((t + 1) * (2 ^ 52 * (2 ^ 52 * Q))) by ring.
    replace ((2 ^ 52 - 1) * (2 ^ 52 - 1) * (i * Zpos mS))
      with ((2 ^ 52 - 1) * ((2 ^ 52 - 1) * i * Zpos mS)) by ring.
    exact Lp.
Qed.

(** Lines 89-93 of [letterbox_image]: the scaled size keeps the aspect ratio
    of the image, each side within one pixel of what the other side asks
    for, and it reaches the target on one side, up to one pixel. *)
Lemma scaled_size_aspect (iw ih w h : Z) :
  0 < iw < 2 ^ 31 → 0 < ih < 2 ^ 31 → 0 < w < 2 ^ 16 → 0 < h < 2 ^ 16 →
  ∃ nw nh, scaled_size (iw, ih) (w, h) = Ok (nw, nh) ∧
    - ih ≤ nw * ih - nh * iw ≤ iw ∧
    (w - 1 ≤ nw ∨ h - 1 ≤ nh).
Proof.
  intros Hiw Hih Hw Hh.
  assert (Hw31 : 0 < w < 2 ^ 31) by lia. assert (Hh31 : 0 < h < 2 ^ 31) by lia.
  destruct (truediv_normal w iw Hw31 Hiw) as (sw & Hsw & Nsw & Asw & Lsw).
  destruct (truediv_normal h ih Hh31 Hih) as (sh & Hsh & Nsh & Ash & Lsh).
  destruct (float_of_int_normal iw Hiw) as (fw & Hfw & Nfw & Afw & Lfw).
  destruct (float_of_int_normal ih Hih) as (fh & Hfh & Nfh & Afh & Lfh).
  destruct (py_min_at_most sw sh (-83) (-21)
              ((2 ^ 52 + 1) * w) (2 ^ 52 * iw) ((2 ^ 52 + 1) * h) (2 ^ 52 * ih)
              Nsw Nsh) as (Nsc & Ascw & Asch); [lia|lia|exact Asw|exact Ash|].
  assert (Hmin : py_min sw sh = sw ∨ py_min sw sh = sh).
  { unfold py_min. destruct (SFltb sh sw); [right|left]; reflexivity. }
  destruct (scaled_side_fits iw w fw _ Hiw Hw31 Nfw Afw Nsc Ascw) as [Inw _].
  destruct (scaled_side_fits ih h fh _ Hih Hh31 Nfh Afh Nsc Asch) as [Inh _].
  eexists _, _. split.
  { unfold scaled_size. rewrite Hsw. cbn [mbind result_bind]. rewrite Hsh.
    cbn [mbind result_bind]. rewrite Hfw. cbn [mbind result_bind]. rewrite Inw.
    cbn [mbind result_bind]. rewrite Hfh. cbn [mbind result_bind]. rewrite Inh.
    reflexivity. }
  destruct (py_min sw sh) as [| | |[] mS eS] eqn:Hsc; cbn [normal_in] in Nsc;
    try tauto.
  assert (Ns : normal_in (-83) (-21) (S754_finite false mS eS)) by exact Nsc.
  destruct (scaled_side_value iw fw mS eS Hiw Nfw Afw Lfw Ns) as [Uw Lw].
  destruct (scaled_side_value ih fh mS eS Hih Nfh Afh Lfh Ns) as [Uh Lh].
  set (nw := trunc (F64.mul fw (S754_finite false mS eS))) in *.
  set (nh := trunc (F64.mul fh (S754_finite false mS eS))) in *.
  assert (Hq : 0 < 2 ^ (- eS)) by (apply Z.pow_pos_nonneg; lia).
  pose proof (sf_at_most_elim _ _ _ _ (- eS) Ascw ltac:(lia) ltac:(lia)) as Bw.
  replace (eS + - eS) with 0 in Bw by lia. change (2 ^ 0) with 1 in Bw.
  set (Q := 2 ^ (- eS)) in *.
  set (T := iw * ih * Zpos mS).
  assert (HT : 2 ^ 52 * T < 2 ^ 100 * Q).
  { apply Z.le_lt_trans with ((2 ^ 52 + 1) * w * Q * ih).
    - replace (2 ^ 52 * T) with (Zpos mS * 1 * (2 ^ 52 * iw) * ih) by (unfold T; ring).
      apply Z.mul_le_mono_nonneg_r; [lia|exact Bw].
    - replace ((2 ^ 52 + 1) * w * Q * ih) with ((2 ^ 52 + 1) * (w * ih) * Q) by ring.
      apply Z.mul_lt_mono_pos_r; [exact Hq|].
      assert (w * ih < 2 ^ 16 * 2 ^ 31) by (apply Z.mul_lt_mono_nonneg; lia).
      change (2 ^ 100) with (2 ^ 53 * (2 ^ 16 * 2 ^ 31)).
      apply Z.le_lt_trans with (2 ^ 53 * (w * ih)).
      + apply Z.mul_le_mono_nonneg_r; lia.
      + apply Z.mul_lt_mono_pos_l; [reflexivity|assumption]. }
  set (D := 2 ^ 104 * Q) in *.
  assert (HD : 0 < D) by (unfold D; lia).
  assert (Hgap : (2 ^ 52 + 1) * (2 ^ 52 + 1) * T
                 < (2 ^ 52 - 1) * (2 ^ 52 - 1) * T + D).
  { unfold D. change (2 ^ 104) with (2 ^ 4 * 2 ^ 100). lia. }
  assert (HUw : nw * ih * D ≤ (2 ^ 52 + 1) * (2 ^ 52 + 1) * T).
  { replace (nw * ih * D) with (nw * D * ih) by ring.
    replace ((2 ^ 52 + 1) * (2 ^ 52 + 1) * T)
      with ((2 ^ 52 + 1) * (2 ^ 52 + 1) * (iw * Zpos mS) * ih) by (unfold T; ring).
    apply Z.mul_le_mono_nonneg_r; [lia|exact Uw]. }
  assert (HUh : nh * iw * D ≤ (2 ^ 52 + 1) * (2 ^ 52 + 1) * T).
  { replace (nh * iw * D) with (nh * D * iw) by ring.
    replace ((2 ^ 52 + 1) * (2 ^ 52 + 1) * T)
      with ((2 ^ 52 + 1) * (2 ^ 52 + 1) * (ih * Zpos mS) * iw) by (unfold T; ring).
    apply Z.mul_le_mono_nonneg_r; [lia|exact Uh]. }
  assert (HLw : (2 ^ 52 - 1) * (2 ^ 52 - 1) * T < (nw + 1) * ih * D).
  { replace ((nw + 1) * ih * D) with ((nw + 1) * D * ih) by ring.
    replace ((2 ^ 52 - 1) * (2 ^ 52 - 1) * T)
      with ((2 ^ 52 - 1) * (2 ^ 52 - 1) * (iw * Zpos mS) * ih) by (unfold T; ring).
    apply Z.mul_lt_mono_pos_r; [lia|exact Lw]. }
  assert (HLh : (2 ^ 52 - 1) * (2 ^ 52 - 1) * T < (nh + 1) * iw * D).
  { replace ((nh + 1) * iw * D) with ((nh + 1) * D * iw) by ring.
    replace ((2 ^ 52 - 1) * (2 ^ 52 - 1) * T)
      with ((2 ^ 52 - 1) * (2 ^ 52 - 1) * (ih * Zpos mS) * iw) by (unfold T; ring).
    apply Z.mul_lt_mono_pos_r; [lia|exact Lh]. }
  split; [split|].
  - destruct (Z.le_gt_cases (nh * iw) (nw * ih + ih)) as [|Hgt]; [lia|exfalso].
    assert (((nw + 1) * ih + 1) * D ≤ nh * iw * D)
      by (apply Z.mul_le_mono_nonneg_r; lia).
    lia.
  - destruct (Z.le_gt_cases (nw * ih) (nh * iw + iw)) as [|Hgt]; [lia|exfalso].
    assert (((nh + 1) * iw + 1) * D ≤ nw * ih * D)
      by (apply Z.mul_le_mono_nonneg_r; lia).
    lia.
  - assert (Hfill : ∀ i t n,
              0 < i → 0 < t < 2 ^ 16 →
              sf_at_least (S754_finite false mS eS)
                ((2 ^ 52 - 1) * ((2 ^ 52 - 1) * t)) (2 ^ 52 * (2 ^ 52 * i)) →
              (2 ^ 52 - 1) * (2 ^ 52 - 1) * (i * Zpos mS) < (n + 1) * D →
              t - 1 ≤ n).
    { intros i t n Hi Ht Hleast Hlow.
      apply (sf_at_least_scaled _ _ _ _ (- eS)) in Hleast; [|lia|lia].
      replace (eS + - eS) with 0 in Hleast by lia. change (2 ^ 0) with 1 in Hleast.
      fold Q in Hleast.
      destruct (Z.le_gt_cases (t - 1) n) as [|Hgt]; [assumption|exfalso].
      set (c := (2 ^ 52 - 1) * (2 ^ 52 - 1)) in *.
      assert (Hc : 0 < c) by reflexivity.
      assert (H1 : c * (c * t * Q) ≤ c * (Zpos mS * (2 ^ 104 * i))).
      { apply Z.mul_le_mono_nonneg_l; [lia|].
        replace (c * t * Q) with ((2 ^ 52 - 1) * ((2 ^ 52 - 1) * t) * Q)
          by (unfold c; ring).
        replace (Zpos mS * (2 ^ 104 * i)) with (Zpos mS * 1 * (2 ^ 52 * (2 ^ 52 * i)))
          by (change (2 ^ 104) with (2 ^ 52 * 2 ^ 52); ring).
        exact Hleast. }
      assert (H2 : c * (Zpos mS * (2 ^ 104 * i)) < 2 ^ 104 * ((n + 1) * D)).
      { replace (c * (Zpos mS * (2 ^ 104 * i))) with (2 ^ 104 * (c * (i * Zpos mS)))
          by ring.
        apply Z.mul_lt_mono_pos_l; [reflexivity|exact Hlow]. }
      assert (H3 : 2 ^ 104 * ((n + 1) * D) ≤ 2 ^ 104 * ((t - 1) * D)).
      { apply Z.mul_le_mono_nonneg_l; [lia|].
        apply Z.mul_le_mono_nonneg_r; lia. }
      assert (H4 : c * c * t * Q < 2 ^ 208 * (t - 1) * Q).
      { replace (c * c * t * Q) with (c * (c * t * Q)) by ring.
        replace (2 ^ 208 * (t - 1) * Q) with (2 ^ 104 * ((t - 1) * D))
          by (unfold D; change (2 ^ 208) with (2 ^ 104 * 2 ^ 104); ring).
        lia. }
      apply Z.mul_lt_mono_pos_r in H4; [|exact Hq].
      assert (Hcc : 2 ^ 208 - 2 ^ 158 ≤ c * c) by (vm_compute; discriminate).
      assert (Ht' : 2 ^ 158 * t < 2 ^ 208).
      { apply Z.lt_le_trans with (2 ^ 158 * 2 ^ 16).
        - apply Z.mul_lt_mono_pos_l; [reflexivity|lia].
        - vm_compute. discriminate. }
      assert ((2 ^ 208 - 2 ^ 158) * t ≤ c * c * t)
        by (apply Z.mul_le_mono_nonneg_r; lia).
      lia. }
    destruct Hmin as [Hm|Hm].
    + left. rewrite <- Hm in Lsw. apply (Hfill iw w nw); [lia|lia|exact Lsw|exact Lw].
    + right. rewrite <- Hm in Lsh. apply (Hfill ih h nh); [lia|lia|exact Lsh|exact Lh].
Qed.

(** A binary32 number in [[0, 1]] is a zero or [m * 2 ^ e] with
    [m ≤ 2 ^ (- e)]. *)
Lemma unit_float32 (s : float) :
  valid_binary 24 128 s = true → in_unit_interval s = true →
  (∃ sg, s = S754_zero sg) ∨
  (∃ m e, s = S754_finite false m e ∧ Zdigits2 (Zpos m) ≤ 24 ∧
          -149 ≤ e ≤ -23 ∧ Zpos m ≤ 2 ^ (- e)).
Proof.
  unfold in_unit_interval.
  change (F32.of_Z 1) with (S754_finite false 8388608 (-23)).
  destruct s as [sg|sg| |sg m e]; cbn [valid_binary]; intros Hvalid Hunit.
  - left. exists sg. reflexivity.
  - destruct sg; discriminate.
  - discriminate.
  - right. destruct sg; [discriminate|].
    unfold bounded, canonical_mantissa, fexp, emin in Hvalid.
    apply andb_true_iff in Hvalid as [Hcan _]. apply Z.eqb_eq in Hcan.
    change (Zpos (digits2_pos m)) with (Zdigits2 (Zpos m)) in Hcan.
    pose proof (Zdigits2_bounds (Zpos m) ltac:(lia)) as Hb.
    set (d := Zdigits2 (Zpos m)) in *.
    assert (Hd : d ≤ 24 ∧ -149 ≤ e) by lia.
    assert (Hm24 : Zpos m < 2 ^ 24).
    { apply Z.lt_le_trans with (2 ^ d); [lia|]. apply Z.pow_le_mono_r; lia. }
    cbn [andb SFleb SFcompare] in Hunit.
    destruct (Z.compare_spec e (-23)) as [Heq|Hlt|Hgt]; [| |discriminate].
    + exists m, e. repeat split; try lia. subst e.
      change (2 ^ (- -23)) with 8388608.
      destruct (Pos.compare_cont Eq m 8388608) eqn:Hc; [| |discriminate].
      * apply Pos.compare_eq in Hc. rewrite Hc. apply Z.le_refl.
      * apply Z.lt_le_incl. exact Hc.
    + exists m, e. repeat split; try lia.
      apply Z.le_trans with (2 ^ 24); [lia|]. apply Z.pow_le_mono_r; lia.
Qed.

(** [int(100 * score)] for a binary32 score in [[0, 1]]. *)
Lemma percent_unit (s : float) :
  valid_binary 24 128 s = true → in_unit_interval s = true →
  py_int (F64.mul (F64.of_Z 100) (F64.of_float s)) = Ok (percent s) ∧
  0 ≤ percent s ≤ 100.
Proof.
  intros Hvalid Hunit. unfold percent.
  assert (H100 : F64.of_Z 100 = S754_finite false 7036874417766400 (-46))
    by (vm_compute; reflexivity).
  destruct (unit_float32 s Hvalid Hunit) as [[sg ->]|(m & e & -> & Hd & He & Hm)].
  - rewrite H100. cbn. split; [reflexivity|lia].
  - assert (Hd1 : 1 ≤ Zdigits2 (Zpos m)) by (simpl; lia).
    unfold F64.of_float, binary_normalize. cbn [cond_Zopp].
    change F64.prec with 53. change F64.emax with 1024.
    destruct (binary_round_normal m e ltac:(lia) ltac:(lia) ltac:(lia))
      as (m3 & e3 & -> & Hm3 & He3 & Hval & _).
    set (d := Zdigits2 (Zpos m)) in *.
    assert (N100 : normal_in (-46) (-46) (F64.of_Z 100)).
    { rewrite H100. cbn [normal_in]. split; [split; [|reflexivity]|lia].
      vm_compute. discriminate. }
    assert (A100 : sf_at_most (F64.of_Z 100) 100 1).
    { rewrite H100. vm_compute. discriminate. }
    assert (Ns : normal_in (-201) (-51) (S754_finite false m3 e3))
      by (cbn [normal_in]; lia).
    assert (As : sf_at_most (S754_finite false m3 e3) (2 ^ 52 + 1) (2 ^ 52)).
    { apply (sf_at_most_intro _ _ _ _ (53 - d - e)); [lia|lia|].
      replace (e3 + (53 - d - e)) with (e3 - (d + e - 53)) by lia.
      set (V := Zpos m3 * 2 ^ (e3 - (d + e - 53))) in *.
      replace (53 - d - e) with (- e + (53 - d)) by lia.
      rewrite Z.pow_add_r by lia.
      pose proof (Z.pow_pos_nonneg 2 (53 - d) ltac:(lia) ltac:(lia)) as Hp.
      apply Z.le_trans with ((2 ^ 52 + 1) * (Zpos m * 2 ^ (53 - d))); [lia|].
      apply Z.mul_le_mono_nonneg_l; [lia|].
      apply Z.mul_le_mono_nonneg_r; lia. }
    destruct (SFmul_normal (F64.of_Z 100) (S754_finite false m3 e3)
                (-46) (-46) (-201) (-51) 100 1 (2 ^ 52 + 1) (2 ^ 52) N100 Ns)
      as [Np Ap]; [lia|lia|lia|lia|exact A100|exact As|].
    destruct (py_int_normal _ _ _ Np) as [Hint Hnn].
    split; [exact Hint|]. split; [exact Hnn|].
    apply trunc_at_most in Ap; [|lia|lia].
    set (t := trunc (F64.mul (F64.of_Z 100) (S754_finite false m3 e3))) in *.
    lia.
Qed.


(** ** Letterbox *)

Lemma resize_size bicubic (image resized : Image) (size : Z * Z) :
  resize bicubic image size = Ok resized → im_size resized = size.
Proof.
  unfold resize. repeat case_bool_decide; intros Heq; inversion Heq; subst;
    auto.
Qed.

(** What [letterbox_image] returns, when it returns, for sizes in Pillow's
    range. *)
Lemma letterbox_image_Ok (bicubic : Image → Z * Z → Z → Z → rgb)
    (image boxed : Image) (iw ih w h : Z) :
  im_size image = (iw, ih) →
  0 < iw < 2 ^ 31 → 0 < ih < 2 ^ 31 → 0 < w < 2 ^ 31 → 0 < h < 2 ^ 31 →
  letterbox_image bicubic image (w, h) = Ok boxed →
  ∃ nw nh resized,
    scaled_size (iw, ih) (w, h) = Ok (nw, nh) ∧
    1 ≤ nw ≤ w ∧ 1 ≤ nh ≤ h ∧
    resize bicubic image (nw, nh) = Ok resized ∧
    im_size resized = (nw, nh) ∧
    boxed = paste (plain (w, h) gray) resized
                  ((w - nw) `div` 2, (h - nh) `div` 2).
Proof.
  intros Hsize Hiw Hih Hw Hh.
  destruct (scaled_size_fits iw ih w h Hiw Hih Hw Hh)
    as (nw & nh & Hss & Hnw & Hnh & _).
  unfold letterbox_image. rewrite Hsize, Hss. cbn [mbind result_bind].
  destruct (resize_result bicubic image nw nh) as [Hbad _];
    [rewrite Hsize; cbn; lia..|].
  destruct (resize bicubic image (nw, nh)) as [resized|e] eqn:Hres; [|discriminate].
  cbn [mbind result_bind]. unfold Image_new.
  rewrite bool_decide_eq_false_2 by (cbn; lia).
  cbn [mbind result_bind]. intros Heq. inversion Heq; subst; clear Heq.
  assert (H1 : ¬ (nw < 1 ∨ nh < 1)).
  { intros Hsmall. discriminate (Hbad Hsmall). }
  exists nw, nh, resized.
  split; [reflexivity|]. split; [lia|]. split; [lia|].
  split; [exact Hres|]. split; [exact (resize_size _ _ _ _ Hres)|reflexivity].
Qed.

Lemma centred_offset (w nw : Z) :
  0 ≤ nw ≤ w →
  0 ≤ (w - nw) `div` 2 ∧ (w - nw) `div` 2 + nw ≤ w ∧
  (w - nw) `div` 2 ≤ w - nw - (w - nw) `div` 2 ≤ (w - nw) `div` 2 + 1.
Proof.
  intros Hnw. pose proof (Z.div_mod (w - nw) 2 ltac:(lia)) as Hdm.
  pose proof (Z.mod_pos_bound (w - nw) 2 ltac:(lia)). lia.
Qed.

(** X4 — Layout of the letterboxed image.  Whenever [letterbox_image]
    returns (sizes in Pillow's range), the image it returns has exactly the
    target size, and the resized image, of size [(nw, nh)] with
    [1 ≤ nw ≤ w] and [1 ≤ nh ≤ h], lies entirely inside it: it is centred,
    the margins on two opposite sides differing by at most one pixel, and
    every pixel outside it is the gray (128, 128, 128). *)
Theorem letterbox_layout (bicubic : Image → Z * Z → Z → Z → rgb)
    (image boxed : Image) (iw ih w h : Z) :
  im_size image = (iw, ih) →
  0 < iw < 2 ^ 31 → 0 < ih < 2 ^ 31 → 0 < w < 2 ^ 31 → 0 < h < 2 ^ 31 →
  letterbox_image bicubic image (w, h) = Ok boxed →
  im_size boxed = (w, h) ∧
  ∃ nw nh resized,
    scaled_size (iw, ih) (w, h) = Ok (nw, nh) ∧
    resize bicubic image (nw, nh) = Ok resized ∧
    im_size resized = (nw, nh) ∧
    1 ≤ nw ≤ w ∧ 1 ≤ nh ≤ h ∧
    let dx := (w - nw) `div` 2 in
    let dy := (h - nh) `div` 2 in
    0 ≤ dx ∧ dx + nw ≤ w ∧ dx ≤ w - nw - dx ≤ dx + 1 ∧
    0 ≤ dy ∧ dy + nh ≤ h ∧ dy ≤ h - nh - dy ≤ dy + 1 ∧
    ∀ x y,
      im_getpixel boxed x y =
        if bool_decide (dx ≤ x < dx + nw ∧ dy ≤ y < dy + nh)
        then im_getpixel resized (x - dx) (y - dy)
        else gray.
Proof.
  intros Hsize Hiw Hih Hw Hh Hbox.
  destruct (letterbox_image_Ok _ _ _ _ _ _ _ Hsize Hiw Hih Hw Hh Hbox)
    as (nw & nh & resized & Hss & Hnw & Hnh & Hres & Hrsize & ->).
  split; [reflexivity|]. exists nw, nh, resized.
  split; [exact Hss|]. split; [exact Hres|]. split; [exact Hrsize|].
  split; [exact Hnw|]. split; [exact Hnh|].
  pose proof (centred_offset w nw ltac:(lia)) as (Hx0 & Hx1 & Hx2).
  pose proof (centred_offset h nh ltac:(lia)) as (Hy0 & Hy1 & Hy2).
  cbv zeta.
  split; [exact Hx0|]. split; [exact Hx1|]. split; [exact Hx2|].
  split; [exact Hy0|]. split; [exact Hy1|]. split; [exact Hy2|].
  intros x y. cbn [paste im_getpixel fst snd]. rewrite Hrsize. reflexivity.
Qed.

Lemma letterbox_layout_witness :
  let image := plain (832, 416) red in
  let boxed := paste (plain (416, 416) gray) (mkImage (416, 208) (nearest image (416, 208)))
                     (0, 104) in
  letterbox_image nearest image (416, 416) = Ok boxed ∧
  scaled_size (832, 416) (416, 416) = Ok (416, 208) ∧
  im_size boxed = (416, 416) ∧
  ∃ nw nh resized,
    scaled_size (832, 416) (416, 416) = Ok (nw, nh) ∧
    resize nearest image (nw, nh) = Ok resized ∧
    im_size resized = (nw, nh) ∧
    1 ≤ nw ≤ 416 ∧ 1 ≤ nh ≤ 416 ∧
    let dx := (416 - nw) `div` 2 in
    let dy := (416 - nh) `div` 2 in
    0 ≤ dx ∧ dx + nw ≤ 416 ∧ dx ≤ 416 - nw - dx ≤ dx + 1 ∧
    0 ≤ dy ∧ dy + nh ≤ 416 ∧ dy ≤ 416 - nh - dy ≤ dy + 1 ∧
    ∀ x y,
      im_getpixel boxed x y =
        if bool_decide (dx ≤ x < dx + nw ∧ dy ≤ y < dy + nh)
        then im_getpixel resized (x - dx) (y - dy)
        else gray.
Proof.
  intros image boxed.
  assert (Hss : scaled_size (832, 416) (416, 416) = Ok (416, 208))
    by (vm_compute; reflexivity).
  assert (Hbox : letterbox_image nearest image (416, 416) = Ok boxed).
  { unfold letterbox_image. change (im_size image) with (832, 416).
    rewrite Hss. reflexivity. }
  split; [exact Hbox|]. split; [exact Hss|].
  exact (letterbox_layout nearest image boxed 832 416 416 416 eq_refl
           ltac:(lia) ltac:(lia) ltac:(lia) ltac:(lia) Hbox).
Defined.

Lemma normalized_plane_ext (a b : Image) (k : nat) :
  im_size a = im_size b →
  (∀ x y, 0 ≤ x < (im_size a).1 → 0 ≤ y < (im_size a).2 →
          im_getpixel a x y = im_getpixel b x y) →
  normalized_plane a k = normalized_plane b k.
Proof.
  intros Hsize Hpx. unfold normalized_plane. rewrite <- Hsize.
  apply map_ext_in. intros y Hy. apply map_ext_in. intros x Hx.
  unfold range in Hx, Hy. apply in_map_iff in Hx as (i & <- & Hi).
  apply in_map_iff in Hy as (j & <- & Hj).
  apply in_seq in Hi, Hj. rewrite Hpx by lia. reflexivity.
Qed.

Lemma scaled_size_model : scaled_size (416, 416) (416, 416) = Ok (416, 416).
Proof. vm_compute. reflexivity. Qed.

(** X5 — An image that already has the model's size passes through.  For a
    416 x 416 image [resize] makes a copy, the paste covers the whole canvas,
    and [transform] returns the image's own bytes divided by 255, whatever
    the resampling filter is: no resampling and no padding. *)
Theorem transform_model_size (bicubic : Image → Z * Z → Z → Z → rgb)
    (image : Image) :
  im_size image = (416, 416) →
  letterbox_image bicubic image (416, 416)
    = Ok (paste (plain (416, 416) gray) image (0, 0)) ∧
  transform bicubic image
    = Ok [[normalized_plane image 0; normalized_plane image 1;
           normalized_plane image 2]].
Proof.
  intros Hsize.
  assert (Hbox : letterbox_image bicubic image (416, 416)
                 = Ok (paste (plain (416, 416) gray) image (0, 0))).
  { unfold letterbox_image. rewrite Hsize, scaled_size_model.
    cbn [mbind result_bind]. unfold resize.
    rewrite bool_decide_eq_true_2 by exact Hsize. reflexivity. }
  split; [exact Hbox|].
  rewrite (transform_of_boxed _ _ _ Hbox eq_refl).
  assert (Hplane : ∀ k, normalized_plane (paste (plain (416, 416) gray) image (0, 0)) k
                        = normalized_plane image k).
  { intros k. apply normalized_plane_ext; [symmetry; exact Hsize|].
    intros x y Hx Hy. cbn in Hx, Hy. cbn [paste im_getpixel fst snd].
    rewrite Hsize. cbn [fst snd].
    rewrite bool_decide_eq_true_2 by lia. f_equal; lia. }
  rewrite !Hplane. reflexivity.
Qed.

Lemma transform_model_size_witness :
  let image := plain (416, 416) red in
  im_size image = (416, 416) ∧
  letterbox_image nearest image (416, 416)
    = Ok (paste (plain (416, 416) gray) image (0, 0)) ∧
  transform nearest image
    = Ok [[normalized_plane image 0; normalized_plane image 1;
           normalized_plane image 2]].
Proof.
  intros image. split; [reflexivity|].
  exact (transform_model_size nearest image eq_refl).
Defined.

Lemma tensor_of_boxed (boxed : Image) :
  im_size boxed = (416, 416) →
  has_shape4 1 3 416 416
    [[normalized_plane boxed 0; normalized_plane boxed 1; normalized_plane boxed 2]] ∧
  all_in_unit_interval
    [[normalized_plane boxed 0; normalized_plane boxed 1; normalized_plane boxed 2]] ∧
  ∀ c y x : nat, (c < 3)%nat → (y < 416)%nat → (x < 416)%nat →
    entry4 [[normalized_plane boxed 0; normalized_plane boxed 1;
             normalized_plane boxed 2]] 0 c y x
    = Some (F32.div (float32_of_byte
              (channel (im_getpixel boxed (Z.of_nat x) (Z.of_nat y)) c))
              (F32.of_Z 255)).
Proof.
  intros Hbsize.
  assert (Hshape : ∀ k, length (normalized_plane boxed k) = 416%nat ∧
                        Forall (fun r => length r = 416%nat) (normalized_plane boxed k)).
  { intros k. pose proof (normalized_plane_shape boxed k) as Hs.
    rewrite Hbsize in Hs. exact Hs. }
  split; [|split].
  - split; [reflexivity|].
    constructor; [|constructor].
    split; [reflexivity|].
    constructor; [|constructor; [|constructor; [|constructor]]]; apply Hshape.
  - constructor; [|constructor].
    constructor; [|constructor; [|constructor; [|constructor]]];
      apply normalized_plane_unit.
  - intros c y x Hc Hy Hx.
    destruct c as [|[|[|c]]]; try lia; unfold entry4;
      cbn [lookup list_lookup mbind option_bind];
      apply normalized_plane_lookup; rewrite Hbsize; cbn; lia.
Qed.

(** X6 — Padding in the tensor.  Whenever [transform] returns, the cells of
    its tensor outside the centred box of the resized image hold 128/255 (in
    binary32) in all three channels, the cells inside hold the bytes of the
    resized image divided by 255, and the box lies inside the 416 x 416
    plane. *)
Theorem transform_padding (bicubic : Image → Z * Z → Z → Z → rgb)
    (image : Image) (iw ih : Z) (t : list (list (list (list float)))) :
  im_size image = (iw, ih) → 0 < iw < 2 ^ 31 → 0 < ih < 2 ^ 31 →
  transform bicubic image = Ok t →
  ∃ nw nh resized,
    scaled_size (iw, ih) (416, 416) = Ok (nw, nh) ∧
    resize bicubic image (nw, nh) = Ok resized ∧
    1 ≤ nw ≤ 416 ∧ 1 ≤ nh ≤ 416 ∧
    ∀ c y x : nat, (c < 3)%nat → (y < 416)%nat → (x < 416)%nat →
      entry4 t 0 c y x =
        Some (if bool_decide
                   ((416 - nw) `div` 2 ≤ Z.of_nat x < (416 - nw) `div` 2 + nw ∧
                    (416 - nh) `div` 2 ≤ Z.of_nat y < (416 - nh) `div` 2 + nh)
              then F32.div (float32_of_byte
                     (channel (im_getpixel resized
                                 (Z.of_nat x - (416 - nw) `div` 2)
                                 (Z.of_nat y - (416 - nh) `div` 2)) c))
                     (F32.of_Z 255)
              else F32.div (F32.of_Z 128) (F32.of_Z 255)).
Proof.
  intros Hsize Hiw Hih Ht.
  destruct (letterbox_image bicubic image (416, 416)) as [boxed|e] eqn:Hbox.
  - destruct (letterbox_image_Ok bicubic image boxed iw ih 416 416 Hsize Hiw Hih
                ltac:(lia) ltac:(lia) Hbox)
      as (nw & nh & resized & Hss & Hnw & Hnh & Hres & Hrsize & Hboxed).
    assert (Hbsize : im_size boxed = (416, 416)) by (rewrite Hboxed; reflexivity).
    rewrite (transform_of_boxed _ _ _ Hbox Hbsize) in Ht.
    inversion Ht; subst t; clear Ht.
    exists nw, nh, resized. split; [exact Hss|]. split; [exact Hres|].
    split; [exact Hnw|]. split; [exact Hnh|].
    intros c y x Hc Hy Hx.
    rewrite (proj2 (proj2 (tensor_of_boxed boxed Hbsize)) c y x Hc Hy Hx).
    rewrite Hboxed. cbn [paste im_getpixel fst snd]. rewrite Hrsize. cbn [fst snd].
    f_equal. case_bool_decide; [reflexivity|].
    destruct c as [|[|[|c]]]; try lia; reflexivity.
  - unfold transform in Ht. cbn [fst snd] in Ht. rewrite Hbox in Ht. discriminate.
Qed.

Lemma transform_padding_witness :
  let image := plain (832, 416) red in
  ∃ t, transform nearest image = Ok t ∧
  scaled_size (832, 416) (416, 416) = Ok (416, 208) ∧
  ∃ nw nh resized,
    scaled_size (832, 416) (416, 416) = Ok (nw, nh) ∧
    resize nearest image (nw, nh) = Ok resized ∧
    1 ≤ nw ≤ 416 ∧ 1 ≤ nh ≤ 416 ∧
    ∀ c y x : nat, (c < 3)%nat → (y < 416)%nat → (x < 416)%nat →
      entry4 t 0 c y x =
        Some (if bool_decide
                   ((416 - nw) `div` 2 ≤ Z.of_nat x < (416 - nw) `div` 2 + nw ∧
                    (416 - nh) `div` 2 ≤ Z.of_nat y < (416 - nh) `div` 2 + nh)
              then F32.div (float32_of_byte
                     (channel (im_getpixel resized
                                 (Z.of_nat x - (416 - nw) `div` 2)
                                 (Z.of_nat y - (416 - nh) `div` 2)) c))
                     (F32.of_Z 255)
              else F32.div (F32.of_Z 128) (F32.of_Z 255)).
Proof.
  intros image.
  assert (Hss : scaled_size (832, 416) (416, 416) = Ok (416, 208))
    by (vm_compute; reflexivity).
  assert (Hbox : letterbox_image nearest image (416, 416)
                 = Ok (paste (plain (416, 416) gray)
                         (mkImage (416, 208) (nearest image (416, 208))) (0, 104))).
  { unfold letterbox_image. change (im_size image) with (832, 416).
    rewrite Hss. reflexivity. }
  eexists. split; [exact (transform_of_boxed _ _ _ Hbox eq_refl)|].
  split; [exact Hss|].
  exact (transform_padding nearest image 832 416 _ eq_refl ltac:(lia) ltac:(lia)
           (transform_of_boxed _ _ _ Hbox eq_refl)).
Defined.

(** X7 — When [transform] returns.  For an image with sides in Pillow's
    range whose aspect ratio is at most 208 to 1 either way, no step of
    [transform] raises: it returns a tensor of shape (1, 3, 416, 416) with
    every value in [[0, 1]]. *)
Theorem transform_returns (bicubic : Image → Z * Z → Z → Z → rgb)
    (image : Image) (iw ih : Z) :
  im_size image = (iw, ih) → 0 < iw < 2 ^ 31 → 0 < ih < 2 ^ 31 →
  iw ≤ 208 * ih → ih ≤ 208 * iw →
  ∃ t, transform bicubic image = Ok t ∧
       has_shape4 1 3 416 416 t ∧ all_in_unit_interval t.
Proof.
  intros Hsize Hiw Hih Hwide Htall.
  destruct (scaled_size_fits iw ih 416 416 Hiw Hih ltac:(lia) ltac:(lia))
    as (nw & nh & Hss & Hnw & Hnh & Hpos).
  destruct Hpos as [H1w H1h]; [lia..|].
  destruct (resize_result bicubic image nw nh) as [_ Hgood];
    [rewrite Hsize; cbn; lia..|].
  destruct (Hgood H1w H1h) as (resized & Hres & Hrsize).
  set (boxed := paste (plain (416, 416) gray) resized
                      ((416 - nw) `div` 2, (416 - nh) `div` 2)).
  assert (Hbox : letterbox_image bicubic image (416, 416) = Ok boxed).
  { unfold letterbox_image. rewrite Hsize, Hss. cbn [mbind result_bind].
    rewrite Hres. reflexivity. }
  assert (Hbsize : im_size boxed = (416, 416)) by reflexivity.
  eexists. split; [exact (transform_of_boxed _ _ _ Hbox Hbsize)|].
  destruct (tensor_of_boxed boxed Hbsize) as (Hshape & Hunit & _).
  split; assumption.
Qed.

Lemma transform_returns_witness :
  let image := plain (832, 4) red in
  im_size image = (832, 4) ∧ 832 ≤ 208 * 4 ∧
  scaled_size (832, 4) (416, 416) = Ok (416, 2) ∧
  ∃ t, transform nearest image = Ok t ∧
       has_shape4 1 3 416 416 t ∧ all_in_unit_interval t.
Proof.
  intros image. split; [reflexivity|]. split; [lia|].
  split; [vm_compute; reflexivity|].
  exact (transform_returns nearest image 832 4 eq_refl ltac:(lia) ltac:(lia)
           ltac:(lia) ltac:(lia)).
Defined.

(** X15 — Aspect ratio and fit.  Whenever [letterbox_image] returns (image
    sides in Pillow's range, target sides below 65536), the size [(nw, nh)]
    the image is resized to keeps its aspect ratio up to one pixel,
    [- ih ≤ nw * ih - nh * iw ≤ iw], and reaches the target on one side up to
    one pixel, [w - 1 ≤ nw] or [h - 1 ≤ nh]: the rounding of the binary64
    products never costs more than that. *)
Theorem letterbox_keeps_aspect (bicubic : Image → Z * Z → Z → Z → rgb)
    (image boxed : Image) (iw ih w h : Z) :
  im_size image = (iw, ih) →
  0 < iw < 2 ^ 31 → 0 < ih < 2 ^ 31 → 0 < w < 2 ^ 16 → 0 < h < 2 ^ 16 →
  letterbox_image bicubic image (w, h) = Ok boxed →
  ∃ nw nh resized,
    scaled_size (iw, ih) (w, h) = Ok (nw, nh) ∧
    resize bicubic image (nw, nh) = Ok resized ∧
    im_size resized = (nw, nh) ∧
    - ih ≤ nw * ih - nh * iw ≤ iw ∧
    (w - 1 ≤ nw ∨ h - 1 ≤ nh).
Proof.
  intros Hsize Hiw Hih Hw Hh Hbox.
  destruct (letterbox_image_Ok bicubic image boxed iw ih w h Hsize Hiw Hih
              ltac:(lia) ltac:(lia) Hbox)
    as (nw & nh & resized & Hss & _ & _ & Hres & Hrsize & _).
  destruct (scaled_size_aspect iw ih w h Hiw Hih Hw Hh)
    as (nw' & nh' & Hss' & Haspect & Hfill).
  assert (Heq : (nw', nh') = (nw, nh)) by congruence.
  inversion Heq; subst nw' nh'.
  exists nw, nh, resized.
  split; [exact Hss|]. split; [exact Hres|]. split; [exact Hrsize|].
  split; assumption.
Qed.

Lemma letterbox_keeps_aspect_witness :
  let image := plain (832, 416) red in
  let boxed := paste (plain (416, 416) gray) (mkImage (416, 208) (nearest image (416, 208)))
                     (0, 104) in
  letterbox_image nearest image (416, 416) = Ok boxed ∧
  scaled_size (832, 416) (416, 416) = Ok (416, 208) ∧
  ∃ nw nh resized,
    scaled_size (832, 416) (416, 416) = Ok (nw, nh) ∧
    resize nearest image (nw, nh) = Ok resized ∧
    im_size resized = (nw, nh) ∧
    - 416 ≤ nw * 416 - nh * 832 ≤ 832 ∧
    (416 - 1 ≤ nw ∨ 416 - 1 ≤ nh).
Proof.
  intros image boxed.
  assert (Hss : scaled_size (832, 416) (416, 416) = Ok (416, 208))
    by (vm_compute; reflexivity).
  assert (Hbox : letterbox_image nearest image (416, 416) = Ok boxed).
  { unfold letterbox_image. change (im_size image) with (832, 416).
    rewrite Hss. reflexivity. }
  split; [exact Hbox|]. split; [exact Hss|].
  exact (letterbox_keeps_aspect nearest image boxed 832 416 416 416 eq_refl
           ltac:(lia) ltac:(lia) ltac:(lia) ltac:(lia) Hbox).
Defined.


(** ** Renderer *)

Lemma py_int_Ok_trunc (f : float) (n : Z) : py_int f = Ok n → n = trunc f.
Proof. destruct f; cbn [py_int]; intros Heq; inversion Heq; reflexivity. Qed.

Lemma py_int_Err (f : float) (e : exn) :
  py_int f = Err e → e = ValueError ∨ e = OverflowError.
Proof. destruct f; cbn [py_int]; intros Heq; inversion Heq; auto. Qed.

Lemma display_string_Ok (class_ : string) (s : float) (str : string) :
  display_string class_ s = Ok str → str = label_text class_ s.
Proof.
  unfold display_string, label_text, percent.
  destruct (py_int (F64.mul (F64.of_Z 100) (F64.of_float s))) as [n|e] eqn:Hint;
    [|discriminate].
  apply py_int_Ok_trunc in Hint as ->. cbn. intros Heq. inversion Heq. reflexivity.
Qed.

(** A score that [int] rejects (a NaN or an infinity) is rejected in the
    label, with the same exception. *)
Lemma display_string_Err (class_ : string) (s : float) (e : exn) :
  py_int s = Err e → display_string class_ s = Err e.
Proof.
  assert (H100 : F64.of_Z 100 = S754_finite false 7036874417766400 (-46))
    by (vm_compute; reflexivity).
  unfold display_string. rewrite H100.
  destruct s as [sg|sg| |sg m ex]; cbn [py_int]; intros He; try discriminate.
  - cbn [F64.of_float F64.mul SFmul xorb py_int mbind result_bind]. congruence.
  - cbn [F64.of_float F64.mul SFmul xorb py_int mbind result_bind]. congruence.
Qed.

Lemma display_string_Err_kind (class_ : string) (s : float) (e : exn) :
  display_string class_ s = Err e → e ≠ IndexError.
Proof.
  unfold display_string.
  destruct (py_int (F64.mul (F64.of_Z 100) (F64.of_float s))) as [n|e'] eqn:Hint;
    [discriminate|].
  cbn. intros Heq. inversion Heq; subst.
  destruct (py_int_Err _ _ Hint) as [-> | ->]; discriminate.
Qed.

Lemma text_origin_Err_kind (xy : float * float) (e : exn) :
  text_origin xy = Err e → e ≠ IndexError.
Proof.
  unfold text_origin.
  destruct (py_int xy.1) as [x|e1] eqn:Hx.
  - cbn [mbind result_bind]. destruct (py_int xy.2) as [y|e2] eqn:Hy.
    + cbn [mbind result_bind]. case_bool_decide; [discriminate|].
      intros Heq. inversion Heq. discriminate.
    + cbn [mbind result_bind]. intros Heq. inversion Heq; subst.
      destruct (py_int_Err _ _ Hy) as [-> | ->]; discriminate.
  - cbn [mbind result_bind]. intros Heq. inversion Heq; subst.
    destruct (py_int_Err _ _ Hx) as [-> | ->]; discriminate.
Qed.

Lemma float_of_int_Err_kind (n : Z) (e : exn) :
  float_of_int n = Err e → e ≠ IndexError.
Proof.
  unfold float_of_int. destruct (F64.of_Z n); intros Heq; inversion Heq. discriminate.
Qed.

Lemma truediv_Err_kind (a b : Z) (e : exn) :
  truediv a b = Err e → e ≠ IndexError.
Proof.
  unfold truediv. case_bool_decide; [intros Heq; inversion Heq; discriminate|].
  destruct (SFdiv F64.prec F64.emax (SF_of_int a) (SF_of_int b));
    intros Heq; inversion Heq. discriminate.
Qed.

Lemma palette_index_range (hash : string → Z) (colors : list Color) (class_ : string) :
  colors ≠ [] →
  0 ≤ palette_index hash colors class_ < Z.of_nat (length colors).
Proof.
  intros Hne. unfold palette_index. apply Z.mod_pos_bound.
  destruct colors; [congruence|]. cbn [length]. lia.
Qed.

Section RenderingFacts.
Context {I : Type} `{Surface I}.
Variable getbbox : string → Z * Z * Z * Z.
Variable hash : string → Z.
Variable colors : list Color.

(** Reading a run of the monad backwards. *)
Lemma bind_Ok {A B} (m : M I A) (k : A → M I B) (w w' : World I) (b : B) :
  M_bind m k w = (Ok b, w') →
  ∃ a w1, m w = (Ok a, w1) ∧ k a w1 = (Ok b, w').
Proof. unfold M_bind. destruct (m w) as [[a|e] w1]; [eauto|discriminate]. Qed.

Lemma bind_Err {A B} (m : M I A) (k : A → M I B) (w w' : World I) (e : exn) :
  M_bind m k w = (Err e, w') →
  m w = (Err e, w') ∨ ∃ a w1, m w = (Ok a, w1) ∧ k a w1 = (Err e, w').
Proof.
  unfold M_bind. destruct (m w) as [[a|e'] w1]; intros Heq.
  - right. exists a, w1. split; [reflexivity|exact Heq].
  - left. inversion Heq. reflexivity.
Qed.

Lemma lift_bind {A B} (a : A) (k : A → M I B) (w : World I) :
  M_bind (lift (Ok a)) k w = k a w.
Proof. reflexivity. Qed.

Lemma lift_bind_Err {A B} (e : exn) (k : A → M I B) (w : World I) :
  M_bind (lift (Err e)) k w = (Err e, w).
Proof. reflexivity. Qed.

Lemma lift_inv {A} (r r' : result A) (w w' : World I) :
  lift r w = (r', w') → r = r' ∧ w' = w.
Proof. unfold lift. intros Heq. inversion Heq. auto. Qed.

Lemma with_object_lookup (r : nat) (img : I) (w : World I) :
  objects (with_object r img w) !! r = Some img.
Proof. apply lookup_insert_eq. Qed.

Lemma with_object_twice (r : nat) (a b : I) (w : World I) :
  with_object r b (with_object r a w) = with_object r b w.
Proof. unfold with_object. cbn. rewrite insert_insert_eq. reflexivity. Qed.

Lemma with_object_id (r : nat) (img : I) (w : World I) :
  objects w !! r = Some img → with_object r img w = w.
Proof.
  intros Hobj. unfold with_object. rewrite insert_id by exact Hobj.
  destruct w; reflexivity.
Qed.

Lemma modify_Ok (r : nat) (f : I → I) (w w' : World I) (u : unit) :
  modify r f w = (Ok u, w') →
  ∃ img, objects w !! r = Some img ∧ w' = with_object r (f img) w.
Proof.
  unfold modify. destruct (objects w !! r) as [img|]; [|discriminate].
  intros Heq. inversion Heq. eauto.
Qed.

Lemma modify_Err_kind (r : nat) (f : I → I) (w w' : World I) (e : exn) :
  modify r f w = (Err e, w') → e ≠ IndexError.
Proof.
  unfold modify. destruct (objects w !! r); intros Heq; inversion Heq. discriminate.
Qed.

Lemma read_Ok {A} (r : nat) (f : I → A) (w w' : World I) (a : A) :
  read r f w = (Ok a, w') →
  ∃ img, objects w !! r = Some img ∧ a = f img ∧ w' = w.
Proof.
  unfold read. destruct (objects w !! r) as [img|]; [|discriminate].
  intros Heq. inversion Heq. eauto.
Qed.

Lemma read_Err_kind {A} (r : nat) (f : I → A) (w w' : World I) (e : exn) :
  read r f w = (Err e, w') → e ≠ IndexError.
Proof.
  unfold read. destruct (objects w !! r); intros Heq; inversion Heq. discriminate.
Qed.

Lemma drawn_by_app (calls1 calls2 : list Call) (a b c : I) :
  drawn_by calls1 a b → drawn_by calls2 b c → drawn_by (calls1 ++ calls2) a c.
Proof.
  induction 1; intros Hbc; cbn [app]; [exact Hbc|..];
    econstructor; eauto.
Qed.

(** The label loop, when it returns: one rectangle and one text for each
    string, in order, all on the object it is given. *)
Lemma draw_labels_Ok (r : nat) (left : float) (color : option Color)
    (strs : list string) :
  ∀ (text_bottom : float) (w w' : World I) (img : I),
  objects w !! r = Some img →
  draw_labels getbbox r left color strs text_bottom w = (Ok tt, w') →
  ∃ img', w' = with_object r img' w ∧
          drawn_by (label_calls color strs) img img'.
Proof.
  induction strs as [|ds strs IH]; intros tb w w' img Hobj Hrun;
    cbn [draw_labels] in Hrun.
  - inversion Hrun; subst. exists img.
    rewrite with_object_id by exact Hobj. split; [reflexivity|constructor].
  - destruct (getbbox ds) as [[[x0 y0] tw] th].
    apply bind_Ok in Hrun as (fh & w1 & H1 & Hrun). apply lift_inv in H1 as [_ ->].
    apply bind_Ok in Hrun as (fw & w2 & H2 & Hrun). apply lift_inv in H2 as [_ ->].
    cbv zeta in Hrun.
    apply bind_Ok in Hrun as ([] & w3 & H3 & Hrun).
    apply modify_Ok in H3 as (img1 & Hobj1 & ->).
    assert (img1 = img) by congruence. subst img1.
    apply bind_Ok in Hrun as (origin & w4 & H4 & Hrun). apply lift_inv in H4 as [_ ->].
    apply bind_Ok in Hrun as ([] & w5 & H5 & Hrun).
    apply modify_Ok in H5 as (img2 & Hobj2 & ->).
    rewrite with_object_lookup in Hobj2. inversion Hobj2; subst img2; clear Hobj2.
    rewrite with_object_twice in Hrun.
    eapply IH in Hrun; [|apply with_object_lookup].
    destruct Hrun as (img' & -> & Hdrawn).
    exists img'. split; [apply with_object_twice|].
    cbn [label_calls flat_map app]. econstructor. econstructor. exact Hdrawn.
Qed.

Lemma draw_labels_Err_kind (r : nat) (left : float) (color : option Color)
    (strs : list string) :
  ∀ (text_bottom : float) (w w' : World I) (e : exn),
  draw_labels getbbox r left color strs text_bottom w = (Err e, w') →
  e ≠ IndexError.
Proof.
  induction strs as [|ds strs IH]; intros tb w w' e Hrun;
    cbn [draw_labels] in Hrun; [discriminate|].
  destruct (getbbox ds) as [[[x0 y0] tw] th].
  apply bind_Err in Hrun as [H1|(fh & w1 & _ & Hrun)];
    [apply lift_inv in H1 as [H1 _]; exact (float_of_int_Err_kind _ _ H1)|].
  apply bind_Err in Hrun as [H1|(fw & w2 & _ & Hrun)];
    [apply lift_inv in H1 as [H1 _]; exact (float_of_int_Err_kind _ _ H1)|].
  cbv zeta in Hrun.
  apply bind_Err in Hrun as [H1|([] & w3 & _ & Hrun)];
    [exact (modify_Err_kind _ _ _ _ _ H1)|].
  apply bind_Err in Hrun as [H1|(origin & w4 & _ & Hrun)];
    [apply lift_inv in H1 as [H1 _]; exact (text_origin_Err_kind _ _ H1)|].
  apply bind_Err in Hrun as [H1|([] & w5 & _ & Hrun)];
    [exact (modify_Err_kind _ _ _ _ _ H1)|].
  exact (IH _ _ _ _ Hrun).
Qed.

(** The helper, when it returns: the outline first, then the labels from the
    last string to the first. *)
Lemma draw_bounding_box_Ok (r : nat) (ymin xmin ymax xmax : float)
    (color : option Color) (thickness : Z) (display_str_list : list string)
    (w w' : World I) :
  _draw_bounding_box_on_image getbbox r ymin xmin ymax xmax color thickness
    display_str_list w = (Ok tt, w') →
  ∃ img img',
    objects w !! r = Some img ∧ w' = with_object r img' w ∧
    drawn_by (CLine thickness color :: label_calls color (reverse display_str_list))
      img img'.
Proof.
  unfold _draw_bounding_box_on_image. intros Hrun.
  apply bind_Ok in Hrun as ([im_width im_height] & w1 & H1 & Hrun).
  apply read_Ok in H1 as (img & Hobj & _ & ->).
  apply bind_Ok in Hrun as (ws & w2 & H2 & Hrun). apply lift_inv in H2 as [_ ->].
  apply bind_Ok in Hrun as (hs & w3 & H3 & Hrun). apply lift_inv in H3 as [_ ->].
  cbv zeta in Hrun.
  apply bind_Ok in Hrun as ([] & w4 & H4 & Hrun).
  apply modify_Ok in H4 as (img1 & Hobj1 & ->).
  assert (img1 = img) by congruence. subst img1.
  apply bind_Ok in Hrun as (total & w5 & H5 & Hrun). apply lift_inv in H5 as [_ ->].
  eapply draw_labels_Ok in Hrun; [|apply with_object_lookup].
  destruct Hrun as (img' & -> & Hdrawn).
  exists img, img'. split; [exact Hobj|]. split; [apply with_object_twice|].
  econstructor. exact Hdrawn.
Qed.

Lemma draw_bounding_box_Err_kind (r : nat) (ymin xmin ymax xmax : float)
    (color : option Color) (thickness : Z) (display_str_list : list string)
    (w w' : World I) (e : exn) :
  _draw_bounding_box_on_image getbbox r ymin xmin ymax xmax color thickness
    display_str_list w = (Err e, w') →
  e ≠ IndexError.
Proof.
  unfold _draw_bounding_box_on_image. intros Hrun.
  apply bind_Err in Hrun as [H1|([im_width im_height] & w1 & _ & Hrun)];
    [exact (read_Err_kind _ _ _ _ _ H1)|].
  apply bind_Err in Hrun as [H1|(ws & w2 & _ & Hrun)];
    [apply lift_inv in H1 as [H1 _]; exact (truediv_Err_kind _ _ _ H1)|].
  apply bind_Err in Hrun as [H1|(hs & w3 & _ & Hrun)];
    [apply lift_inv in H1 as [H1 _]; exact (truediv_Err_kind _ _ _ H1)|].
  cbv zeta in Hrun.
  apply bind_Err in Hrun as [H1|([] & w4 & _ & Hrun)];
    [exact (modify_Err_kind _ _ _ _ _ H1)|].
  apply bind_Err in Hrun as [H1|(total & w5 & _ & Hrun)];
    [apply lift_inv in H1 as [H1 _]; exact (float_of_int_Err_kind _ _ H1)|].
  exact (draw_labels_Err_kind _ _ _ _ _ _ _ _ Hrun).
Qed.

Lemma palette_color_Some (class_ : string) :
  colors ≠ [] →
  ∃ c, palette_color hash colors class_ = Some c ∧
       getitem colors (palette_index hash colors class_) = Ok c.
Proof.
  intros Hne. pose proof (palette_index_range hash colors class_ Hne) as Hidx.
  unfold palette_color.
  destruct (lookup_lt_is_Some_2 colors (Z.to_nat (palette_index hash colors class_)))
    as [c Hc]; [lia|].
  exists c. split; [exact Hc|]. apply getitem_nonneg; [lia|exact Hc].
Qed.

Lemma class_color_Ok (class_ : string) (class_colors class_colors' : gmap string Color) :
  palette_dict hash colors class_colors →
  (match class_colors !! class_ with
   | Some _ => Ok class_colors
   | None =>
       if bool_decide (length colors = 0%nat) then Err ZeroDivisionError
       else c ← getitem colors ((hash class_ * 8) `mod` Z.of_nat (length colors));
            Ok (<[class_ := c]> class_colors)
   end) = Ok class_colors' →
  palette_dict hash colors class_colors' ∧
  class_colors' !! class_ = palette_color hash colors class_.
Proof.
  intros Hinv. destruct (class_colors !! class_) as [c0|] eqn:Hc.
  - intros Heq. inversion Heq; subst. split; [exact Hinv|].
    rewrite Hc. symmetry. exact (Hinv _ _ Hc).
  - case_bool_decide as Hlen; [discriminate|].
    assert (Hne : colors ≠ []) by (intros ->; apply Hlen; reflexivity).
    destruct (palette_color_Some class_ Hne) as (c & Hpc & Hgc).
    unfold palette_index in Hgc. rewrite Hgc. cbn [mbind result_bind].
    intros Heq. inversion Heq; subst. split.
    + intros key c' Hkey. destruct (decide (key = class_)) as [->|Hk].
      * rewrite lookup_insert_eq in Hkey. congruence.
      * rewrite lookup_insert_ne in Hkey by congruence. exact (Hinv _ _ Hkey).
    + rewrite lookup_insert_eq. symmetry. exact Hpc.
Qed.

Lemma class_color_Err_kind (class_ : string) (class_colors : gmap string Color)
    (e : exn) :
  (match class_colors !! class_ with
   | Some _ => Ok class_colors
   | None =>
       if bool_decide (length colors = 0%nat) then Err ZeroDivisionError
       else c ← getitem colors ((hash class_ * 8) `mod` Z.of_nat (length colors));
            Ok (<[class_ := c]> class_colors)
   end) = Err e →
  e ≠ IndexError.
Proof.
  destruct (class_colors !! class_) as [c0|]; [discriminate|].
  case_bool_decide as Hlen; [intros Heq; inversion Heq; discriminate|].
  assert (Hne : colors ≠ []) by (intros ->; apply Hlen; reflexivity).
  destruct (palette_color_Some class_ Hne) as (c & _ & Hgc).
  unfold palette_index in Hgc. rewrite Hgc. discriminate.
Qed.

(** One turn of the loop of [draw_boxes], when it returns. *)
Lemma draw_one_Ok (r : nat) (boxes : list (list float)) (scores : list float)
    (k : nat) (class_ : string) (class_colors class_colors' : gmap string Color)
    (w w' : World I) :
  palette_dict hash colors class_colors →
  draw_one getbbox hash colors r boxes scores (Z.of_nat k) class_ class_colors w
    = (Ok class_colors', w') →
  palette_dict hash colors class_colors' ∧
  (k < length boxes)%nat ∧
  ∃ s img img',
    scores !! k = Some s ∧
    objects w !! r = Some img ∧ w' = with_object r img' w ∧
    drawn_by (detection_calls hash colors (class_, s)) img img'.
Proof.
  intros Hinv Hrun. unfold draw_one in Hrun.
  apply bind_Ok in Hrun as (box & w1 & H1 & Hrun). apply lift_inv in H1 as [Hbox ->].
  apply bind_Ok in Hrun as (s & w2 & H2 & Hrun). apply lift_inv in H2 as [Hs ->].
  apply bind_Ok in Hrun as (str & w3 & H3 & Hrun). apply lift_inv in H3 as [Hstr ->].
  apply bind_Ok in Hrun as (cc & w4 & H4 & Hrun). apply lift_inv in H4 as [Hcc ->].
  cbv zeta in Hrun.
  apply bind_Ok in Hrun as (b0 & w5 & H5 & Hrun). apply lift_inv in H5 as [_ ->].
  apply bind_Ok in Hrun as (b1 & w6 & H6 & Hrun). apply lift_inv in H6 as [_ ->].
  apply bind_Ok in Hrun as (b2 & w7 & H7 & Hrun). apply lift_inv in H7 as [_ ->].
  apply bind_Ok in Hrun as (b3 & w8 & H8 & Hrun). apply lift_inv in H8 as [_ ->].
  apply bind_Ok in Hrun as ([] & w9 & H9 & Hrun).
  unfold M_ret in Hrun. inversion Hrun; subst; clear Hrun.
  apply draw_bounding_box_Ok in H9 as (img & img' & Hobj & -> & Hdrawn).
  destruct (class_color_Ok _ _ _ Hinv Hcc) as [Hinv' Hcolor].
  apply display_string_Ok in Hstr as ->.
  apply getitem_Ok_inv in Hbox as [[Hkb _]|[Hkb _]]; [|lia].
  apply getitem_Ok_inv in Hs as [[_ Hs]|[Hks _]]; [|lia].
  rewrite Nat2Z.id in Hs.
  split; [exact Hinv'|]. split; [lia|].
  exists s, img, img'. split; [exact Hs|]. split; [exact Hobj|].
  split; [reflexivity|].
  unfold detection_calls. cbn [fst snd]. rewrite <- Hcolor. exact Hdrawn.
Qed.

(** One turn of the loop cannot raise [IndexError] when the box and the
    score are there and the box has four coordinates. *)
Lemma draw_one_Err_kind (r : nat) (boxes : list (list float)) (scores : list float)
    (k : nat) (class_ : string) (class_colors : gmap string Color)
    (w w' : World I) (e : exn) :
  Forall (fun b => (4 ≤ length b)%nat) boxes →
  (k < length boxes)%nat → (k < length scores)%nat →
  draw_one getbbox hash colors r boxes scores (Z.of_nat k) class_ class_colors w
    = (Err e, w') →
  e ≠ IndexError.
Proof.
  intros Hboxes Hkb Hks Hrun. unfold draw_one in Hrun.
  destruct (lookup_lt_is_Some_2 boxes k Hkb) as [box Hbox].
  destruct (lookup_lt_is_Some_2 scores k Hks) as [s Hs].
  pose proof (Forall_lookup_1 _ _ _ _ Hboxes Hbox) as Hlen.
  rewrite (getitem_nonneg boxes (Z.of_nat k) box) in Hrun
    by (lia || (rewrite Nat2Z.id; exact Hbox)).
  rewrite lift_bind in Hrun. cbv beta in Hrun.
  rewrite (getitem_nonneg scores (Z.of_nat k) s) in Hrun
    by (lia || (rewrite Nat2Z.id; exact Hs)).
  rewrite lift_bind in Hrun. cbv beta in Hrun.
  apply bind_Err in Hrun as [H1|(str & w3 & _ & Hrun)];
    [apply lift_inv in H1 as [H1 _]; exact (display_string_Err_kind _ _ _ H1)|].
  apply bind_Err in Hrun as [H1|(cc & w4 & _ & Hrun)];
    [apply lift_inv in H1 as [H1 _]; exact (class_color_Err_kind _ _ _ H1)|].
  cbv zeta in Hrun.
  destruct box as [|b0 [|b1 [|b2 [|b3 coords]]]]; cbn [length] in Hlen; try lia.
  rewrite (getitem_nonneg (b0 :: b1 :: b2 :: b3 :: coords) 0 b0) in Hrun
    by (lia || reflexivity).
  rewrite lift_bind in Hrun. cbv beta in Hrun.
  rewrite (getitem_nonneg (b0 :: b1 :: b2 :: b3 :: coords) 1 b1) in Hrun
    by (lia || reflexivity).
  rewrite lift_bind in Hrun. cbv beta in Hrun.
  rewrite (getitem_nonneg (b0 :: b1 :: b2 :: b3 :: coords) 2 b2) in Hrun
    by (lia || reflexivity).
  rewrite lift_bind in Hrun. cbv beta in Hrun.
  rewrite (getitem_nonneg (b0 :: b1 :: b2 :: b3 :: coords) 3 b3) in Hrun
    by (lia || reflexivity).
  rewrite lift_bind in Hrun. cbv beta in Hrun.
  apply bind_Err in Hrun as [H1|([] & w9 & _ & Hrun)];
    [exact (draw_bounding_box_Err_kind _ _ _ _ _ _ _ _ _ _ _ H1)|].
  discriminate.
Qed.

(** The loop of [draw_boxes], when it returns: every class had its box and
    its score, and every detection has been drawn, in order. *)
Lemma draw_boxes_loop_Ok (r : nat) (boxes : list (list float))
    (scores : list float) (classes : list string) :
  ∀ (k : nat) (class_colors : gmap string Color) (w w' : World I) (img : I),
  palette_dict hash colors class_colors →
  objects w !! r = Some img →
  draw_boxes_loop getbbox hash colors r boxes scores (Z.of_nat k) classes
    class_colors w = (Ok tt, w') →
  (classes = [] ∨
   (k + length classes ≤ length boxes)%nat ∧
   (k + length classes ≤ length scores)%nat) ∧
  ∃ img', w' = with_object r img' w ∧
          drawn_by (flat_map (detection_calls hash colors)
                      (zip classes (drop k scores))) img img'.
Proof.
  induction classes as [|class_ classes IH];
    intros k class_colors w w' img Hinv Hobj Hrun; cbn [draw_boxes_loop] in Hrun.
  - inversion Hrun; subst. split; [left; reflexivity|].
    exists img. rewrite with_object_id by exact Hobj.
    split; [reflexivity|constructor].
  - apply bind_Ok in Hrun as (cc & w1 & Hone & Hrun).
    apply (draw_one_Ok _ _ _ _ _ _ _ _ _ Hinv) in Hone
      as (Hinv1 & Hkb & s & img0 & img1 & Hs & Hobj0 & -> & Hdrawn1).
    assert (img0 = img) by congruence. subst img0.
    replace (Z.of_nat k + 1) with (Z.of_nat (S k)) in Hrun by lia.
    apply (IH (S k) cc _ _ img1 Hinv1 (with_object_lookup _ _ _)) in Hrun
      as (Hlen & img' & -> & Hdrawn).
    pose proof (lookup_lt_Some _ _ _ Hs) as Hks.
    split.
    + right. cbn [length]. destruct Hlen as [->|[Hb Hsc]]; cbn [length]; lia.
    + exists img'. split; [apply with_object_twice|].
      rewrite (drop_S _ _ _ Hs). cbn [zip zip_with flat_map].
      eapply drawn_by_app; [exact Hdrawn1|exact Hdrawn].
Qed.

(** The loop cannot raise [IndexError] when every class has its box, of four
    coordinates, and its score. *)
Lemma draw_boxes_loop_Err_kind (r : nat) (boxes : list (list float))
    (scores : list float) (classes : list string) :
  Forall (fun b => (4 ≤ length b)%nat) boxes →
  ∀ (k : nat) (class_colors : gmap string Color) (w w' : World I) (e : exn),
  (k + length classes ≤ length boxes)%nat →
  (k + length classes ≤ length scores)%nat →
  draw_boxes_loop getbbox hash colors r boxes scores (Z.of_nat k) classes
    class_colors w = (Err e, w') →
  e ≠ IndexError.
Proof.
  intros Hboxes. induction classes as [|class_ classes IH];
    intros k class_colors w w' e Hkb Hks Hrun; cbn [draw_boxes_loop] in Hrun;
    [discriminate|].
  cbn [length] in Hkb, Hks.
  apply bind_Err in Hrun as [Hone|(cc & w1 & _ & Hrun)].
  - apply (draw_one_Err_kind _ _ _ _ _ _ _ _ _ Hboxes) in Hone; [exact Hone|lia|lia].
  - replace (Z.of_nat k + 1) with (Z.of_nat (S k)) in Hrun by lia.
    apply (IH (S k) cc w1 w' e) in Hrun; [exact Hrun|lia|lia].
Qed.

(** The loop over a list of classes and a longer one that starts with it:
    the longer run fails where the shorter one fails, and otherwise goes on
    from where the shorter one ends. *)
Lemma draw_boxes_loop_prefix (r : nat) (boxes : list (list float))
    (scores : list float) (classes1 : list string) :
  ∀ (k : Z) (class_colors : gmap string Color) (w : World I),
  (∃ e w1,
     draw_boxes_loop getbbox hash colors r boxes scores k classes1 class_colors w
       = (Err e, w1) ∧
     ∀ classes2,
       draw_boxes_loop getbbox hash colors r boxes scores k (classes1 ++ classes2)
         class_colors w = (Err e, w1)) ∨
  (∃ w1 class_colors1,
     draw_boxes_loop getbbox hash colors r boxes scores k classes1 class_colors w
       = (Ok tt, w1) ∧
     ∀ classes2,
       draw_boxes_loop getbbox hash colors r boxes scores k (classes1 ++ classes2)
         class_colors w
       = draw_boxes_loop getbbox hash colors r boxes scores
           (k + Z.of_nat (length classes1)) classes2 class_colors1 w1).
Proof.
  induction classes1 as [|class_ classes1 IH]; intros k class_colors w.
  - right. exists w, class_colors. split; [reflexivity|].
    intros classes2. cbn [app length]. replace (k + Z.of_nat 0) with k by lia.
    reflexivity.
  - cbn [draw_boxes_loop app]. unfold M_bind.
    destruct (draw_one getbbox hash colors r boxes scores k class_ class_colors w)
      as [[cc|e] w0] eqn:Hone.
    + destruct (IH (k + 1) cc w0) as [(e & w1 & H1 & H2)|(w1 & cc1 & H1 & H2)].
      * left. exists e, w1. split; [exact H1|exact H2].
      * right. exists w1, cc1. split; [exact H1|]. intros classes2.
        rewrite H2. cbn [length].
        replace (k + 1 + Z.of_nat (length classes1))
          with (k + Z.of_nat (S (length classes1))) by lia.
        reflexivity.
    + left. exists e, w0. split; [reflexivity|]. intros classes2. reflexivity.
Qed.

(** [draw_boxes], when it returns. *)
Lemma draw_boxes_Ok (image : string) (boxes : list (list float))
    (scores : list float) (classes : list string) (w w' : World I) (r : nat) :
  draw_boxes getbbox hash colors image boxes scores classes w = (Ok r, w') →
  ∃ photo img',
    files w !! image = Some photo ∧
    pixels (surface_size photo) ≤ bomb_limit ∧
    objects w !! r = None ∧
    w' = with_object r img' w ∧
    drawn_by (flat_map (detection_calls hash colors) (zip classes scores))
      photo img' ∧
    (length classes ≤ length boxes)%nat ∧
    (length classes ≤ length scores)%nat.
Proof.
  unfold draw_boxes. intros Hrun.
  apply bind_Ok in Hrun as (r0 & w0 & Hopen & Hrun).
  apply bind_Ok in Hrun as ([] & w1 & Hloop & Hrun).
  unfold M_ret in Hrun. inversion Hrun; subst; clear Hrun.
  apply Image_open_Ok in Hopen as (photo & Hfile & Hpx & Hfresh & ->).
  fold (with_object r photo w) in Hloop.
  change 0 with (Z.of_nat 0) in Hloop.
  apply (draw_boxes_loop_Ok r boxes scores classes 0 ∅ _ _ photo) in Hloop
    as (Hlen & img' & -> & Hdrawn);
    [|intros key c Hkey; rewrite lookup_empty in Hkey; discriminate
     |apply with_object_lookup].
  exists photo, img'. split; [exact Hfile|]. split; [exact Hpx|].
  split; [exact Hfresh|]. split; [apply with_object_twice|].
  split; [exact Hdrawn|].
  destruct Hlen as [->|[Hb Hs]]; cbn [length]; lia.
Qed.

(** [draw_boxes] on the decoder's kind of input never raises [IndexError]. *)
Lemma draw_boxes_Err_kind (image : string) (boxes : list (list float))
    (scores : list float) (classes : list string) (w w' : World I) (e : exn) :
  Forall (fun b => (4 ≤ length b)%nat) boxes →
  (length classes ≤ length boxes)%nat →
  (length classes ≤ length scores)%nat →
  draw_boxes getbbox hash colors image boxes scores classes w = (Err e, w') →
  e ≠ IndexError.
Proof.
  intros Hboxes Hlb Hls. unfold draw_boxes. intros Hrun.
  apply bind_Err in Hrun as [Hopen|(r & w0 & _ & Hrun)].
  - unfold Image_open in Hopen. destruct (files w !! image) as [photo|].
    + case_bool_decide; inversion Hopen. discriminate.
    + inversion Hopen. discriminate.
  - apply bind_Err in Hrun as [Hloop|([] & w1 & _ & Hrun)]; [|discriminate].
    change 0 with (Z.of_nat 0) in Hloop.
    apply (draw_boxes_loop_Err_kind r boxes scores classes Hboxes 0) in Hloop;
      [exact Hloop|lia|lia].
Qed.

Lemma draw_boxes_run (image : string) (boxes : list (list float))
    (scores : list float) (classes : list string) (w : World I) :
  draw_boxes getbbox hash colors image boxes scores classes w =
    match Image_open image w with
    | (Ok r, w0) =>
        match draw_boxes_loop getbbox hash colors r boxes scores 0 classes ∅ w0 with
        | (Ok _, w1) => (Ok r, w1)
        | (Err e, w1) => (Err e, w1)
        end
    | (Err e, w0) => (Err e, w0)
    end.
Proof.
  unfold draw_boxes, M_bind, M_ret.
  destruct (Image_open image w) as [[r|e] w0]; [|reflexivity].
  destruct (draw_boxes_loop getbbox hash colors r boxes scores 0 classes ∅ w0)
    as [[[]|e] w1]; reflexivity.
Qed.

(** [draw_boxes] on a list of classes and on a longer one that starts with
    it: the longer call fails where the shorter one fails; when the shorter
    one returns, the longer one goes on with the next class, in the world the
    shorter one leaves. *)
Lemma draw_boxes_prefix (image : string) (boxes : list (list float))
    (scores : list float) (classes1 : list string) (w : World I) :
  (∃ e w1,
     draw_boxes getbbox hash colors image boxes scores classes1 w = (Err e, w1) ∧
     ∀ classes2,
       draw_boxes getbbox hash colors image boxes scores (classes1 ++ classes2) w
         = (Err e, w1)) ∨
  (∃ r w1 class_colors1,
     draw_boxes getbbox hash colors image boxes scores classes1 w = (Ok r, w1) ∧
     ∀ classes2,
       draw_boxes getbbox hash colors image boxes scores (classes1 ++ classes2) w
       = match draw_boxes_loop getbbox hash colors r boxes scores
                 (Z.of_nat (length classes1)) classes2 class_colors1 w1 with
         | (Ok _, w2) => (Ok r, w2)
         | (Err e, w2) => (Err e, w2)
         end).
Proof.
  destruct (Image_open image w) as [[r|e] w0] eqn:Hopen.
  - destruct (draw_boxes_loop_prefix r boxes scores classes1 0 ∅ w0)
      as [(e & w1 & H1 & H2)|(w1 & cc1 & H1 & H2)].
    + left. exists e, w1. rewrite draw_boxes_run, Hopen, H1.
      split; [reflexivity|]. intros classes2.
      rewrite draw_boxes_run, Hopen, H2. reflexivity.
    + right. exists r, w1, cc1. rewrite draw_boxes_run, Hopen, H1.
      split; [reflexivity|]. intros classes2.
      rewrite draw_boxes_run, Hopen, H2. reflexivity.
  - left. exists e, w0. rewrite draw_boxes_run, Hopen.
    split; [reflexivity|]. intros classes2.
    rewrite draw_boxes_run, Hopen. reflexivity.
Qed.

(** The class after the drawn ones has no box. *)
Lemma draw_boxes_loop_no_box (r : nat) (boxes : list (list float))
    (scores : list float) (class_ : string) (classes : list string)
    (class_colors : gmap string Color) (w : World I) :
  draw_boxes_loop getbbox hash colors r boxes scores (Z.of_nat (length boxes))
    (class_ :: classes) class_colors w = (Err IndexError, w).
Proof.
  cbn [draw_boxes_loop]. unfold M_bind at 1, draw_one.
  rewrite (getitem_out_of_range boxes) by lia. reflexivity.
Qed.

(** The class after the drawn ones has a score that [int] rejects. *)
Lemma draw_boxes_loop_bad_score (r : nat) (boxes : list (list float))
    (scores : list float) (class_ : string) (classes : list string)
    (class_colors : gmap string Color) (w : World I)
    (n : nat) (bad : float) (e : exn) :
  (n < length boxes)%nat → scores !! n = Some bad → py_int bad = Err e →
  draw_boxes_loop getbbox hash colors r boxes scores (Z.of_nat n)
    (class_ :: classes) class_colors w = (Err e, w).
Proof.
  intros Hnb Hbad He.
  destruct (lookup_lt_is_Some_2 boxes n Hnb) as [box Hbox].
  cbn [draw_boxes_loop]. unfold M_bind at 1, draw_one.
  rewrite (getitem_nonneg boxes (Z.of_nat n) box)
    by (lia || (rewrite Nat2Z.id; exact Hbox)).
  rewrite lift_bind.
  rewrite (getitem_nonneg scores (Z.of_nat n) bad)
    by (lia || (rewrite Nat2Z.id; exact Hbad)).
  rewrite lift_bind.
  rewrite (display_string_Err _ _ _ He), lift_bind_Err. reflexivity.
Qed.

(** A call stopped by the class at position [n]: nothing is returned, and
    when the classes before it draw without error the call raises what that
    class raises, in the world they leave. *)
Lemma draw_boxes_stopped (image : string) (boxes : list (list float))
    (scores : list float) (classes : list string) (w : World I)
    (n : nat) (e : exn) :
  (n < length classes)%nat →
  (∀ r class_ rest class_colors w1,
     draw_boxes_loop getbbox hash colors r boxes scores (Z.of_nat n)
       (class_ :: rest) class_colors w1 = (Err e, w1)) →
  (∀ r w', draw_boxes getbbox hash colors image boxes scores classes w
           ≠ (Ok r, w')) ∧
  (∀ r w1,
     draw_boxes getbbox hash colors image boxes scores (take n classes) w
       = (Ok r, w1) →
     draw_boxes getbbox hash colors image boxes scores classes w = (Err e, w1)).
Proof.
  intros Hn Hstop.
  assert (Hsplit : classes = take n classes ++ drop n classes)
    by (symmetry; apply take_drop).
  destruct (drop n classes) as [|class_ rest] eqn:Hdrop.
  { apply (f_equal length) in Hdrop. rewrite length_drop in Hdrop.
    cbn [length] in Hdrop. lia. }
  assert (Hlen : length (take n classes) = n) by (rewrite length_take; lia).
  destruct (draw_boxes_prefix image boxes scores (take n classes) w)
    as [(e1 & w1 & H1 & H2)|(r1 & w1 & cc1 & H1 & H2)].
  - specialize (H2 (class_ :: rest)). rewrite <- Hsplit in H2. split.
    + intros r w'. rewrite H2. discriminate.
    + intros r w1'. rewrite H1. discriminate.
  - specialize (H2 (class_ :: rest)). rewrite <- Hsplit, Hlen, Hstop in H2. split.
    + intros r w'. rewrite H2. discriminate.
    + intros r w1'. rewrite H1. intros Heq. inversion Heq; subst. exact H2.
Qed.
End RenderingFacts.


(** X8 — What the helper draws.  Whenever [_draw_bounding_box_on_image]
    returns, it has changed only the image object it was given, and what it
    drew there is: the outline first (one line call of the given thickness
    and colour), then, for each display string taken from the last to the
    first, one filled rectangle in the box's colour and the string in black
    on top of it. *)
Theorem draw_bounding_box_draws {I : Type} `{Surface I}
    (getbbox : string → Z * Z * Z * Z) (image : nat)
    (ymin xmin ymax xmax : float) (color : option Color) (thickness : Z)
    (display_str_list : list string) (w w' : World I) :
  _draw_bounding_box_on_image getbbox image ymin xmin ymax xmax color thickness
    display_str_list w = (Ok tt, w') →
  ∃ img img',
    objects w !! image = Some img ∧
    w' = with_object image img' w ∧
    drawn_by (CLine thickness color :: label_calls color (reverse display_str_list))
      img img'.
Proof.
  intros Hrun. exact (draw_bounding_box_Ok getbbox _ _ _ _ _ _ _ _ _ _ Hrun).
Qed.

Lemma draw_bounding_box_draws_witness :
  ∃ w',
    _draw_bounding_box_on_image fixed_getbbox 0 (F32.of_Z 10) (F32.of_Z 20)
      (F32.of_Z 110) (F32.of_Z 120) (Some "#f0f8ff") 4 ["cat"; "87%"] opened_world
      = (Ok tt, w') ∧
    ∃ img img',
      objects opened_world !! 0%nat = Some img ∧
      w' = with_object 0 img' opened_world ∧
      drawn_by (CLine 4 (Some "#f0f8ff")
                  :: label_calls (Some "#f0f8ff") (reverse ["cat"; "87%"]))
        img img'.
Proof.
  destruct (_draw_bounding_box_on_image fixed_getbbox 0 (F32.of_Z 10) (F32.of_Z 20)
              (F32.of_Z 110) (F32.of_Z 120) (Some "#f0f8ff") 4 ["cat"; "87%"]
              opened_world) as [[[]|e] w'] eqn:Hrun;
    [|vm_compute in Hrun; discriminate].
  exists w'. split; [reflexivity|].
  exact (draw_bounding_box_draws fixed_getbbox 0 (F32.of_Z 10) (F32.of_Z 20)
           (F32.of_Z 110) (F32.of_Z 120) (Some "#f0f8ff") 4 ["cat"; "87%"]
           opened_world w' Hrun).
Defined.

(** X9 — What [draw_boxes] draws.  Whenever [draw_boxes] returns, the file
    was there, the object returned is a new one, and on it every detection
    has been drawn exactly once, in the order of [classes]: its outline of
    width 4, its label chip and its label text
    ["{class_}: {int(100 * score)}%"] in black.  The outline and the chip of
    a detection have the colour [colors[hash(class_) * 8 % len(colors)]],
    the same for every detection of that class; and there was a box and a
    score for every class. *)
Theorem draw_boxes_draws {I : Type} `{Surface I}
    (getbbox : string → Z * Z * Z * Z) (hash : string → Z) (colors : list Color)
    (image : string) (boxes : list (list float)) (scores : list float)
    (classes : list string) (w w' : World I) (r : nat) :
  draw_boxes getbbox hash colors image boxes scores classes w = (Ok r, w') →
  ∃ photo img',
    files w !! image = Some photo ∧
    objects w !! r = None ∧
    w' = with_object r img' w ∧
    drawn_by (flat_map (detection_calls hash colors) (zip classes scores))
      photo img' ∧
    (length classes ≤ length boxes)%nat ∧
    (length classes ≤ length scores)%nat.
Proof.
  intros Hrun.
  destruct (draw_boxes_Ok getbbox hash colors _ _ _ _ _ _ _ Hrun)
    as (photo & img' & Hfile & _ & Hfresh & Hw' & Hdrawn & Hlb & Hls).
  exists photo, img'. repeat split; assumption.
Qed.

Lemma draw_boxes_draws_witness :
  flat_map (detection_calls sample_hash sample_colors)
           (zip ["cat"; "dog"] [f32_0_87; f32_0_9375])
    = [CLine 4 (Some "#f0f8ff"); CRectangle (Some "#f0f8ff"); CText "cat: 87%" "black";
       CLine 4 (Some "#f0f8ff"); CRectangle (Some "#f0f8ff"); CText "dog: 93%" "black"] ∧
  ∃ r w',
    draw_boxes fixed_getbbox sample_hash sample_colors "sample-images/cat.jpg"
      [sample_box; sample_box] [f32_0_87; f32_0_9375] ["cat"; "dog"] sample_world
      = (Ok r, w') ∧
    ∃ photo img',
      files sample_world !! "sample-images/cat.jpg" = Some photo ∧
      objects sample_world !! r = None ∧
      w' = with_object r img' sample_world ∧
      drawn_by (flat_map (detection_calls sample_hash sample_colors)
                  (zip ["cat"; "dog"] [f32_0_87; f32_0_9375]))
        photo img' ∧
      (length ["cat"; "dog"] ≤ length [sample_box; sample_box])%nat ∧
      (length ["cat"; "dog"] ≤ length [f32_0_87; f32_0_9375])%nat.
Proof.
  split; [vm_compute; reflexivity|].
  destruct (draw_boxes fixed_getbbox sample_hash sample_colors "sample-images/cat.jpg"
              [sample_box; sample_box] [f32_0_87; f32_0_9375] ["cat"; "dog"]
              sample_world) as [[r|e] w'] eqn:Hrun;
    [|vm_compute in Hrun; discriminate].
  exists r, w'. split; [reflexivity|].
  exact (draw_boxes_draws fixed_getbbox sample_hash sample_colors
           "sample-images/cat.jpg" [sample_box; sample_box] [f32_0_87; f32_0_9375]
           ["cat"; "dog"] sample_world w' r Hrun).
Defined.

(** X10 — Fewer boxes than classes.  The loop of [draw_boxes] runs over
    [classes]; when [boxes] is shorter, the call never returns an image.
    When the detections that have a box draw without error, the call then
    raises [IndexError] at [boxes[index]], having done exactly their
    drawing. *)
Theorem draw_boxes_missing_box {I : Type} `{Surface I}
    (getbbox : string → Z * Z * Z * Z) (hash : string → Z) (colors : list Color)
    (image : string) (boxes : list (list float)) (scores : list float)
    (classes : list string) (w : World I) :
  (length boxes < length classes)%nat →
  (∀ r w', draw_boxes getbbox hash colors image boxes scores classes w
           ≠ (Ok r, w')) ∧
  (∀ r w1,
     draw_boxes getbbox hash colors image boxes scores
       (take (length boxes) classes) w = (Ok r, w1) →
     draw_boxes getbbox hash colors image boxes scores classes w
       = (Err IndexError, w1)).
Proof.
  intros Hlen.
  apply (draw_boxes_stopped getbbox hash colors image boxes scores classes w
           (length boxes) IndexError Hlen).
  intros r class_ rest class_colors w1. apply draw_boxes_loop_no_box.
Qed.

Lemma draw_boxes_missing_box_witness :
  (length [sample_box] < length ["cat"; "dog"])%nat ∧
  (∃ r w1,
     draw_boxes fixed_getbbox sample_hash sample_colors "sample-images/cat.jpg"
       [sample_box] [f32_0_87; f32_0_9375] (take (length [sample_box]) ["cat"; "dog"])
       sample_world = (Ok r, w1) ∧
     draw_boxes fixed_getbbox sample_hash sample_colors "sample-images/cat.jpg"
       [sample_box] [f32_0_87; f32_0_9375] ["cat"; "dog"] sample_world
       = (Err IndexError, w1)) ∧
  (∀ r w',
     draw_boxes fixed_getbbox sample_hash sample_colors "sample-images/cat.jpg"
       [sample_box] [f32_0_87; f32_0_9375] ["cat"; "dog"] sample_world
     ≠ (Ok r, w')).
Proof.
  assert (Hlen : (length [sample_box] < length ["cat"; "dog"])%nat) by (cbn; lia).
  pose proof (draw_boxes_missing_box fixed_getbbox sample_hash sample_colors
                "sample-images/cat.jpg" [sample_box] [f32_0_87; f32_0_9375]
                ["cat"; "dog"] sample_world Hlen) as [Hnever Hstop].
  split; [exact Hlen|]. split; [|exact Hnever].
  destruct (draw_boxes fixed_getbbox sample_hash sample_colors "sample-images/cat.jpg"
              [sample_box] [f32_0_87; f32_0_9375]
              (take (length [sample_box]) ["cat"; "dog"]) sample_world)
    as [[r|e] w1] eqn:Hrun; [|vm_compute in Hrun; discriminate].
  exists r, w1. split; [reflexivity|]. exact (Hstop r w1 eq_refl).
Defined.

(** X11 — The palette position.  For a palette that is not empty the
    position [hash(class_) * 8 % len(colors)] is a valid index whatever the
    sign of the hash, so the colour lookup cannot raise; and it is always a
    multiple of [gcd(8, len(colors))]: with a palette of even length the
    colours at odd positions are never used. *)
Theorem palette_index_multiple (hash : string → Z) (colors : list Color)
    (class_ : string) :
  colors ≠ [] →
  0 ≤ palette_index hash colors class_ < Z.of_nat (length colors) ∧
  is_Some (palette_color hash colors class_) ∧
  (Z.gcd 8 (Z.of_nat (length colors)) | palette_index hash colors class_).
Proof.
  intros Hne. pose proof (palette_index_range hash colors class_ Hne) as Hidx.
  split; [exact Hidx|]. split.
  - unfold palette_color. apply lookup_lt_is_Some_2. lia.
  - unfold palette_index. rewrite Z.mod_eq by lia.
    apply Z.divide_sub_r.
    + apply Z.divide_mul_r, Z.gcd_divide_l.
    + apply Z.divide_mul_l, Z.gcd_divide_r.
Qed.

Lemma palette_index_multiple_witness :
  sample_colors ≠ [] ∧
  palette_index (fun _ => -3) sample_colors "cat" = 0 ∧
  0 ≤ palette_index (fun _ => -3) sample_colors "cat"
    < Z.of_nat (length sample_colors) ∧
  is_Some (palette_color (fun _ => -3) sample_colors "cat") ∧
  (Z.gcd 8 (Z.of_nat (length sample_colors))
   | palette_index (fun _ => -3) sample_colors "cat").
Proof.
  assert (Hne : sample_colors ≠ []) by discriminate.
  split; [exact Hne|]. split; [reflexivity|].
  exact (palette_index_multiple (fun _ => -3) sample_colors "cat" Hne).
Defined.

(** X12 — From the decoder to the renderer.  The lists returned by
    [postprocess] always fit [draw_boxes]: when the boxes of the model have
    at least four coordinates, [draw_boxes] never raises [IndexError] on
    them, and whenever it returns it has drawn one outline, one label chip
    and one label text for every decoded detection, in the decoder's order. *)
Theorem postprocess_then_draw_boxes {I : Type} `{Surface I}
    (classes : list string) (raw_boxes raw_scores : list (list (list float)))
    (raw_class_indices : list (list triple))
    (boxes : list (list float)) (scores : list float) (detected_classes : list string)
    (getbbox : string → Z * Z * Z * Z) (hash : string → Z) (colors : list Color)
    (image : string) (w : World I) :
  postprocess classes raw_boxes raw_scores raw_class_indices
    = Ok (boxes, scores, detected_classes) →
  Forall (Forall (fun b => (4 ≤ length b)%nat)) raw_boxes →
  (∀ e w',
     draw_boxes getbbox hash colors image boxes scores detected_classes w
       = (Err e, w') →
     e ≠ IndexError) ∧
  (∀ r w',
     draw_boxes getbbox hash colors image boxes scores detected_classes w
       = (Ok r, w') →
     ∃ photo img',
       files w !! image = Some photo ∧
       w' = with_object r img' w ∧
       drawn_by (flat_map (detection_calls hash colors) (zip detected_classes scores))
         photo img').
Proof.
  intros Hpost Hrb.
  destruct (postprocess_members _ _ _ _ _ _ _ Hpost)
    as (Hlb & Hls & _ & _ & Hbs).
  assert (Hboxes : Forall (fun b => (4 ≤ length b)%nat) boxes).
  { eapply Forall_impl; [exact Hbs|]. cbn. intros b (plane & Hplane & Hb).
    rewrite Forall_forall in Hrb. specialize (Hrb plane Hplane).
    rewrite Forall_forall in Hrb. apply Hrb, Hb. }
  split.
  - intros e w' Hrun.
    apply (draw_boxes_Err_kind getbbox hash colors image boxes scores
             detected_classes w w' e Hboxes); [lia|lia|exact Hrun].
  - intros r w' Hrun.
    destruct (draw_boxes_Ok getbbox hash colors _ _ _ _ _ _ _ Hrun)
      as (photo & img' & Hfile & _ & _ & Hw' & Hdrawn & _).
    exists photo, img'. repeat split; assumption.
Qed.

Lemma postprocess_then_draw_boxes_witness :
  postprocess labels80 boxes80 scores80 [[(0, 15, 5); (0, -1, 0)]]
    = Ok ([sample_box; sample_box], [f32_0_87; f32_0_87], ["15"; "79"]) ∧
  Forall (Forall (fun b => (4 ≤ length b)%nat)) boxes80 ∧
  (∀ e w',
     draw_boxes fixed_getbbox sample_hash sample_colors "sample-images/cat.jpg"
       [sample_box; sample_box] [f32_0_87; f32_0_87] ["15"; "79"] sample_world
       = (Err e, w') →
     e ≠ IndexError) ∧
  ∃ r w',
    draw_boxes fixed_getbbox sample_hash sample_colors "sample-images/cat.jpg"
      [sample_box; sample_box] [f32_0_87; f32_0_87] ["15"; "79"] sample_world
      = (Ok r, w') ∧
    ∃ photo img',
      files sample_world !! "sample-images/cat.jpg" = Some photo ∧
      w' = with_object r img' sample_world ∧
      drawn_by (flat_map (detection_calls sample_hash sample_colors)
                  (zip ["15"; "79"] [f32_0_87; f32_0_87]))
        photo img'.
Proof.
  assert (Hpost : postprocess labels80 boxes80 scores80 [[(0, 15, 5); (0, -1, 0)]]
                  = Ok ([sample_box; sample_box], [f32_0_87; f32_0_87], ["15"; "79"]))
    by (vm_compute; reflexivity).
  assert (Hrb : Forall (Forall (fun b => (4 ≤ length b)%nat)) boxes80)
    by (repeat constructor).
  pose proof (postprocess_then_draw_boxes labels80 boxes80 scores80
                [[(0, 15, 5); (0, -1, 0)]] [sample_box; sample_box]
                [f32_0_87; f32_0_87] ["15"; "79"] fixed_getbbox sample_hash
                sample_colors "sample-images/cat.jpg" sample_world Hpost Hrb)
    as [Hkind Hdraws].
  split; [exact Hpost|]. split; [exact Hrb|]. split; [exact Hkind|].
  destruct (draw_boxes fixed_getbbox sample_hash sample_colors "sample-images/cat.jpg"
              [sample_box; sample_box] [f32_0_87; f32_0_87] ["15"; "79"]
              sample_world) as [[r|e] w'] eqn:Hrun;
    [|vm_compute in Hrun; discriminate].
  exists r, w'. split; [reflexivity|]. exact (Hdraws r w' eq_refl).
Defined.

(** X13 — The percentage of a label.  For a binary32 score in [[0, 1]] the
    label text is ["{class_}: {p}%"] with [p = int(100 * score)] an integer
    from 0 to 100: rounding in the binary64 product never takes the
    percentage above 100. *)
Theorem label_percent_range (class_ : string) (s : float) :
  valid_binary 24 128 s = true → in_unit_interval s = true →
  display_string class_ s = Ok (class_ +:+ ": " +:+ pretty (percent s) +:+ "%") ∧
  0 ≤ percent s ≤ 100.
Proof.
  intros Hvalid Hunit. destruct (percent_unit s Hvalid Hunit) as [Hint Hrange].
  split; [|exact Hrange]. unfold display_string. rewrite Hint. reflexivity.
Qed.

Lemma label_percent_range_witness :
  valid_binary 24 128 f32_0_87 = true ∧ in_unit_interval f32_0_87 = true ∧
  percent f32_0_87 = 87 ∧
  display_string "cat" f32_0_87
    = Ok ("cat" +:+ ": " +:+ pretty (percent f32_0_87) +:+ "%") ∧
  0 ≤ percent f32_0_87 ≤ 100.
Proof.
  assert (Hvalid : valid_binary 24 128 f32_0_87 = true) by (vm_compute; reflexivity).
  assert (Hunit : in_unit_interval f32_0_87 = true) by (vm_compute; reflexivity).
  split; [exact Hvalid|]. split; [exact Hunit|].
  split; [vm_compute; reflexivity|].
  exact (label_percent_range "cat" f32_0_87 Hvalid Hunit).
Defined.

(** X14 — A score that [int] rejects.  When the score of the detection at
    position [n] is a NaN or an infinity, [int(100 * score)] raises as [int]
    does on the score itself ([ValueError] for a NaN, [OverflowError] for an
    infinity), and [draw_boxes] never returns an image.  When the detections
    before position [n] draw without error, the call raises that exception,
    having done exactly their drawing. *)
Theorem draw_boxes_bad_score {I : Type} `{Surface I}
    (getbbox : string → Z * Z * Z * Z) (hash : string → Z) (colors : list Color)
    (image : string) (boxes : list (list float)) (scores : list float)
    (classes : list string) (w : World I)
    (n : nat) (bad : float) (e : exn) :
  scores !! n = Some bad → py_int bad = Err e →
  (n < length boxes)%nat → (n < length classes)%nat →
  (∀ r w', draw_boxes getbbox hash colors image boxes scores classes w
           ≠ (Ok r, w')) ∧
  (∀ r w1,
     draw_boxes getbbox hash colors image boxes scores (take n classes) w
       = (Ok r, w1) →
     draw_boxes getbbox hash colors image boxes scores classes w = (Err e, w1)).
Proof.
  intros Hbad He Hnb Hnc.
  apply (draw_boxes_stopped getbbox hash colors image boxes scores classes w
           n e Hnc).
  intros r class_ rest class_colors w1.
  exact (draw_boxes_loop_bad_score getbbox hash colors r boxes scores class_ rest
           class_colors w1 n bad e Hnb Hbad He).
Qed.

Lemma draw_boxes_bad_score_witness :
  [f32_0_87; S754_nan] !! 1%nat = Some S754_nan ∧
  py_int S754_nan = Err ValueError ∧
  (∃ r w1,
     draw_boxes fixed_getbbox sample_hash sample_colors "sample-images/cat.jpg"
       [sample_box; sample_box] [f32_0_87; S754_nan] (take 1 ["cat"; "dog"])
       sample_world = (Ok r, w1) ∧
     draw_boxes fixed_getbbox sample_hash sample_colors "sample-images/cat.jpg"
       [sample_box; sample_box] [f32_0_87; S754_nan] ["cat"; "dog"] sample_world
       = (Err ValueError, w1)) ∧
  (∀ r w',
     draw_boxes fixed_getbbox sample_hash sample_colors "sample-images/cat.jpg"
       [sample_box; sample_box] [f32_0_87; S754_nan] ["cat"; "dog"] sample_world
     ≠ (Ok r, w')).
Proof.
  assert (Hbad : [f32_0_87; S754_nan] !! 1%nat = Some S754_nan) by reflexivity.
  assert (He : py_int S754_nan = Err ValueError) by reflexivity.
  assert (Hnb : (1 < length [sample_box; sample_box])%nat) by (cbn; lia).
  assert (Hnc : (1 < length ["cat"; "dog"])%nat) by (cbn; lia).
  pose proof (draw_boxes_bad_score fixed_getbbox sample_hash sample_colors
                "sample-images/cat.jpg" [sample_box; sample_box]
                [f32_0_87; S754_nan] ["cat"; "dog"] sample_world 1 S754_nan
                ValueError Hbad He Hnb Hnc) as [Hnever Hstop].
  split; [exact Hbad|]. split; [exact He|]. split; [|exact Hnever].
  destruct (draw_boxes fixed_getbbox sample_hash sample_colors "sample-images/cat.jpg"
              [sample_box; sample_box] [f32_0_87; S754_nan] (take 1 ["cat"; "dog"])
              sample_world) as [[r|e] w1] eqn:Hrun;
    [|vm_compute in Hrun; discriminate].
  exists r, w1. split; [reflexivity|]. exact (Hstop r w1 eq_refl).
Defined.
